(** * Telegram message service: signal dispatch and callback correlation

    A shallow embedding of [services/TelegramService.js] (the Telegraf
    version with the "Simulate Trade" button) and the properties of its
    classifier, signal parser, dispatcher, callback handler and simulation
    workflow.

    Conventions of the embedding.
    - A JavaScript string is its sequence of UTF-16 code units ([str]); the
      regular expressions of the source carry no [u] flag, so they work on
      code units as well.  String literals are written with [js "..."],
      which turns the UTF-8 text of this file into code units.
    - A JavaScript number is [NaN] or a rational ([number]).  A price read by
      [parseFloat] from a decimal numeral is carried as the exact decimal the
      numeral denotes; the binary64 rounding of the engine is not modelled.
    - [null] and [undefined] results are [None].
    - The service serves one request at a time.  The one activity that runs
      beside a request is the callback of the progress timer of the callback
      handler; it runs while a call that the workflow awaits is pending. *)

From Stdlib Require Import String Ascii DecimalString.
From Stdlib Require Import List NArith ZArith QArith Qround Bool Lia.
Import ListNotations.

Set Implicit Arguments.

(** ** JavaScript strings *)

Module JSString.

Local Open Scope N_scope.

Definition str := list N.

(** Code points of a UTF-8 byte sequence (well-formed input assumed: the
    literals of this file). *)
Fixpoint code_points (bs : list N) : list N :=
  match bs with
  | [] => []
  | b0 :: t0 =>
    if b0 <? 0x80 then b0 :: code_points t0
    else if b0 <? 0xE0 then
      match t0 with
      | b1 :: t1 =>
        N.lor (N.shiftl (N.land b0 0x1F) 6) (N.land b1 0x3F) :: code_points t1
      | _ => []
      end
    else if b0 <? 0xF0 then
      match t0 with
      | b1 :: b2 :: t2 =>
        N.lor (N.shiftl (N.land b0 0x0F) 12)
          (N.lor (N.shiftl (N.land b1 0x3F) 6) (N.land b2 0x3F))
        :: code_points t2
      | _ => []
      end
    else
      match t0 with
      | b1 :: b2 :: b3 :: t3 =>
        N.lor (N.shiftl (N.land b0 0x07) 18)
          (N.lor (N.shiftl (N.land b1 0x3F) 12)
             (N.lor (N.shiftl (N.land b2 0x3F) 6) (N.land b3 0x3F)))
        :: code_points t3
      | _ => []
      end
  end.

(** UTF-16 encoding of one code point: itself, or a surrogate pair. *)
Definition code_units (cp : N) : list N :=
  if cp <? 0x10000 then [cp]
  else
    let c := cp - 0x10000 in
    [0xD800 + N.shiftr c 10; 0xDC00 + N.land c 0x3FF].

Definition js (s : string) : str :=
  flat_map code_units (code_points (map N_of_ascii (list_ascii_of_string s))).

(** [s.startsWith(p)] *)
Fixpoint startsWith (p s : str) : bool :=
  match p, s with
  | [], _ => true
  | x :: p', y :: s' => (x =? y) && startsWith p' s'
  | _ :: _, [] => false
  end.

(** [s.indexOf(p)], with [None] for -1. *)
Fixpoint indexOf (s p : str) : option nat :=
  if startsWith p s then Some 0%nat
  else
    match s with
    | [] => None
    | _ :: s' => option_map S (indexOf s' p)
    end.

(** [s.includes(p)] *)
Definition includes (s p : str) : bool :=
  match indexOf s p with Some _ => true | None => false end.

(** [s.replace(pat, rep)] for a string pattern: only the first occurrence
    of [pat] is replaced ([rep] holds no [$] pattern). *)
Fixpoint replace (s pat rep : str) : str :=
  if startsWith pat s then rep ++ skipn (length pat) s
  else
    match s with
    | [] => []
    | c :: s' => c :: replace s' pat rep
    end.

(** Decimal rendering of a non-negative integer, as a template literal
    renders such a number. *)
Definition toString (n : N) : str :=
  map N_of_ascii
    (list_ascii_of_string (DecimalString.NilZero.string_of_uint (N.to_uint n))).

End JSString.

Export JSString.

(** ** Regular expressions

    The fragment of ECMAScript regular expressions the service uses, with
    the backtracking semantics of the engine: alternatives are tried in
    priority order (greedy quantifiers first take as much as they can) and
    the first complete match wins. *)

Module Regex.

Local Open Scope N_scope.

Inductive regex : Type :=
| Lit (l : str)              (* a literal run of code units *)
| Cls (p : N -> bool)        (* one code unit of a class: \d, \s, [A-Z], . *)
| Star (p : N -> bool)       (* greedy p* over a class *)
| Opt (r : regex)            (* greedy r? *)
| Seq (r1 r2 : regex)
| Group (r : regex).         (* capturing group *)

(** [p+] is [p p*]. *)
Definition Plus (p : N -> bool) : regex := Seq (Cls p) (Star p).

(** \d *)
Definition digit (c : N) : bool := (48 <=? c) && (c <=? 57).

(** [A-Z] *)
Definition upper (c : N) : bool := (65 <=? c) && (c <=? 90).

(** \s : WhiteSpace and LineTerminator code units. *)
Definition space (c : N) : bool :=
  ((9 <=? c) && (c <=? 13)) || (c =? 32) || (c =? 0xA0) || (c =? 0x1680)
  || ((0x2000 <=? c) && (c <=? 0x200A)) || (c =? 0x2028) || (c =? 0x2029)
  || (c =? 0x202F) || (c =? 0x205F) || (c =? 0x3000) || (c =? 0xFEFF).

(** . : anything but a line terminator. *)
Definition dot (c : N) : bool :=
  negb ((c =? 10) || (c =? 13) || (c =? 0x2028) || (c =? 0x2029)).

Definition cont := str -> list str -> option (list str).

(** Greedy iteration over a class: take one more unit when possible, and
    fall back to stopping here when the rest of the pattern then fails. *)
Fixpoint star (p : N -> bool) (s : str) (caps : list str) (k : cont)
  : option (list str) :=
  match s with
  | c :: s' =>
    if p c then
      match star p s' caps k with
      | Some res => Some res
      | None => k s caps
      end
    else k s caps
  | [] => k s caps
  end.

(** [bt r s caps k]: match [r] at the head of [s], then continue with [k] on
    what is left; [caps] are the groups captured so far. *)
Fixpoint bt (r : regex) (s : str) (caps : list str) (k : cont)
  : option (list str) :=
  match r with
  | Lit l => if startsWith l s then k (skipn (length l) s) caps else None
  | Cls p =>
    match s with
    | c :: s' => if p c then k s' caps else None
    | [] => None
    end
  | Star p => star p s caps k
  | Opt r1 =>
    match bt r1 s caps k with
    | Some res => Some res
    | None => k s caps
    end
  | Seq r1 r2 => bt r1 s caps (fun s' caps' => bt r2 s' caps' k)
  | Group r1 =>
    bt r1 s caps
      (fun s' caps' => k s' (caps' ++ [firstn (length s - length s') s]))
  end.

Definition accept : cont := fun _ caps => Some caps.

(** [re.exec(s)] without the sticky or global flag: the leftmost start
    position at which the pattern matches; the result is the list of
    captured groups. *)
Fixpoint exec (r : regex) (s : str) : option (list str) :=
  match bt r s [] accept with
  | Some caps => Some caps
  | None =>
    match s with
    | [] => None
    | _ :: s' => exec r s'
    end
  end.

(** [s.match(re)[1]], or [None] when [s.match(re)] is [null]. *)
Definition match1 (s : str) (r : regex) : option str :=
  match exec r s with
  | Some (g :: _) => Some g
  | _ => None
  end.

End Regex.

Export Regex.

(** ** Numbers *)

Module JSNumber.

Inductive number : Type :=
| NaN
| Num (q : Q).

(** Longest prefix of [s] in the class [p], and what follows it. *)
Fixpoint span (p : N -> bool) (s : str) : str * str :=
  match s with
  | c :: s' =>
    if p c then let (a, b) := span p s' in (c :: a, b) else ([], s)
  | [] => ([], [])
  end.

(** Value of a run of decimal digits. *)
Definition value_of (ds : str) : N :=
  fold_left (fun acc c => (10 * acc + (c - 48))%N) ds 0%N.

(** [parseFloat(s)] on unsigned decimal numerals [digits], [digits.] and
    [digits.digits], which is all that the captures of the parser hold (the
    signs, exponents, leading dot and [Infinity] that the engine also reads
    cannot occur in them).  No leading digit: [NaN]. *)
Definition parseFloat (s : str) : number :=
  let (ip, r) := span digit s in
  match ip with
  | [] => NaN
  | _ :: _ =>
    let fp :=
      match r with
      | c :: r' => if (c =? 46)%N then fst (span digit r') else []
      | [] => []
      end in
    Num (Z.of_N (value_of (ip ++ fp)) # Z.to_pos (10 ^ Z.of_nat (length fp)))
  end.

(** [x + y] and [x / y] on numbers; a zero divisor is outside what the
    service computes (it divides by 2 only) and yields [NaN] here. *)
Definition add (x y : number) : number :=
  match x, y with
  | Num a, Num b => Num (a + b)
  | _, _ => NaN
  end.

Definition div (x y : number) : number :=
  match x, y with
  | Num a, Num b => if Qeq_bool b 0 then NaN else Num (a / b)
  | _, _ => NaN
  end.

(** ToBoolean on a number or [null]: [null], [NaN] and zero are falsy. *)
Definition truthy (v : option number) : bool :=
  match v with
  | Some (Num q) => negb (Qeq_bool q 0)
  | Some NaN => false
  | None => false
  end.

End JSNumber.

Export JSNumber.

(** ** Message classifier and signal parser *)

Record signalData : Type := {
  token : option str;
  tp1 : option number;
  tp2 : option number;
  sl : option number;
  entryPrice : option number
}.

(** The tail shared by the four price patterns, written here with blanks
    between its parts:  \s*  \$?  ( \d+  \.?  \d* )  *)
Definition price_tail : regex :=
  Seq (Star space)
    (Seq (Opt (Lit (js "$")))
       (Group (Seq (Plus digit) (Seq (Opt (Lit (js "."))) (Star digit))))).

Definition TOKEN_LABEL : str := js "🏛️ Token:".
Definition TP1_LABEL : str := js "TP1:".
Definition TP2_LABEL : str := js "TP2:".
Definition SL_LABEL : str := js "🛑 Stop Loss:".
Definition ENTRY_LABEL : str := js "💰 Entry Price:".

(** The token pattern:  🏛️ Token:  \s*  ( [A-Z]+ )  \s*  \(  *)
Definition re_token : regex :=
  Seq (Lit TOKEN_LABEL)
    (Seq (Star space) (Seq (Group (Plus upper)) (Seq (Star space) (Lit (js "("))))).

(** The four price patterns: a label, then the price tail. *)
Definition re_price (label : str) : regex := Seq (Lit label) price_tail.

Definition parseSignalMessage (message : str) : signalData :=
  let tokenMatch := match1 message re_token in
  let tp1Match := match1 message (re_price TP1_LABEL) in
  let tp2Match := match1 message (re_price TP2_LABEL) in
  let slMatch := match1 message (re_price SL_LABEL) in
  let entryMatch := match1 message (re_price ENTRY_LABEL) in
  {| token := tokenMatch;
     tp1 := option_map parseFloat tp1Match;
     tp2 := option_map parseFloat tp2Match;
     sl := option_map parseFloat slMatch;
     entryPrice := option_map parseFloat entryMatch |}.

Definition BULLISH_ALERT : str := js "🚀 **Bullish Alert** 🚀".
Definition SIGNAL_BUY : str := js "📈 **Signal**: Buy".

Definition isBullishSignal (message : str) : bool :=
  includes message BULLISH_ALERT || includes message SIGNAL_BUY.

(** [username.replace('@', '')], the first statement of [sendMessage]. *)
Definition cleanUsername (username : str) : str := replace username (js "@") [].

(** The current-price estimate of [simulateTrade]:
    [entryPrice || (tp1 && sl ? (tp1 + sl) / 2 : null)]. *)
Definition currentPrice (sd : signalData) : option number :=
  if truthy (entryPrice sd) then entryPrice sd
  else if truthy (tp1 sd) && truthy (sl sd) then
    match tp1 sd, sl sd with
    | Some a, Some b => Some (div (add a b) (Num 2))
    | _, _ => None
    end
  else None.

(** The message of end-to-end scenario A, and the test signal that the
    server sends on [/api/telegram/send-test-signal]. *)
Definition scenarioA : str :=
  js "🚀 **Bullish Alert** 🚀 ... TP1: $11.37 ... 🛑 Stop Loss: $8.37 ... 💰 Entry Price: $9.37".

Definition LF : str := [10%N].

Definition testSignalMessage : str :=
  js "🚀 **Bullish Alert** 🚀" ++ LF ++ LF ++
  js "🏛️ **Token**: PEPE (pepe)" ++ LF ++
  js "📈 **Signal**: Buy" ++ LF ++
  js "💰 **Entry Price**: $0.003" ++ LF ++
  js "🎯 **Targets**:" ++ LF ++
  js "TP1: $0.0034" ++ LF ++
  js "TP2: $0.0036" ++ LF ++
  js "🛑 **Stop Loss**: $0.0028" ++ LF ++
  js "⏳ **Timeline:** Short-term (1-7 days)" ++ LF.

(** The same signal as the chat shows it, the bold markers rendered away. *)
Definition renderedSignal : str :=
  js "🚀 Bullish Alert 🚀" ++ LF ++ LF ++
  js "🏛️ Token: PEPE (pepe)" ++ LF ++
  js "📈 Signal: Buy" ++ LF ++
  js "💰 Entry Price: $0.003" ++ LF ++
  js "🎯 Targets:" ++ LF ++
  js "TP1: $0.0034" ++ LF ++
  js "TP2: $0.0036" ++ LF ++
  js "🛑 Stop Loss: $0.0028" ++ LF ++
  js "⏳ Timeline: Short-term (1-7 days)" ++ LF.

(** ** Documents, requests and responses *)

(** A document of the [users] collection, as far as the service reads it.
    An absent field is [None]. *)
Module User.
Record t : Type := { chatId : option Z; twitterId : option str }.
End User.

(** A document of the [safes] collection:
  [safe.deployments?.arbitrum?.address]. *)
Module Safe.
Record t : Type := { arbitrum_address : option str }.
End Safe.

(** The Telegram objects of an incoming callback query. *)
Module Tg.
Record user : Type := { user_id : Z; user_username : option str }.
Record chat : Type :=
  { chat_id : Z; chat_type : option str; chat_username : option str }.
Record message : Type :=
  { message_id : Z; text : option str; date : option Z }.
Record callbackQuery : Type := {
  id : str;
  from : user;
  message_of : message;
  chat_instance : option str;
  data : str
}.
(** The Telegraf context of a callback query: [ctx.from] is
    [ctx.callbackQuery.from]. *)
Record context : Type := { chat_of : option chat; callbackQuery_of : callbackQuery }.
End Tg.

(** The body posted to the signal processing API, and its answer.  The
  fields of the answer are those the service reads; each may be missing. *)
Module Api.
Record body : Type := {
  Signal_Message : str;
  Token_Mentioned : option str;
  TP1 : option number;
  TP2 : option number;
  SL : option number;
  Current_Price : option number;
  Max_Exit_Time : N;
  username : str;
  safeAddress : str
}.
Record tradingPair : Type := {
  networkKey : option str;
  pair_safeAddress : option str;
  tradeId : option str;
  pair_status : option str;
  pair_error : option str
}.
Record result : Type := { error : option str; tradingPair_of : option tradingPair }.
Record response : Type := {
  status : option str;
  signalId : option str;
  result_of : option result
}.
End Api.

(** [userData], the interaction event captured by the callback handler. *)
Module Event.
Record t : Type := {
  username : option str;
  chatId : option Z;
  chatType : option str;
  chatUsername : option str;
  messageId : Z;
  messageText : option str;
  messageDate : option Z;
  callbackQueryId : str;
  callbackData : str;
  callbackQueryFrom : Tg.user;
  chatInstance : option str;
  callbackTimestamp : N;
  messageTimestamp : option Z
}.
End Event.

(** [simulationRecord], a document of the [trade_simulations] collection
  (the [_id] that the driver adds on insertion is left out). *)
Module Simulation.
Record t : Type := {
  status : str;
  timestamp : N;
  username : option str;
  chatId : option Z;
  chatType : option str;
  chatUsername : option str;
  messageId : Z;
  messageText : option str;
  messageDate : option Z;
  callbackQueryId : str;
  callbackData : str;
  callbackQueryFrom : Tg.user;
  chatInstance : option str;
  callbackTimestamp : N;
  messageTimestamp : option Z;
  apiResponse : option Api.response;
  signalData_of : signalData;
  twitterId : str;
  safeAddress : str
}.
End Simulation.

(** The inline keyboard of an outgoing message: rows of buttons. *)
Record button : Type := { button_text : str; callback_data : str }.

(** What [sendMessage] resolves to. *)
Record delivery : Type := {
  ok : bool;
  result_message : option Z;
  description : option str
}.

(** ** The world outside the service *)

(** A thrown value: an [Error] with its message and, for errors raised by
    an HTTP client, the [response] it carries ([Some None] is a response
    without [data]; [Some (Some d)] has [data.description = d]). *)
Record error : Type := { message : str; response : option (option str) }.

Definition Error (msg : str) : error := {| message := msg; response := None |}.

(** Every call that leaves the process, in the order it was made, and the
    two timer operations of the callback handler. *)
Inductive event : Type :=
| MongoConnect
| UsersFindOne (telegramId : option str)
| SafesFindOne (userId : str)
| SimulationsInsertOne (r : Simulation.t)
| SignalApiPost (body : Api.body)
| TelegrafSendMessage (chatId : Z) (text : str) (inline_keyboard : list (list button))
| AxiosSendMessage (chat_id : Z) (text : str)
| AnswerCbQuery (text : str)
| Reply (text : str)
| EditMessageText (chatId : Z) (messageId : Z) (text : str)
| SetInterval
| ClearInterval.

(** The behaviour of the collaborators.  Each answer may depend on all that
    happened before (the history of events): whether an awaited call rejects
    and with what error, what the clock shows, what the API answers, which
    message a send creates, how often a registered timer fires while the call
    made last is pending, what [Math.random()] gives.  The two collections
    that the service only reads are given by what [findOne] returns for a
    key. *)
Record environment : Type := {
  fault : list event -> event -> option error;
  clock : list event -> N;
  users : option str -> option User.t;
  safes : str -> option Safe.t;
  signalApi : list event -> Api.body -> option Api.response;
  created_message : list event -> Z;
  axios_ok : list event -> bool;
  axios_description : list event -> option str;
  timer_fires : list event -> nat;
  random : list event -> Q
}.

(** The state the service works on: the cached connection of [dbConnect],
    the [trade_simulations] collection, and the history. *)
Record world : Type := {
  env : environment;
  cachedClient : bool;
  trade_simulations : list Simulation.t;
  trace : list event
}.

(** ** Computations: state, and exceptions that keep the state *)

Inductive outcome (A : Type) : Type :=
| Return (a : A)
| Throw (e : error).

Arguments Return {A} a.
Arguments Throw {A} e.

Definition M (A : Type) : Type := world -> outcome A * world.

Definition ret {A} (a : A) : M A := fun w => (Return a, w).

Definition throw {A} (e : error) : M A := fun w => (Throw e, w).

Definition bind {A B} (m : M A) (f : A -> M B) : M B :=
  fun w =>
    match m w with
    | (Return a, w') => f a w'
    | (Throw e, w') => (Throw e, w')
    end.

(** [try { m } catch (error) { h error }] *)
Definition catch {A} (m : M A) (h : error -> M A) : M A :=
  fun w =>
    match m w with
    | (Return a, w') => (Return a, w')
    | (Throw e, w') => h e w'
    end.

Declare Scope js_scope.
Delimit Scope js_scope with js.
Notation "x <- m ;; k" := (bind m (fun x => k))
  (at level 61, m at next level, right associativity) : js_scope.
Notation "m ;; k" := (bind m (fun _ => k))
  (at level 61, right associativity) : js_scope.
Local Open Scope js_scope.

Definition logged (e : event) (w : world) : world :=
  {| env := env w;
     cachedClient := cachedClient w;
     trade_simulations := trade_simulations w;
     trace := trace w ++ [e] |}.

(** An awaited call to a collaborator: it enters the history, and either
    rejects or resolves to [answer], taken in the world before the call. *)
Definition await {A} (e : event) (answer : world -> A) : M A :=
  fun w =>
    match fault (env w) (trace w) e with
    | Some err => (Throw err, logged e w)
    | None => (Return (answer w), logged e w)
    end.

(** A local operation that cannot reject. *)
Definition emit (e : event) : M unit := fun w => (Return tt, logged e w).

(** [new Date()] and [Date.now()], in milliseconds. *)
Definition Date_now : M N := fun w => (Return (clock (env w) (trace w)), w).

(** [Math.random()] *)
Definition Math_random : M Q := fun w => (Return (random (env w) (trace w)), w).

(** What the event loop runs while an awaited call is pending: the callbacks
    of the timers that fire meanwhile.  With no timer registered it is
    [idle]. *)
Definition idle : M unit := ret tt.

(** An awaited call on an event loop that runs [loop] while the call is
    pending: the call enters the history, [loop] runs, then the call rejects
    or resolves as in [await].  What [loop] returns or throws does not reach
    the caller. *)
Definition await_on {A} (loop : M unit) (e : event) (answer : world -> A) : M A :=
  fun w =>
    let w' := snd (loop (logged e w)) in
    match fault (env w) (trace w) e with
    | Some err => (Throw err, w')
    | None => (Return (answer w), w')
    end.

Definition TypeError (msg : str) : error := Error msg.

(** ** The service

    Console output is not modelled.  A [catch] block that only logs and
    rethrows is kept, as [rethrow]. *)

Definition rethrow {A} (error : error) : M A := throw error.

(** ToBoolean on an optional string and on an optional chat id. *)
Definition nonempty (v : option str) : bool :=
  match v with
  | Some (_ :: _) => true
  | _ => false
  end.

Definition nonzero (v : option Z) : bool :=
  match v with
  | Some z => negb (z =? 0)%Z
  | None => false
  end.

(** A value inside a template literal. *)
Definition interpolate (v : option str) : str :=
  match v with
  | Some s => s
  | None => js "undefined"
  end.

(** [v || fallback] on an optional string. *)
Definition or_else (v : option str) (fallback : str) : str :=
  match v with
  | Some (c :: s) => c :: s
  | _ => fallback
  end.

(** [utils/dbConnect.js] *)
Definition dbConnect : M unit :=
  fun w =>
    if cachedClient w then (Return tt, w)
    else
      catch
        (await MongoConnect (fun _ => tt) ;;
         fun w' =>
           (Return tt,
            {| env := env w';
               cachedClient := true;
               trade_simulations := trade_simulations w';
               trace := trace w' |}))
        rethrow w.

Definition NOT_FOUND : error :=
  Error (js "User not found or chat ID not available in database.").

Definition findChatIdByUsername (username : str) : M Z :=
  catch
    (dbConnect ;;
     user <- await (UsersFindOne (Some username))
               (fun w => users (env w) (Some username)) ;;
     match user with
     | Some u =>
       match User.chatId u with
       | Some chatId => if nonzero (Some chatId) then ret chatId else throw NOT_FOUND
       | None => throw NOT_FOUND
       end
     | None => throw NOT_FOUND
     end)
    rethrow.

Definition fetchUserData (telegramUsername : option str) : M (str * str) :=
  catch
    (dbConnect ;;
     user <- await (UsersFindOne telegramUsername)
               (fun w => users (env w) telegramUsername) ;;
     let no_user :=
       Error (js "User not found or twitterId not available for telegram username: "
              ++ interpolate telegramUsername) in
     match user with
     | None => throw no_user
     | Some u =>
       if negb (nonempty (User.twitterId u)) then throw no_user
       else
         let twitterId := interpolate (User.twitterId u) in
         safe <- await (SafesFindOne twitterId)
                   (fun w => safes (env w) twitterId) ;;
         let no_safe :=
           Error (js "Safe not found or arbitrum address not available for twitterId: "
                  ++ twitterId) in
         match safe with
         | None => throw no_safe
         | Some sf =>
           if negb (nonempty (Safe.arbitrum_address sf)) then throw no_safe
           else ret (twitterId, interpolate (Safe.arbitrum_address sf))
         end
     end)
    rethrow.

(** One day, in milliseconds ([setDate(getDate() + 1)]; a day that a
    daylight-saving change shortens or lengthens is not modelled). *)
Definition ONE_DAY : N := 86400000.

Definition simulateTrade (signalData : signalData) (username safeAddress : str)
  : M (option Api.response) :=
  catch
    (let currentPrice := currentPrice signalData in
     now <- Date_now ;;
     let maxExitTime := (now + ONE_DAY)%N in
     let apiBody :=
       {| Api.Signal_Message := js "buy";
          Api.Token_Mentioned := token signalData;
          Api.TP1 := tp1 signalData;
          Api.TP2 := tp2 signalData;
          Api.SL := sl signalData;
          Api.Current_Price := currentPrice;
          Api.Max_Exit_Time := maxExitTime;
          Api.username := username;
          Api.safeAddress := safeAddress |} in
     response <- await (SignalApiPost apiBody)
                   (fun w => signalApi (env w) (trace w) apiBody) ;;
     ret response)
    rethrow.

(** [simulationCollection.insertOne(r)] *)
Definition insertOne (r : Simulation.t) : M unit :=
  await (SimulationsInsertOne r) (fun _ => tt) ;;
  fun w =>
    (Return tt,
     {| env := env w;
        cachedClient := cachedClient w;
        trade_simulations := trade_simulations w ++ [r];
        trace := trace w |}).

Definition INITIATED : str := js "initiated".

Definition handleSimulateTradeRequest (userData : Event.t)
  : M (option Api.response) :=
  catch
    (dbConnect ;;
     timestamp <- Date_now ;;
     match Event.messageText userData with
     | None => throw (TypeError (js "Cannot read properties of undefined (reading 'match')"))
     | Some messageText =>
       let signalData := parseSignalMessage messageText in
       userDataResult <- fetchUserData (Event.username userData) ;;
       apiResponse <- simulateTrade signalData (fst userDataResult) (snd userDataResult) ;;
       let simulationRecord :=
         {| Simulation.status := INITIATED;
            Simulation.timestamp := timestamp;
            Simulation.username := Event.username userData;
            Simulation.chatId := Event.chatId userData;
            Simulation.chatType := Event.chatType userData;
            Simulation.chatUsername := Event.chatUsername userData;
            Simulation.messageId := Event.messageId userData;
            Simulation.messageText := Event.messageText userData;
            Simulation.messageDate := Event.messageDate userData;
            Simulation.callbackQueryId := Event.callbackQueryId userData;
            Simulation.callbackData := Event.callbackData userData;
            Simulation.callbackQueryFrom := Event.callbackQueryFrom userData;
            Simulation.chatInstance := Event.chatInstance userData;
            Simulation.callbackTimestamp := Event.callbackTimestamp userData;
            Simulation.messageTimestamp := Event.messageTimestamp userData;
            Simulation.apiResponse := apiResponse;
            Simulation.signalData_of := signalData;
            Simulation.twitterId := fst userDataResult;
            Simulation.safeAddress := snd userDataResult |} in
       insertOne simulationRecord ;;
       ret apiResponse
     end)
    rethrow.

Definition SIMULATE_TRADE_LABEL : str := js "🚀 Simulate Trade".

(** The correlation token: [simulate_trade_${Date.now()}_${cleanUsername}] *)
Definition correlationToken (now : N) (cleanUsername : str) : str :=
  js "simulate_trade_" ++ toString now ++ js "_" ++ cleanUsername.

Definition sendMessage (username message : str) : M delivery :=
  catch
    (let cleanUsername := cleanUsername username in
     chatId <- findChatIdByUsername cleanUsername ;;
     let isBullish := isBullishSignal message in
     if isBullish then
       now <- Date_now ;;
       let keyboard :=
         [[ {| button_text := SIMULATE_TRADE_LABEL;
               callback_data := correlationToken now cleanUsername |} ]] in
       response <- await (TelegrafSendMessage chatId message keyboard)
                     (fun w => created_message (env w) (trace w)) ;;
       ret {| ok := true;
              result_message := Some response;
              description := Some (js "Message sent successfully with inline keyboard") |}
     else
       response_data <- await (AxiosSendMessage chatId message)
                          (fun w =>
                             {| ok := axios_ok (env w) (trace w);
                                result_message := Some (created_message (env w) (trace w));
                                description := axios_description (env w) (trace w) |}) ;;
       if negb (ok response_data) then
         throw (Error (js "Telegram API Error: " ++ interpolate (description response_data)))
       else ret response_data)
    (fun error =>
       match response error with
       | Some (Some d) => throw (Error (js "Telegram API Error: " ++ interpolate (Some d)))
       | Some None =>
         throw (TypeError (js "Cannot read properties of undefined (reading 'description')"))
       | None => throw error
       end).

(** ** The callback handler *)

(** [s.replace(/_/g, '\\_')] *)
Definition escapeUnderscores (s : str) : str :=
  flat_map (fun c => if (c =? 95)%N then [92%N; 95%N] else [c]) s.

Definition PROCESSING_ACK : str := js "🔄 Processing trade simulation...".

Definition PROCESSING_MESSAGE : str :=
  js "⏳ **Processing Trade Simulation...**" ++ LF ++ LF ++
  js "🔄 Connecting to trading engine..." ++ LF ++
  js "📊 Analyzing signal data..." ++ LF ++
  js "⚡ Executing simulation..." ++ LF ++ LF ++
  js "*This may take a few moments...*".

Definition ERROR_ACK : str := js "❌ Error processing simulation request".

Definition SORRY : str :=
  js "❌ Sorry, there was an error processing your trade simulation. Please try again later.".

Definition INITIATED_REPLY : str :=
  js "✅ Trade simulation has been initiated for this signal. You will receive updates shortly.".

Definition NA : str := js "N/A".

Definition pair_field (f : Api.tradingPair -> option str)
           (r : Api.response) : option str :=
  match Api.result_of r with
  | Some res =>
    match Api.tradingPair_of res with
    | Some tp => f tp
    | None => None
    end
  | None => None
  end.

Definition result_error (r : Api.response) : option str :=
  match Api.result_of r with
  | Some res => Api.error res
  | None => None
  end.

Definition str_eqb (a b : str) : bool :=
  if list_eq_dec N.eq_dec a b then true else false.

Definition status_is (r : Api.response) (s : str) : bool :=
  match Api.status r with
  | Some st => str_eqb st s
  | None => false
  end.

(** The final text of the processing message, from the API answer. *)
Definition replyMessage (apiResponse : option Api.response) : str :=
  match apiResponse with
  | None => INITIATED_REPLY
  | Some r =>
    if status_is r (js "success") then
      let safeAddress :=
        escapeUnderscores (or_else (pair_field Api.pair_safeAddress r) NA) in
      let tradeId :=
        escapeUnderscores (or_else (pair_field Api.tradeId r) NA) in
      js "✅ **Trade Simulation Successful!**" ++ LF ++ LF ++
      js "🔹 **Signal ID**: `" ++ interpolate (Api.signalId r) ++ js "`" ++ LF ++
      js "🔹 **Network**: " ++ or_else (pair_field Api.networkKey r) NA ++ LF ++
      js "🔹 **Safe Address**: `" ++ safeAddress ++ js "`" ++ LF ++
      js "🔹 **Trade ID**: `" ++ tradeId ++ js "`" ++ LF ++
      js "🔹 **Status**: " ++ or_else (pair_field Api.pair_status r) NA ++ LF ++ LF ++
      js "🚀 Your trade simulation has been processed successfully!"
    else if status_is r (js "failed") then
      let errorMsg :=
        escapeUnderscores
          (or_else (result_error r)
             (or_else (pair_field Api.pair_error r) (js "Unknown error"))) in
      js "❌ **Trade Simulation Failed**" ++ LF ++ LF ++
      js "🔹 **Signal ID**: `" ++ interpolate (Api.signalId r) ++ js "`" ++ LF ++
      js "🔹 **Network**: " ++ or_else (pair_field Api.networkKey r) NA ++ LF ++
      js "🔹 **Error**: `" ++ errorMsg ++ js "`" ++ LF ++ LF ++
      js "Please try again or contact support if the issue persists."
    else INITIATED_REPLY
  end.

(** [ctx.chat.id] *)
Definition chat_id_of (ctx : Tg.context) : M Z :=
  match Tg.chat_of ctx with
  | Some c => ret (Tg.chat_id c)
  | None => throw (TypeError (js "Cannot read properties of undefined (reading 'id')"))
  end.

(** The interaction event, read off the context; the handler then logs the
    first hundred units of the message text, which throws when the message
    has no text. *)
Definition captureUserData (ctx : Tg.context) (callbackData : str) : M Event.t :=
  now <- Date_now ;;
  let cq := Tg.callbackQuery_of ctx in
  let msg := Tg.message_of cq in
  let userData :=
    {| Event.username := Tg.user_username (Tg.from cq);
       Event.chatId := option_map Tg.chat_id (Tg.chat_of ctx);
       Event.chatType :=
         match Tg.chat_of ctx with Some c => Tg.chat_type c | None => None end;
       Event.chatUsername :=
         match Tg.chat_of ctx with Some c => Tg.chat_username c | None => None end;
       Event.messageId := Tg.message_id msg;
       Event.messageText := Tg.text msg;
       Event.messageDate := Tg.date msg;
       Event.callbackQueryId := Tg.id cq;
       Event.callbackData := callbackData;
       Event.callbackQueryFrom := Tg.from cq;
       Event.chatInstance := Tg.chat_instance cq;
       Event.callbackTimestamp := now;
       Event.messageTimestamp :=
         if nonzero (Tg.date msg)
         then option_map (fun d => (d * 1000)%Z) (Tg.date msg)
         else None |} in
  match Event.messageText userData with
  | Some _ => ret userData
  | None =>
    throw (TypeError (js "Cannot read properties of undefined (reading 'substring')"))
  end.

(** [answerCbQuery] with the error text, its own failure ignored. *)
Definition answerError : M unit :=
  catch (await (AnswerCbQuery ERROR_ACK) (fun _ => tt)) (fun _ => ret tt).

(** *** The progress timer

    The callback that [setInterval] registers: it edits the processing
    message into a progress text that begins with a dot drawn at random, and
    swallows every error, that of a context without chat included. *)

Definition DOTS : list str :=
  [js "⠋"; js "⠙"; js "⠹"; js "⠸"; js "⠼"; js "⠴"; js "⠦"; js "⠧"; js "⠇"; js "⠏"].

(** [dots[Math.floor(r * dots.length)]], which is [undefined] outside the
    array. *)
Definition randomDot (r : Q) : option str :=
  let i := Qfloor (r * inject_Z (Z.of_nat (length DOTS))) in
  if (i <? 0)%Z then None else nth_error DOTS (Z.to_nat i).

Definition progressMessage (randomDot : option str) : str :=
  interpolate randomDot ++ js " **Processing Trade Simulation...**" ++ LF ++ LF ++
  js "🔄 Connecting to trading engine..." ++ LF ++
  js "📊 Analyzing signal data..." ++ LF ++
  js "⚡ Executing simulation..." ++ LF ++ LF ++
  js "*Please wait while we process your request...*".

Definition progressCallback (ctx : Tg.context) (processingMessage : Z) : M unit :=
  catch
    (r <- Math_random ;;
     chat <- chat_id_of ctx ;;
     await (EditMessageText chat processingMessage (progressMessage (randomDot r)))
       (fun _ => tt))
    (fun editError => ret tt).

(** [n] runs of a callback, one after the other. *)
Fixpoint fires (n : nat) (callback : M unit) : M unit :=
  match n with
  | O => ret tt
  | S n' => callback ;; fires n' callback
  end.

(** What the event loop runs during one wait while the progress timer is
    registered: the callback, as often as the timer fires meanwhile. *)
Definition progressInterval (ctx : Tg.context) (processingMessage : Z) : M unit :=
  fun w => fires (timer_fires (env w) (trace w))
             (progressCallback ctx processingMessage) w.

(** *** The workflow on an event loop with a registered timer

    The handler calls [handleSimulateTradeRequest] between [setInterval] and
    [clearInterval], so every call that the workflow awaits gives the timer a
    chance to fire.  These are the functions of the workflow again, with
    [await_on loop] where the ones above have [await]; a connection that is
    cached is returned without a wait.  On the [idle] loop they are the
    functions above. *)

Definition dbConnect_on (loop : M unit) : M unit :=
  fun w =>
    if cachedClient w then (Return tt, w)
    else
      catch
        (await_on loop MongoConnect (fun _ => tt) ;;
         fun w' =>
           (Return tt,
            {| env := env w';
               cachedClient := true;
               trade_simulations := trade_simulations w';
               trace := trace w' |}))
        rethrow w.

Definition fetchUserData_on (loop : M unit) (telegramUsername : option str)
  : M (str * str) :=
  catch
    (dbConnect_on loop ;;
     user <- await_on loop (UsersFindOne telegramUsername)
               (fun w => users (env w) telegramUsername) ;;
     let no_user :=
       Error (js "User not found or twitterId not available for telegram username: "
              ++ interpolate telegramUsername) in
     match user with
     | None => throw no_user
     | Some u =>
       if negb (nonempty (User.twitterId u)) then throw no_user
       else
         let twitterId := interpolate (User.twitterId u) in
         safe <- await_on loop (SafesFindOne twitterId)
                   (fun w => safes (env w) twitterId) ;;
         let no_safe :=
           Error (js "Safe not found or arbitrum address not available for twitterId: "
                  ++ twitterId) in
         match safe with
         | None => throw no_safe
         | Some sf =>
           if negb (nonempty (Safe.arbitrum_address sf)) then throw no_safe
           else ret (twitterId, interpolate (Safe.arbitrum_address sf))
         end
     end)
    rethrow.

Definition simulateTrade_on (loop : M unit) (signalData : signalData)
           (username safeAddress : str) : M (option Api.response) :=
  catch
    (let currentPrice := currentPrice signalData in
     now <- Date_now ;;
     let maxExitTime := (now + ONE_DAY)%N in
     let apiBody :=
       {| Api.Signal_Message := js "buy";
          Api.Token_Mentioned := token signalData;
          Api.TP1 := tp1 signalData;
          Api.TP2 := tp2 signalData;
          Api.SL := sl signalData;
          Api.Current_Price := currentPrice;
          Api.Max_Exit_Time := maxExitTime;
          Api.username := username;
          Api.safeAddress := safeAddress |} in
     response <- await_on loop (SignalApiPost apiBody)
                   (fun w => signalApi (env w) (trace w) apiBody) ;;
     ret response)
    rethrow.

Definition insertOne_on (loop : M unit) (r : Simulation.t) : M unit :=
  await_on loop (SimulationsInsertOne r) (fun _ => tt) ;;
  fun w =>
    (Return tt,
     {| env := env w;
        cachedClient := cachedClient w;
        trade_simulations := trade_simulations w ++ [r];
        trace := trace w |}).

Definition handleSimulateTradeRequest_on (loop : M unit) (userData : Event.t)
  : M (option Api.response) :=
  catch
    (dbConnect_on loop ;;
     timestamp <- Date_now ;;
     match Event.messageText userData with
     | None => throw (TypeError (js "Cannot read properties of undefined (reading 'match')"))
     | Some messageText =>
       let signalData := parseSignalMessage messageText in
       userDataResult <- fetchUserData_on loop (Event.username userData) ;;
       apiResponse <- simulateTrade_on loop signalData
                        (fst userDataResult) (snd userDataResult) ;;
       let simulationRecord :=
         {| Simulation.status := INITIATED;
            Simulation.timestamp := timestamp;
            Simulation.username := Event.username userData;
            Simulation.chatId := Event.chatId userData;
            Simulation.chatType := Event.chatType userData;
            Simulation.chatUsername := Event.chatUsername userData;
            Simulation.messageId := Event.messageId userData;
            Simulation.messageText := Event.messageText userData;
            Simulation.messageDate := Event.messageDate userData;
            Simulation.callbackQueryId := Event.callbackQueryId userData;
            Simulation.callbackData := Event.callbackData userData;
            Simulation.callbackQueryFrom := Event.callbackQueryFrom userData;
            Simulation.chatInstance := Event.chatInstance userData;
            Simulation.callbackTimestamp := Event.callbackTimestamp userData;
            Simulation.messageTimestamp := Event.messageTimestamp userData;
            Simulation.apiResponse := apiResponse;
            Simulation.signalData_of := signalData;
            Simulation.twitterId := fst userDataResult;
            Simulation.safeAddress := snd userDataResult |} in
       insertOne_on loop simulationRecord ;;
       ret apiResponse
     end)
    rethrow.

(** The handler registered for the pattern simulate_trade_(.+), applied to
    the context and to [ctx.match[1]].  The progress timer is registered
    after the processing message is posted and cleared as soon as the
    workflow has returned or thrown, with no wait in between: its callback
    runs only while a call of the workflow is pending. *)
Definition simulateTradeAction (ctx : Tg.context) (callbackData : str) : M unit :=
  catch
    (userData <- captureUserData ctx callbackData ;;
     await (AnswerCbQuery PROCESSING_ACK) (fun _ => tt) ;;
     processingMessage <- await (Reply PROCESSING_MESSAGE)
                            (fun w => created_message (env w) (trace w)) ;;
     emit SetInterval ;;
     catch
       (apiResponse <- handleSimulateTradeRequest_on
                         (progressInterval ctx processingMessage) userData ;;
        emit ClearInterval ;;
        chat <- chat_id_of ctx ;;
        await (EditMessageText chat processingMessage (replyMessage apiResponse))
          (fun _ => tt))
       (fun error =>
          emit ClearInterval ;;
          answerError ;;
          catch
            (chat <- chat_id_of ctx ;;
             await (EditMessageText chat processingMessage SORRY) (fun _ => tt))
            (fun editError => await (Reply SORRY) (fun _ => tt))))
    (fun error =>
       answerError ;;
       await (Reply SORRY) (fun _ => tt)).

(** The pattern of the action:  simulate_trade_ ( .+ )  *)
Definition re_simulate_trade : regex :=
  Seq (Lit (js "simulate_trade_")) (Group (Plus dot)).

(** The two [bot.action] registrations of [setupBotHandlers], applied to an
    incoming callback query: the simulate-trade handler when the payload
    matches its pattern, the catch-all otherwise. *)
Definition setupBotHandlers (ctx : Tg.context) : M unit :=
  match match1 (Tg.data (Tg.callbackQuery_of ctx)) re_simulate_trade with
  | Some callbackData => simulateTradeAction ctx callbackData
  | None => await (AnswerCbQuery (js "Unknown action")) (fun _ => tt)
  end.

(** ** Runs of the service *)

(** What the outside asks of the service: a send, a callback query, or the
    simulation workflow on an interaction event. *)
Inductive request : Type :=
| Send (username message : str)
| Callback (ctx : Tg.context)
| Simulate (userData : Event.t).

Definition serve (r : request) (w : world) : world :=
  match r with
  | Send username message => snd (sendMessage username message w)
  | Callback ctx => snd (setupBotHandlers ctx w)
  | Simulate userData => snd (handleSimulateTradeRequest userData w)
  end.

(** A fresh process (no cached connection, no history) on an empty
    collection, in any environment. *)
Definition start (e : environment) : world :=
  {| env := e; cachedClient := false; trade_simulations := []; trace := [] |}.

(** The worlds a process can be in. *)
Inductive reachable : world -> Prop :=
| reachable_start (e : environment) : reachable (start e)
| reachable_serve (w : world) (r : request) :
    reachable w -> reachable (serve r w).

(** A collaborator that never rejects. *)
Definition reliable (e : environment) : Prop :=
  forall history call, fault e history call = None.

(** The calls of the remote workflow: the document store and the API. *)
Definition workflow_call (e : event) : bool :=
  match e with
  | MongoConnect | UsersFindOne _ | SafesFindOne _
  | SimulationsInsertOne _ | SignalApiPost _ => true
  | _ => false
  end.

(** The calls that put a message into a chat. *)
Definition outbound_message (e : event) : bool :=
  match e with
  | TelegrafSendMessage _ _ _ | AxiosSendMessage _ _ | Reply _ => true
  | _ => false
  end.

(** The calls to the chat transport. *)
Definition transport_call (e : event) : bool :=
  match e with
  | TelegrafSendMessage _ _ _ | AxiosSendMessage _ _ | Reply _
  | AnswerCbQuery _ | EditMessageText _ _ _ => true
  | _ => false
  end.

(** ** The HTTP route that sends a message

    [POST /api/telegram/send] of the server, with the error-handling
    middleware that [asyncHandler] passes a rejection to.  The two fields of
    the request body are taken to be strings or absent.  Of the JSON answer
    the record keeps the status, the field [success] and the one text, which
    the source puts under the key message of a success and under the key
    error otherwise. *)

Record httpResponse : Type := {
  http_status : nat;
  success : bool;
  payload : str
}.

(** The error-handling middleware. *)
Definition errorMiddleware (err : error) : httpResponse :=
  {| http_status := 500;
     success := false;
     payload := or_else (Some (message err)) (js "Internal Server Error") |}.

Definition postTelegramSend (username message : option str) : M httpResponse :=
  match username, message with
  | Some (c :: u), Some (d :: m) =>
    catch
      (response <- sendMessage (c :: u) (d :: m) ;;
       ret {| http_status := 200;
              success := true;
              payload := js "Telegram message sent successfully" |})
      rethrow
  | _, _ =>
    ret {| http_status := 400;
           success := false;
           payload := js "Both username and message are required" |}
  end.

(** The route as the client sees it: a thrown error becomes the answer of
    the middleware. *)
Definition telegramSendRoute (username message : option str) (w : world)
  : httpResponse * world :=
  match postTelegramSend username message w with
  | (Return res, w') => (res, w')
  | (Throw err, w') => (errorMiddleware err, w')
  end.

(** The events a computation adds to the history of [w]. *)
Definition events_of {A} (m : M A) (w : world) : list event :=
  skipn (length (trace w)) (trace (snd (m w))).

(** [w'] comes after [w]: the same environment; a history extended by
    events that satisfy [Pev]; a collection extended by records that satisfy
    [Prec]; a connection that stays cached. *)
Definition evolves (Pev : event -> Prop) (Prec : Simulation.t -> Prop)
           (w w' : world) : Prop :=
  env w' = env w /\
  (exists evs, trace w' = trace w ++ evs /\ Forall Pev evs) /\
  (exists recs, trade_simulations w' = trade_simulations w ++ recs /\
                Forall Prec recs) /\
  (cachedClient w = true -> cachedClient w' = true).

(** Every run of [m] leads to a world related to the one it started in. *)
Definition stable {A} (R : world -> world -> Prop) (m : M A) : Prop :=
  forall w, R w (snd (m w)).

(** The record carries every field of the interaction event. *)
Definition carries_event (r : Simulation.t) (userData : Event.t) : Prop :=
  Simulation.username r = Event.username userData /\
  Simulation.chatId r = Event.chatId userData /\
  Simulation.chatType r = Event.chatType userData /\
  Simulation.chatUsername r = Event.chatUsername userData /\
  Simulation.messageId r = Event.messageId userData /\
  Simulation.messageText r = Event.messageText userData /\
  Simulation.messageDate r = Event.messageDate userData /\
  Simulation.callbackQueryId r = Event.callbackQueryId userData /\
  Simulation.callbackData r = Event.callbackData userData /\
  Simulation.callbackQueryFrom r = Event.callbackQueryFrom userData /\
  Simulation.chatInstance r = Event.chatInstance userData /\
  Simulation.callbackTimestamp r = Event.callbackTimestamp userData /\
  Simulation.messageTimestamp r = Event.messageTimestamp userData.

(** The document store and the API answer the calls of the workflow that
    come before the insertion. *)
Definition lookups_reliable (e : environment) : Prop :=
  forall history,
    fault e history MongoConnect = None /\
    (forall k, fault e history (UsersFindOne k) = None) /\
    (forall k, fault e history (SafesFindOne k) = None) /\
    (forall b, fault e history (SignalApiPost b) = None).

(** The directory links the chat user to a trading identity and that
    identity to a custodial address. *)
Definition resolves (e : environment) (username : option str)
           (twitterId safeAddress : str) : Prop :=
  exists u sf,
    users e username = Some u /\ User.twitterId u = Some twitterId /\
    twitterId <> [] /\
    safes e twitterId = Some sf /\ Safe.arbitrum_address sf = Some safeAddress /\
    safeAddress <> [].

Definition is_insert (e : event) : bool :=
  match e with SimulationsInsertOne _ => true | _ => false end.

Definition is_api_post (e : event) : bool :=
  match e with SignalApiPost _ => true | _ => false end.

(** The lookups: calls of the workflow other than the API call and the
    insertion. *)
Definition lookup_event (e : event) : Prop :=
  workflow_call e = true /\ is_insert e = false /\ is_api_post e = false.

(** The body that [simulateTrade] posts at time [now]. *)
Definition apiBody_of (sd : signalData) (now : N) (username safeAddress : str)
  : Api.body :=
  {| Api.Signal_Message := js "buy";
     Api.Token_Mentioned := token sd;
     Api.TP1 := tp1 sd;
     Api.TP2 := tp2 sd;
     Api.SL := sl sd;
     Api.Current_Price := currentPrice sd;
     Api.Max_Exit_Time := (now + ONE_DAY)%N;
     Api.username := username;
     Api.safeAddress := safeAddress |}.

(** ** A sample world

    One user, alice, linked to a chat, a trading identity and a custodial
    address; collaborators that never reject; an API that always gives the
    same answer. *)

Definition sample_env (answer : option Api.response) : environment :=
  {| fault := fun _ _ => None;
     clock := fun history => (1700000000000 + N.of_nat (length history))%N;
     users := fun k =>
       match k with
       | Some name =>
         if str_eqb name (js "alice")
         then Some {| User.chatId := Some 42%Z;
                      User.twitterId := Some (js "alice_tw") |}
         else None
       | None => None
       end;
     safes := fun k =>
       if str_eqb k (js "alice_tw")
       then Some {| Safe.arbitrum_address := Some (js "0xA11CE") |}
       else None;
     signalApi := fun _ _ => answer;
     created_message := fun history => Z.of_nat (length history);
     axios_ok := fun _ => true;
     axios_description := fun _ => None;
     timer_fires := fun _ => O;
     random := fun _ => 0%Q |}.

(** The same world with slow collaborators: the progress timer fires twice
    during every call that the workflow awaits. *)
Definition slow_env (answer : option Api.response) : environment :=
  {| fault := fault (sample_env answer);
     clock := clock (sample_env answer);
     users := users (sample_env answer);
     safes := safes (sample_env answer);
     signalApi := signalApi (sample_env answer);
     created_message := created_message (sample_env answer);
     axios_ok := axios_ok (sample_env answer);
     axios_description := axios_description (sample_env answer);
     timer_fires := fun _ => 2%nat;
     random := fun history => Z.of_nat (length history mod 10) # 10 |}.

(** The answers of scenario D and of a successful simulation. *)
Definition failed_response : Api.response :=
  {| Api.status := Some (js "failed");
     Api.signalId := Some (js "sig_1");
     Api.result_of :=
       Some {| Api.error := Some (js "slippage_exceeded");
               Api.tradingPair_of := None |} |}.

Definition success_response : Api.response :=
  {| Api.status := Some (js "success");
     Api.signalId := Some (js "sig_2");
     Api.result_of :=
       Some {| Api.error := None;
               Api.tradingPair_of :=
                 Some {| Api.networkKey := Some (js "arbitrum");
                         Api.pair_safeAddress := Some (js "0xA11CE");
                         Api.tradeId := Some (js "trade_9");
                         Api.pair_status := Some (js "initiated");
                         Api.pair_error := None |} |} |}.

(** A click on the button under scenario A's message, by [who]. *)
Definition click (who : str) : Tg.context :=
  {| Tg.chat_of :=
       Some {| Tg.chat_id := 42%Z;
               Tg.chat_type := Some (js "private");
               Tg.chat_username := Some who |};
     Tg.callbackQuery_of :=
       {| Tg.id := js "cq_1";
          Tg.from := {| Tg.user_id := 7%Z; Tg.user_username := Some who |};
          Tg.message_of :=
            {| Tg.message_id := 100%Z;
               Tg.text := Some scenarioA;
               Tg.date := Some 1700000000%Z |};
          Tg.chat_instance := Some (js "ci_1");
          Tg.data := js "simulate_trade_1700000000000_alice" |} |}.

(** The interaction event of such a click. *)
Definition click_event (who : str) : Event.t :=
  {| Event.username := Some who;
     Event.chatId := Some 42%Z;
     Event.chatType := Some (js "private");
     Event.chatUsername := Some who;
     Event.messageId := 100%Z;
     Event.messageText := Some scenarioA;
     Event.messageDate := Some 1700000000%Z;
     Event.callbackQueryId := js "cq_1";
     Event.callbackData := js "1700000000000_alice";
     Event.callbackQueryFrom :=
       {| Tg.user_id := 7%Z; Tg.user_username := Some who |};
     Event.chatInstance := Some (js "ci_1");
     Event.callbackTimestamp := 1700000000000%N;
     Event.messageTimestamp := Some 1700000000000%Z |}.

(** The directory has no record for the user, or a record without a chat
    id. *)
Definition no_chat_id (e : environment) (username : str) : Prop :=
  users e (Some username) = None \/
  exists u, users e (Some username) = Some u /\ User.chatId u = None.

(** The one button of an actionable message. *)
Definition simulateButton (now : N) (cleanUsername : str) : button :=
  {| button_text := SIMULATE_TRADE_LABEL;
     callback_data := correlationToken now cleanUsername |}.

(** An event outside the remote workflow. *)
Definition quiet (e : event) : Prop := workflow_call e = false.

(** An event that is neither the API call nor the insertion. *)
Definition after_workflow (e : event) : Prop :=
  is_insert e = false /\ is_api_post e = false.

(** ** Vocabulary of the statements about the parser *)

(** The next code unit, if there is one, is outside the class [p]. *)
Definition stops (p : N -> bool) (rest : str) : bool :=
  match rest with
  | c :: _ => negb (p c)
  | [] => true
  end.

(** An unsigned decimal numeral: digits, then optionally a point and
    further digits (possibly none). *)
Definition numeral (n : str) : bool :=
  match span digit n with
  | (_ :: _, []) => true
  | (_ :: _, c :: fp) => (c =? 46)%N && forallb digit fp
  | ([], _) => false
  end.

(** The numeral [n] ends where [rest] begins: no digit follows it, and no
    point follows a numeral that has none. *)
Definition numeral_ends (n rest : str) : bool :=
  stops digit rest &&
  match snd (span digit n) with
  | [] => stops (N.eqb 46) rest
  | _ :: _ => true
  end.

(** The leftmost occurrence of [label] in [msg] is followed by optional
    white space, an optional dollar sign and the numeral [n]. *)
Definition price_at (label n msg : str) : Prop :=
  exists pre ws dollar rest,
    msg = pre ++ label ++ ws ++ dollar ++ n ++ rest /\
    indexOf msg label = Some (length pre) /\
    forallb space ws = true /\
    (dollar = [] \/ dollar = js "$") /\
    numeral n = true /\ numeral_ends n rest = true.

(** The leftmost occurrence of the token label in [msg] is followed by
    optional white space, the upper-case run [tok], optional white space and
    an opening parenthesis. *)
Definition token_at (tok msg : str) : Prop :=
  exists pre ws1 ws2 rest,
    msg = pre ++ TOKEN_LABEL ++ ws1 ++ tok ++ ws2 ++ js "(" ++ rest /\
    indexOf msg TOKEN_LABEL = Some (length pre) /\
    forallb space ws1 = true /\ forallb space ws2 = true /\
    tok <> [] /\ forallb upper tok = true.

(** The value [v] was read at an occurrence of [label] in [msg]: from a
    numeral after optional white space and an optional dollar sign; it is a
    number that is not negative. *)
Definition price_read (label msg : str) (v : number) : Prop :=
  exists pre ws dollar n rest q,
    msg = pre ++ label ++ ws ++ dollar ++ n ++ rest /\
    forallb space ws = true /\ (dollar = [] \/ dollar = js "$") /\
    numeral n = true /\ v = parseFloat n /\ v = Num q /\ (0 <= q)%Q.

(** The token [tok] was read at an occurrence of the token label in [msg]. *)
Definition token_read (tok msg : str) : Prop :=
  exists pre ws1 ws2 rest,
    msg = pre ++ TOKEN_LABEL ++ ws1 ++ tok ++ ws2 ++ js "(" ++ rest /\
    forallb space ws1 = true /\ forallb space ws2 = true /\
    tok <> [] /\ forallb upper tok = true.

(** What the [catch] block of [sendMessage] throws for a caught error. *)
Definition surfaced (err : error) : error :=
  match response err with
  | Some (Some d) => Error (js "Telegram API Error: " ++ d)
  | Some None =>
    TypeError (js "Cannot read properties of undefined (reading 'description')")
  | None => err
  end.

(** The calls of the chat lookup. *)
Definition chat_lookup_event (username : str) (e : event) : Prop :=
  e = MongoConnect \/ e = UsersFindOne (Some username).

(** The directory does not link the chat user to a trading identity. *)
Definition no_identity (e : environment) (username : option str) : Prop :=
  users e username = None \/
  exists u, users e username = Some u /\ nonempty (User.twitterId u) = false.

(** The trading identity has no custodial address on arbitrum. *)
Definition no_address (e : environment) (twitterId : str) : Prop :=
  safes e twitterId = None \/
  exists sf, safes e twitterId = Some sf /\
             nonempty (Safe.arbitrum_address sf) = false.

Definition is_safes_query (e : event) : bool :=
  match e with SafesFindOne _ => true | _ => false end.

Definition is_connect (e : event) : bool :=
  match e with MongoConnect => true | _ => false end.

(** The record agrees with the body that was posted: the same identity,
    address and parsed signal. *)
Definition record_matches_body (r : Simulation.t) (b : Api.body) : Prop :=
  Simulation.twitterId r = Api.username b /\
  Simulation.safeAddress r = Api.safeAddress b /\
  token (Simulation.signalData_of r) = Api.Token_Mentioned b /\
  tp1 (Simulation.signalData_of r) = Api.TP1 b /\
  tp2 (Simulation.signalData_of r) = Api.TP2 b /\
  sl (Simulation.signalData_of r) = Api.SL b /\
  currentPrice (Simulation.signalData_of r) = Api.Current_Price b.

(** The three shapes of the history of one run of the workflow, after the
    lookups [pre]: stopped before the API call; stopped at an API call that
    was rejected; an accepted API call followed by the insertion. *)
Inductive workflow_shape (w : world) (userData : Event.t)
          (pre : list event) : list event -> Prop :=
| shape_aborted :
    workflow_shape w userData pre pre
| shape_api_rejected text twitterId safeAddress now err :
    Event.messageText userData = Some text ->
    resolves (env w) (Event.username userData) twitterId safeAddress ->
    let body := apiBody_of (parseSignalMessage text) now twitterId safeAddress in
    fault (env w) (trace w ++ pre) (SignalApiPost body) = Some err ->
    workflow_shape w userData pre (pre ++ [SignalApiPost body])
| shape_inserted text twitterId safeAddress now r :
    Event.messageText userData = Some text ->
    resolves (env w) (Event.username userData) twitterId safeAddress ->
    let body := apiBody_of (parseSignalMessage text) now twitterId safeAddress in
    fault (env w) (trace w ++ pre) (SignalApiPost body) = None ->
    Simulation.status r = INITIATED ->
    carries_event r userData ->
    record_matches_body r body ->
    Simulation.apiResponse r = signalApi (env w) (trace w ++ pre) body ->
    workflow_shape w userData pre
      (pre ++ [SignalApiPost body; SimulationsInsertOne r]).

(** From a world with a cached connection, [m] never connects again. *)
Definition reuses_connection {A} (m : M A) : Prop :=
  forall w, cachedClient w = true ->
            evolves (fun e => is_connect e = false) (fun _ => True)
              w (snd (m w)).

(** A message the user sees at the end: an edit or a reply. *)
Definition terminal_message (e : event) : bool :=
  match e with
  | EditMessageText _ _ _ | Reply _ => true
  | _ => false
  end.

(** When [m] returns, the last event it added is a terminal message. *)
Definition returns_terminal {A} (m : M A) : Prop :=
  forall w a w', m w = (Return a, w') ->
                 exists h t, trace w' = trace w ++ h ++ [t] /\
                             terminal_message t = true.

(** [m] only extends the history. *)
Definition extends {A} (m : M A) : Prop :=
  forall w, exists evs, trace (snd (m w)) = trace w ++ evs.

(** The chat accepts every reply. *)
Definition replies_accepted (e : environment) : Prop :=
  forall history text, fault e history (Reply text) = None.

(** Every underscore of [s] stands directly after a backslash. *)
Definition underscores_escaped (s : str) : Prop :=
  forall a b, s = a ++ [95%N] ++ b -> exists a', a = a' ++ [92%N].

(** The chat transport accepts every call. *)
Definition transport_reliable (e : environment) : Prop :=
  forall history call, transport_call call = true ->
                       fault e history call = None.

(** A stage of the workflow that comes before the insertion throws [err],
    for an event whose message has the text [text], on an event loop that
    runs [loop] during the waits: the connection to the store is rejected;
    or, once connected, the identity resolution throws; or, once the identity
    is resolved, the API rejects the call. *)
Inductive stage_throws (loop : M unit) (w : world) (userData : Event.t)
          (text : str) (err : error) : Prop :=
| connection_throws :
    cachedClient w = false ->
    fault (env w) (trace w) MongoConnect = Some err ->
    stage_throws loop w userData text err
| resolution_throws :
    fst (dbConnect_on loop w) = Return tt ->
    fst (fetchUserData_on loop (Event.username userData)
           (snd (dbConnect_on loop w)))
    = Throw err ->
    stage_throws loop w userData text err
| api_call_throws (twitterId safeAddress : str) :
    fst (dbConnect_on loop w) = Return tt ->
    fst (fetchUserData_on loop (Event.username userData)
           (snd (dbConnect_on loop w)))
    = Return (twitterId, safeAddress) ->
    (let history :=
       trace (snd (fetchUserData_on loop (Event.username userData)
                     (snd (dbConnect_on loop w)))) in
     fault (env w) history
       (SignalApiPost (apiBody_of (parseSignalMessage text)
                         (clock (env w) history) twitterId safeAddress))
     = Some err) ->
    stage_throws loop w userData text err.

(** [w] with [evs] added to its history. *)
Definition extended (evs : list event) (w : world) : world :=
  {| env := env w;
     cachedClient := cachedClient w;
     trade_simulations := trade_simulations w;
     trace := trace w ++ evs |}.

(** A lookup of the workflow, or a call that satisfies [L]. *)
Definition lookup_or (L : event -> Prop) (e : event) : Prop :=
  lookup_event e \/ L e.

(** [loop] only makes calls, all of which satisfy [L]: it leaves the
    environment, the cached connection and the collection as they are. *)
Definition background (L : event -> Prop) (loop : M unit) : Prop :=
  forall w, exists evs, snd (loop w) = extended evs w /\ Forall L evs.

(** An edit of the message [messageId] into a progress text, in some chat. *)
Definition progress_edit (messageId : Z) (e : event) : Prop :=
  exists chatId r,
    e = EditMessageText chatId messageId (progressMessage (randomDot r)).

(* ===================================================================== *)
(** * Properties *)
(* ===================================================================== *)

(** ** Strings *)

Section StringFacts.

Local Open Scope N_scope.

Lemma startsWith_app (p s : str) : startsWith p (p ++ s) = true.
Proof.
  induction p as [|x p IH]; simpl; [reflexivity|].
  now rewrite N.eqb_refl, IH.
Qed.

Lemma startsWith_inv (p s : str) :
  startsWith p s = true -> exists t, s = p ++ t.
Proof.
  revert s; induction p as [|x p IH]; intros s H; simpl in *.
  - now exists s.
  - destruct s as [|y s]; [discriminate|].
    apply andb_true_iff in H as [Hxy Hps].
    apply N.eqb_eq in Hxy; subst y.
    destruct (IH _ Hps) as [t ->]. now exists t.
Qed.

Lemma skipn_length_app (p s : str) : skipn (length p) (p ++ s) = s.
Proof. induction p; simpl; auto. Qed.

Lemma firstn_length_app (p s : str) :
  firstn (length (p ++ s) - length s) (p ++ s) = p.
Proof.
  rewrite length_app.
  replace (length p + length s - length s)%nat with (length p) by lia.
  induction p; simpl; [now destruct s | now f_equal].
Qed.

Lemma indexOf_eq (s p : str) :
  indexOf s p =
  if startsWith p s then Some 0%nat
  else match s with [] => None | _ :: s' => option_map S (indexOf s' p) end.
Proof. now destruct s. Qed.

Lemma replace_eq (s pat rep : str) :
  replace s pat rep =
  if startsWith pat s then rep ++ skipn (length pat) s
  else match s with [] => [] | c :: s' => c :: replace s' pat rep end.
Proof. now destruct s. Qed.

(** [indexOf] finds an occurrence, and the leftmost one. *)
Lemma indexOf_Some (s p : str) (n : nat) :
  indexOf s p = Some n ->
  exists a b, s = a ++ p ++ b /\ length a = n.
Proof.
  revert n; induction s as [|c s IH]; intros n; simpl.
  - destruct (startsWith p []) eqn:E; [|discriminate].
    intros [= <-]. apply startsWith_inv in E as [t ->]. now exists [], t.
  - destruct (startsWith p (c :: s)) eqn:E.
    + intros [= <-]. apply startsWith_inv in E as [t ->]. now exists [], t.
    + destruct (indexOf s p) as [m|] eqn:Em; [|discriminate].
      simpl. intros [= <-].
      destruct (IH m eq_refl) as (a & b & -> & Hl).
      exists (c :: a), b. simpl. now rewrite Hl.
Qed.

Lemma indexOf_None (a p b : str) : indexOf (a ++ p ++ b) p <> None.
Proof.
  induction a as [|c a IH]; simpl.
  - rewrite indexOf_eq, startsWith_app; discriminate.
  - destruct (startsWith p (c :: a ++ p ++ b)); [discriminate|].
    destruct (indexOf (a ++ p ++ b) p); [discriminate | contradiction].
Qed.

Lemma includes_iff (s p : str) :
  includes s p = true <-> exists a b, s = a ++ p ++ b.
Proof.
  unfold includes; split.
  - destruct (indexOf s p) as [n|] eqn:E; [|discriminate].
    intros _. destruct (indexOf_Some _ _ E) as (a & b & H & _). eauto.
  - intros (a & b & ->).
    destruct (indexOf (a ++ p ++ b) p) eqn:E; [reflexivity|].
    now apply indexOf_None in E.
Qed.

Lemma includes_false (s p : str) : includes s p = false -> indexOf s p = None.
Proof. unfold includes. now destruct (indexOf s p). Qed.

(** [replace] removes the leftmost occurrence, and nothing when there is
    none. *)
Lemma replace_absent (s pat rep : str) :
  indexOf s pat = None -> replace s pat rep = s.
Proof.
  induction s as [|c s IH]; simpl.
  - now destruct (startsWith pat []).
  - destruct (startsWith pat (c :: s)); [discriminate|].
    destruct (indexOf s pat); [discriminate|].
    intros _. now rewrite IH.
Qed.

Lemma replace_first (a pat b rep : str) :
  indexOf (a ++ pat ++ b) pat = Some (length a) ->
  replace (a ++ pat ++ b) pat rep = a ++ rep ++ b.
Proof.
  induction a as [|c a IH]; simpl.
  - intros _. now rewrite replace_eq, startsWith_app, skipn_length_app.
  - destruct (startsWith pat (c :: a ++ pat ++ b)); [discriminate|].
    destruct (indexOf (a ++ pat ++ b) pat) as [m|] eqn:E; [|discriminate].
    simpl. intros [= ->]. now rewrite IH.
Qed.

End StringFacts.

(** ** The regular-expression engine *)

Section RegexFacts.

Local Open Scope N_scope.

Lemma star_eq (p : N -> bool) (s : str) (caps : list str) (k : cont) :
  bt (Star p) s caps k = star p s caps k.
Proof. reflexivity. Qed.

(** The greedy path: when the class holds on all of [xs] and stops there,
    and the rest of the pattern succeeds from that point, that is the match
    found. *)
Lemma bt_star_greedy (p : N -> bool) (xs rest : str) caps (k : cont) res :
  forallb p xs = true -> stops p rest = true ->
  k rest caps = Some res ->
  bt (Star p) (xs ++ rest) caps k = Some res.
Proof.
  intros Hxs Hstop Hk. simpl bt.
  induction xs as [|x xs IH]; simpl in *.
  - destruct rest as [|c rest]; simpl in *; [assumption|].
    apply negb_true_iff in Hstop. now rewrite Hstop.
  - apply andb_true_iff in Hxs as [Hx Hxs].
    now rewrite Hx, (IH Hxs).
Qed.

Lemma bt_lit (l s : str) caps (k : cont) :
  bt (Lit l) (l ++ s) caps k = k s caps.
Proof. simpl. now rewrite startsWith_app, skipn_length_app. Qed.

Lemma bt_lit_miss (l s : str) (r : regex) caps (k : cont) :
  startsWith l s = false -> bt (Seq (Lit l) r) s caps k = None.
Proof. intros H. simpl. now rewrite H. Qed.

Lemma bt_opt_skip (l s : str) caps (k : cont) :
  startsWith l s = false -> bt (Opt (Lit l)) s caps k = k s caps.
Proof. intros H. simpl. now rewrite H. Qed.

Lemma bt_opt_take (l s : str) caps (k : cont) res :
  k s caps = Some res -> bt (Opt (Lit l)) (l ++ s) caps k = Some res.
Proof.
  intros H. change (bt (Opt (Lit l)) (l ++ s) caps k)
    with (match bt (Lit l) (l ++ s) caps k with
          | Some r => Some r | None => k (l ++ s) caps end).
  now rewrite bt_lit, H.
Qed.

(** [exec] tries the start positions from the left; a pattern that begins
    with a literal can only match where the literal occurs. *)
Lemma exec_eq (r : regex) (s : str) :
  exec r s =
  match bt r s [] accept with
  | Some caps => Some caps
  | None => match s with [] => None | _ :: s' => exec r s' end
  end.
Proof. now destruct s. Qed.

Lemma exec_absent (l : str) (r : regex) (s : str) :
  indexOf s l = None -> exec (Seq (Lit l) r) s = None.
Proof.
  induction s as [|c s IH]; simpl.
  - now destruct (startsWith l []).
  - destruct (startsWith l (c :: s)); [discriminate|].
    destruct (indexOf s l); [discriminate|]. intros _. now apply IH.
Qed.

Lemma exec_leftmost (l : str) (r : regex) (pre s : str) caps :
  indexOf (pre ++ s) l = Some (length pre) ->
  bt (Seq (Lit l) r) s [] accept = Some caps ->
  exec (Seq (Lit l) r) (pre ++ s) = Some caps.
Proof.
  intros Hi Hm. induction pre as [|c pre IH]; simpl app in *.
  - now rewrite exec_eq, Hm.
  - rewrite exec_eq. rewrite indexOf_eq in Hi.
    destruct (startsWith l (c :: pre ++ s)) eqn:E; [discriminate|].
    rewrite bt_lit_miss by assumption.
    destruct (indexOf (pre ++ s) l) as [m|]; [|discriminate].
    simpl in Hi. injection Hi as ->. now apply IH.
Qed.

Lemma span_spec (p : N -> bool) (s a b : str) :
  span p s = (a, b) ->
  s = a ++ b /\ forallb p a = true /\ stops p b = true.
Proof.
  revert a b; induction s as [|c s IH]; intros a b; simpl.
  - now intros [= <- <-].
  - destruct (p c) eqn:Hc.
    + destruct (span p s) as [a' b'] eqn:E. intros [= <- <-].
      destruct (IH _ _ eq_refl) as (-> & Ha & Hb).
      simpl. now rewrite Hc, Ha.
    + intros [= <- <-]. simpl. now rewrite Hc.
Qed.

Lemma digit_bounds (c : N) : digit c = true <-> 48 <= c <= 57.
Proof. unfold digit. rewrite andb_true_iff, !N.leb_le. tauto. Qed.

Lemma upper_bounds (c : N) : upper c = true <-> 65 <= c <= 90.
Proof. unfold upper. rewrite andb_true_iff, !N.leb_le. tauto. Qed.

Lemma space_cases (c : N) :
  space c = true ->
  c <= 32 \/ 160 <= c.
Proof.
  unfold space. rewrite !orb_true_iff, !andb_true_iff, !N.leb_le, !N.eqb_eq.
  lia.
Qed.

Lemma digit_not_space (c : N) : digit c = true -> space c = false.
Proof.
  intros H%digit_bounds. destruct (space c) eqn:E; [|reflexivity].
  apply space_cases in E. lia.
Qed.

Lemma upper_not_space (c : N) : upper c = true -> space c = false.
Proof.
  intros H%upper_bounds. destruct (space c) eqn:E; [|reflexivity].
  apply space_cases in E. lia.
Qed.

Lemma space_not_upper (c : N) : space c = true -> upper c = false.
Proof.
  intros H. destruct (upper c) eqn:E; [|reflexivity].
  apply upper_not_space in E. congruence.
Qed.

Lemma digit_not_dollar (c : N) (s : str) :
  digit c = true -> startsWith (js "$") (c :: s) = false.
Proof.
  intros H%digit_bounds.
  change (startsWith (js "$") (c :: s)) with ((36 =? c) && true).
  destruct (N.eqb_spec 36 c); [lia | reflexivity].
Qed.

Lemma stops_point (rest : str) :
  stops (N.eqb 46) rest = true -> startsWith (js ".") rest = false.
Proof.
  destruct rest as [|c rest]; [reflexivity|].
  change (startsWith (js ".") (c :: rest)) with ((46 =? c) && true).
  simpl. intros H%negb_true_iff. now rewrite H.
Qed.

End RegexFacts.

(** ** The signal parser *)

Section ParserFacts.

Local Open Scope N_scope.

Lemma bt_group_eq (r : regex) (s : str) caps (k : cont) :
  bt (Group r) s caps k =
  bt r s caps
    (fun s' caps' => k s' (caps' ++ [firstn (length s - length s') s])).
Proof. reflexivity. Qed.

Lemma bt_seq_eq (r1 r2 : regex) (s : str) caps (k : cont) :
  bt (Seq r1 r2) s caps k = bt r1 s caps (fun s' caps' => bt r2 s' caps' k).
Proof. reflexivity. Qed.

Lemma bt_cls (p : N -> bool) (c : N) (s : str) caps (k : cont) :
  p c = true -> bt (Cls p) (c :: s) caps k = k s caps.
Proof. intros H. simpl. now rewrite H. Qed.

Lemma numeral_split (n rest : str) :
  numeral n = true -> numeral_ends n rest = true ->
  exists d ip fr,
    n = d :: ip ++ fr /\ digit d = true /\ forallb digit ip = true /\
    stops digit rest = true /\
    ((fr = [] /\ stops (N.eqb 46) rest = true) \/
     (exists fp, fr = js "." ++ fp /\ forallb digit fp = true)).
Proof.
  unfold numeral, numeral_ends.
  destruct (span digit n) as [ip r] eqn:E.
  apply span_spec in E as (-> & Hip & Hr).
  destruct ip as [|d ip]; [discriminate|].
  simpl in Hip. apply andb_true_iff in Hip as [Hd Hip].
  intros Hn He. apply andb_true_iff in He as [He1 He2].
  exists d, ip, r. repeat split; auto.
  simpl snd in He2. destruct r as [|c fp].
  - now left.
  - right. apply andb_true_iff in Hn as [Hc Hfp].
    apply N.eqb_eq in Hc; subst c. now exists fp.
Qed.

(** A group captures what its body takes on the greedy path. *)
Lemma bt_group_take (r : regex) (x rest : str) caps (k : cont) res :
  (forall kg : cont, kg rest caps = Some res ->
                     bt r (x ++ rest) caps kg = Some res) ->
  k rest (caps ++ [x]) = Some res ->
  bt (Group r) (x ++ rest) caps k = Some res.
Proof.
  intros H Hk. rewrite bt_group_eq. apply H.
  cbv beta. now rewrite firstn_length_app.
Qed.

Lemma bt_plus_greedy (p : N -> bool) (c : N) (xs rest : str) caps
      (k : cont) res :
  p c = true -> forallb p xs = true -> stops p rest = true ->
  k rest caps = Some res ->
  bt (Plus p) ((c :: xs) ++ rest) caps k = Some res.
Proof.
  intros Hc Hxs Hstop Hk. unfold Plus. rewrite bt_seq_eq. simpl app.
  rewrite bt_cls by assumption. now apply bt_star_greedy.
Qed.

(** The numeral group captures exactly the numeral. *)
Lemma bt_numeral (n rest : str) caps (k : cont) res :
  numeral n = true -> numeral_ends n rest = true ->
  k rest (caps ++ [n]) = Some res ->
  bt (Group (Seq (Plus digit) (Seq (Opt (Lit (js "."))) (Star digit))))
    (n ++ rest) caps k = Some res.
Proof.
  intros Hn He Hk.
  destruct (numeral_split _ _ Hn He)
    as (d & ip & fr & Hsplit & Hd & Hip & Hstop & Hfr).
  apply bt_group_take; [|assumption].
  intros kg Hkg. subst n. clear Hn He Hk.
  rewrite bt_seq_eq.
  replace ((d :: ip ++ fr) ++ rest) with ((d :: ip) ++ fr ++ rest)
    by (simpl; now rewrite app_assoc).
  destruct Hfr as [[-> Hpt] | (fp & -> & Hfp)].
  - apply bt_plus_greedy; auto.
    rewrite bt_seq_eq, bt_opt_skip by now apply stops_point.
    now apply (bt_star_greedy digit [] rest).
  - apply bt_plus_greedy; auto.
    rewrite bt_seq_eq, <- app_assoc. apply bt_opt_take.
    now apply bt_star_greedy.
Qed.

Lemma bt_price_tail (ws dollar n rest : str) :
  forallb space ws = true -> (dollar = [] \/ dollar = js "$") ->
  numeral n = true -> numeral_ends n rest = true ->
  bt price_tail (ws ++ dollar ++ n ++ rest) [] accept = Some [n].
Proof.
  intros Hws Hdollar Hn He. unfold price_tail. rewrite bt_seq_eq.
  destruct (numeral_split _ _ Hn He) as (d & ip & fr & Hsplit & Hd & _).
  apply bt_star_greedy; auto.
  - destruct Hdollar as [-> | ->]; [|reflexivity].
    rewrite Hsplit. simpl. now rewrite digit_not_space.
  - rewrite bt_seq_eq. destruct Hdollar as [-> | ->].
    + simpl app at 1. rewrite bt_opt_skip.
      * now apply bt_numeral.
      * rewrite Hsplit. now apply digit_not_dollar.
    + apply bt_opt_take. now apply bt_numeral.
Qed.

Lemma bt_token_tail (ws1 tok ws2 rest : str) :
  forallb space ws1 = true -> forallb space ws2 = true ->
  tok <> [] -> forallb upper tok = true ->
  bt (Seq (Star space)
        (Seq (Group (Plus upper)) (Seq (Star space) (Lit (js "(")))))
    (ws1 ++ tok ++ ws2 ++ js "(" ++ rest) [] accept = Some [tok].
Proof.
  intros Hws1 Hws2 Hne Hup.
  destruct tok as [|t tok]; [contradiction|]. simpl in Hup.
  apply andb_true_iff in Hup as [Ht Hup].
  rewrite bt_seq_eq. apply bt_star_greedy; auto.
  { simpl. now rewrite upper_not_space. }
  rewrite bt_seq_eq. apply bt_group_take.
  - intros kg Hkg. apply bt_plus_greedy; auto.
    destruct ws2 as [|w ws2]; [reflexivity|]. simpl in Hws2 |- *.
    apply andb_true_iff in Hws2 as [Hw _]. now rewrite space_not_upper.
  - rewrite bt_seq_eq. apply bt_star_greedy; auto.
Qed.

(** Each field, on its own: found where its label first occurs, absent
    where the label does not occur. *)
Lemma match1_price (label n msg : str) :
  price_at label n msg -> match1 msg (re_price label) = Some n.
Proof.
  intros (pre & ws & dollar & rest & -> & Hi & Hws & Hd & Hn & He).
  unfold match1, re_price.
  rewrite (@exec_leftmost label price_tail pre _ [n]); auto.
  rewrite bt_seq_eq, bt_lit. now apply bt_price_tail.
Qed.

Lemma match1_token (tok msg : str) :
  token_at tok msg -> match1 msg re_token = Some tok.
Proof.
  intros (pre & ws1 & ws2 & rest & -> & Hi & Hws1 & Hws2 & Hne & Hup).
  unfold match1, re_token.
  rewrite (@exec_leftmost TOKEN_LABEL _ pre _ [tok]); auto.
  rewrite bt_seq_eq, bt_lit. now apply bt_token_tail.
Qed.

Lemma match1_absent (label : str) (r : regex) (msg : str) :
  includes msg label = false -> match1 msg (Seq (Lit label) r) = None.
Proof.
  intros H%includes_false. unfold match1. now rewrite exec_absent.
Qed.

End ParserFacts.

Section PureClaims.

Local Open Scope N_scope.

(** C1, as the spec states it, fails: bold markers around a label break
    the match.  The test signal of the server, as it is sent, wraps "Token",
    "Entry Price" and "Stop Loss" in bold markers; the parser finds none of
    the three in that text (it finds them in the rendered text only). *)
Lemma parse_bold_labels_lost :
  includes testSignalMessage (js "🏛️ **Token**: PEPE (pepe)") = true /\
  includes testSignalMessage (js "💰 **Entry Price**: $0.003") = true /\
  includes testSignalMessage (js "🛑 **Stop Loss**: $0.0028") = true /\
  parseSignalMessage testSignalMessage =
  {| token := None;
     tp1 := Some (Num 0.0034);
     tp2 := Some (Num 0.0036);
     sl := None;
     entryPrice := None |}.
Proof. repeat split; vm_compute; reflexivity. Qed.

(** C1 (amended): every field is recovered from a message in which the
    leftmost occurrence of its label marker, written contiguously, is
    followed by optional white space, an optional dollar sign and the value
    (an upper-case run before an opening parenthesis for the token, an
    unsigned decimal numeral for a price), whatever text surrounds it; a
    field whose label does not occur is null; the parser is a total function;
    and scenario A's text yields tp1 11.37, sl 8.37, entryPrice 9.37. *)
Theorem parseSignalMessage_fields :
  (forall msg tok, token_at tok msg ->
     token (parseSignalMessage msg) = Some tok) /\
  (forall msg n, price_at TP1_LABEL n msg ->
     tp1 (parseSignalMessage msg) = Some (parseFloat n)) /\
  (forall msg n, price_at TP2_LABEL n msg ->
     tp2 (parseSignalMessage msg) = Some (parseFloat n)) /\
  (forall msg n, price_at SL_LABEL n msg ->
     sl (parseSignalMessage msg) = Some (parseFloat n)) /\
  (forall msg n, price_at ENTRY_LABEL n msg ->
     entryPrice (parseSignalMessage msg) = Some (parseFloat n)) /\
  (forall msg, includes msg TOKEN_LABEL = false ->
     token (parseSignalMessage msg) = None) /\
  (forall msg, includes msg TP1_LABEL = false ->
     tp1 (parseSignalMessage msg) = None) /\
  (forall msg, includes msg TP2_LABEL = false ->
     tp2 (parseSignalMessage msg) = None) /\
  (forall msg, includes msg SL_LABEL = false ->
     sl (parseSignalMessage msg) = None) /\
  (forall msg, includes msg ENTRY_LABEL = false ->
     entryPrice (parseSignalMessage msg) = None) /\
  parseSignalMessage scenarioA =
  {| token := None;
     tp1 := Some (Num 11.37);
     tp2 := None;
     sl := Some (Num 8.37);
     entryPrice := Some (Num 9.37) |}.
Proof.
  repeat split; intros; simpl;
    try (now apply match1_token);
    try (erewrite match1_price by eassumption; reflexivity);
    try (unfold re_token, re_price; now rewrite match1_absent).
Qed.

Lemma parseSignalMessage_fields_witness :
  token_at (js "PEPE") renderedSignal /\
  price_at TP1_LABEL (js "0.0034") renderedSignal /\
  price_at ENTRY_LABEL (js "0.003") renderedSignal /\
  includes scenarioA TP2_LABEL = false /\
  token (parseSignalMessage renderedSignal) = Some (js "PEPE") /\
  tp1 (parseSignalMessage renderedSignal) = Some (Num 0.0034) /\
  entryPrice (parseSignalMessage renderedSignal) = Some (Num 0.003) /\
  tp2 (parseSignalMessage scenarioA) = None.
Proof.
  assert (Ht : token_at (js "PEPE") renderedSignal).
  { exists (js "🚀 Bullish Alert 🚀" ++ LF ++ LF), (js " "), (js " "),
      (skipn 38 renderedSignal).
    repeat split; try (vm_compute; reflexivity). discriminate. }
  assert (H1 : price_at TP1_LABEL (js "0.0034") renderedSignal).
  { exists (firstn 94 renderedSignal), (js " "), (js "$"),
      (skipn 106 renderedSignal).
    repeat split; try (vm_compute; reflexivity). now right. }
  assert (He : price_at ENTRY_LABEL (js "0.003") renderedSignal).
  { exists (firstn 59 renderedSignal), (js " "), (js "$"),
      (skipn 81 renderedSignal).
    repeat split; try (vm_compute; reflexivity). now right. }
  assert (H2 : includes scenarioA TP2_LABEL = false)
    by (vm_compute; reflexivity).
  destruct parseSignalMessage_fields
    as (Ftok & Ftp1 & _ & _ & Fentry & _ & _ & Ftp2 & _).
  exact (conj Ht (conj H1 (conj He (conj H2
    (conj (Ftok _ _ Ht) (conj (Ftp1 _ _ H1)
       (conj (Fentry _ _ He) (Ftp2 _ H2)))))))).
Defined.

(** C3: the classifier answers true exactly on the texts that contain one
    of the two fixed marker phrases ([BULLISH_ALERT], the rocket-framed bold
    "Bullish Alert", and [SIGNAL_BUY], the chart-marked bold "Signal" with
    ": Buy"), and false on every other text; as a function it is total and
    deterministic, and the match is case-sensitive (the lower-case phrase is
    not recognised). *)
Theorem isBullishSignal_iff (text : str) :
  (isBullishSignal text = true <->
   (exists a b, text = a ++ BULLISH_ALERT ++ b) \/
   (exists a b, text = a ++ SIGNAL_BUY ++ b)) /\
  (isBullishSignal text = false <->
   ~ ((exists a b, text = a ++ BULLISH_ALERT ++ b) \/
      (exists a b, text = a ++ SIGNAL_BUY ++ b))) /\
  isBullishSignal (js "🚀 **bullish alert** 🚀") = false.
Proof.
  assert (Hiff : isBullishSignal text = true <->
            (exists a b, text = a ++ BULLISH_ALERT ++ b) \/
            (exists a b, text = a ++ SIGNAL_BUY ++ b)).
  { unfold isBullishSignal. now rewrite orb_true_iff, !includes_iff. }
  split; [exact Hiff | split; [|vm_compute; reflexivity]].
  rewrite <- Hiff. destruct (isBullishSignal text); split; congruence.
Qed.

(** C5, as the spec states it, fails: an at-sign that is not leading is
    removed as well. *)
Lemma cleanUsername_inner_at :
  startsWith (js "@") (js "al@ice") = false /\
  cleanUsername (js "al@ice") = js "alice" /\
  cleanUsername (js "al@ice") <> js "al@ice".
Proof. repeat split; try (vm_compute; reflexivity). vm_compute. discriminate. Qed.

Lemma indexOf_unit (c : N) (a b : str) :
  includes a [c] = false ->
  indexOf (a ++ [c] ++ b) [c] = Some (length a).
Proof.
  intros H%includes_false. change ([c] ++ b) with (c :: b).
  induction a as [|x a IH].
  - simpl. now rewrite N.eqb_refl.
  - rewrite indexOf_eq in H. simpl app. rewrite indexOf_eq.
    simpl startsWith in *. rewrite andb_true_r in *.
    destruct (c =? x); [discriminate|].
    destruct (indexOf a [c]); [discriminate|]. now rewrite IH.
Qed.

(** C5 (amended): normalization removes the leftmost at-sign of the
    username, wherever it stands: a leading at-sign is stripped, and so is
    an at-sign further in when none precedes it; a username without any
    at-sign is passed through unchanged. *)
Theorem cleanUsername_spec (username : str) :
  (forall t, username = js "@" ++ t -> cleanUsername username = t) /\
  (forall a b, username = a ++ js "@" ++ b -> includes a (js "@") = false ->
     cleanUsername username = a ++ b) /\
  (includes username (js "@") = false -> cleanUsername username = username).
Proof.
  assert (Hmid : forall a b, username = a ++ js "@" ++ b ->
            includes a (js "@") = false -> cleanUsername username = a ++ b).
  { intros a b -> Ha. unfold cleanUsername.
    now rewrite replace_first by now apply indexOf_unit. }
  repeat split.
  - intros t ->. now apply (Hmid [] t).
  - exact Hmid.
  - intros H%includes_false. now apply replace_absent.
Qed.

Lemma cleanUsername_spec_witness :
  cleanUsername (js "@alice") = js "alice" /\
  cleanUsername (js "al@i@ce") = js "al" ++ js "i@ce" /\
  cleanUsername (js "alice") = js "alice".
Proof.
  refine (conj (proj1 (cleanUsername_spec (js "@alice")) (js "alice") _)
           (conj (proj1 (proj2 (cleanUsername_spec (js "al@i@ce")))
                    (js "al") (js "i@ce") _ _)
              (proj2 (proj2 (cleanUsername_spec (js "alice"))) _)));
    vm_compute; reflexivity.
Defined.

(** C6, as the spec states it, fails: a parsed entry price of 0 is present
    but is not the estimate; the mean of tp1 and stop loss is. *)
Lemma currentPrice_zero_entry :
  let sd := parseSignalMessage
              (js "TP1: $11.37 🛑 Stop Loss: $8.37 💰 Entry Price: $0") in
  entryPrice sd = Some (Num 0) /\
  currentPrice sd <> entryPrice sd /\
  currentPrice sd = Some (div (add (Num 11.37) (Num 8.37)) (Num 2)).
Proof.
  repeat split; try (vm_compute; reflexivity).
  vm_compute. discriminate.
Qed.

(** C6 (amended): the estimate is the parsed entry price when that is
    present and not zero; otherwise it is the mean of tp1 and stop loss when
    both are present and not zero; otherwise it is null. *)
Theorem currentPrice_spec (sd : signalData) :
  (forall e, entryPrice sd = Some (Num e) -> ~ (e == 0)%Q ->
     currentPrice sd = Some (Num e)) /\
  (forall a b, truthy (entryPrice sd) = false ->
     tp1 sd = Some (Num a) -> sl sd = Some (Num b) ->
     ~ (a == 0)%Q -> ~ (b == 0)%Q ->
     currentPrice sd = Some (Num ((a + b) / 2))) /\
  (truthy (entryPrice sd) = false ->
   truthy (tp1 sd) = false \/ truthy (sl sd) = false ->
   currentPrice sd = None).
Proof.
  assert (Hnz : forall q, ~ (q == 0)%Q -> negb (Qeq_bool q 0) = true).
  { intros q Hq. apply negb_true_iff.
    destruct (Qeq_bool q 0) eqn:E; [|reflexivity].
    now apply Qeq_bool_eq in E. }
  unfold currentPrice. repeat split.
  - intros e -> He. simpl. now rewrite Hnz.
  - intros a b -> -> -> Ha Hb. simpl. now rewrite !Hnz.
  - intros -> [-> | ->]; [reflexivity | now rewrite andb_false_r].
Qed.

Lemma currentPrice_spec_witness :
  currentPrice {| token := None; tp1 := None; tp2 := None; sl := None;
                  entryPrice := Some (Num 9.37) |} = Some (Num 9.37) /\
  currentPrice {| token := None; tp1 := Some (Num 11); tp2 := None;
                  sl := Some (Num 8); entryPrice := None |}
  = Some (Num ((11 + 8) / 2)) /\
  currentPrice {| token := None; tp1 := Some (Num 11); tp2 := None;
                  sl := Some (Num 0); entryPrice := Some (Num 0) |} = None.
Proof.
  refine (conj
    (proj1 (currentPrice_spec
       {| token := None; tp1 := None; tp2 := None; sl := None;
          entryPrice := Some (Num 9.37) |}) 9.37%Q eq_refl _)
    (conj
       (proj1 (proj2 (currentPrice_spec
          {| token := None; tp1 := Some (Num 11); tp2 := None;
             sl := Some (Num 8); entryPrice := None |})) 11%Q 8%Q
          eq_refl eq_refl eq_refl _ _)
       (proj2 (proj2 (currentPrice_spec
          {| token := None; tp1 := Some (Num 11); tp2 := None;
             sl := Some (Num 0); entryPrice := Some (Num 0) |}))
          eq_refl (or_intror eq_refl))));
    intros H; vm_compute in H; discriminate.
Defined.

End PureClaims.

(** ** Runs: what every computation of the service preserves *)

Section Evolution.

Variable Pev : event -> Prop.
Variable Prec : Simulation.t -> Prop.

Local Open Scope js_scope.

Lemma evolves_refl (w : world) : evolves Pev Prec w w.
Proof.
  repeat split; auto.
  - exists []. now rewrite app_nil_r.
  - exists []. now rewrite app_nil_r.
Qed.

Lemma evolves_trans (w1 w2 w3 : world) :
  evolves Pev Prec w1 w2 -> evolves Pev Prec w2 w3 -> evolves Pev Prec w1 w3.
Proof.
  intros (He1 & (ev1 & Ht1 & Hp1) & (r1 & Hs1 & Hr1) & Hc1)
         (He2 & (ev2 & Ht2 & Hp2) & (r2 & Hs2 & Hr2) & Hc2).
  repeat split.
  - congruence.
  - exists (ev1 ++ ev2). rewrite Ht2, Ht1, app_assoc.
    split; [reflexivity | now apply Forall_app].
  - exists (r1 ++ r2). rewrite Hs2, Hs1, app_assoc.
    split; [reflexivity | now apply Forall_app].
  - auto.
Qed.

Lemma evolves_logged (e : event) (w : world) :
  Pev e -> evolves Pev Prec w (logged e w).
Proof.
  intros He. repeat split; auto.
  - exists [e]. split; [reflexivity | now constructor].
  - exists []. simpl. now rewrite app_nil_r.
Qed.

Lemma stable_ret {A} (a : A) : stable (evolves Pev Prec) (ret a).
Proof. intros w. apply evolves_refl. Qed.

Lemma stable_throw {A} (e : error) : stable (evolves Pev Prec) (@throw A e).
Proof. intros w. apply evolves_refl. Qed.

Lemma stable_bind {A B} (m : M A) (f : A -> M B) :
  stable (evolves Pev Prec) m ->
  (forall a, stable (evolves Pev Prec) (f a)) ->
  stable (evolves Pev Prec) (bind m f).
Proof.
  intros Hm Hf w. unfold bind. specialize (Hm w).
  destruct (m w) as [[a|e] w']; simpl in *; [|assumption].
  eapply evolves_trans; [eassumption | apply Hf].
Qed.

Lemma stable_catch {A} (m : M A) (h : error -> M A) :
  stable (evolves Pev Prec) m ->
  (forall e, stable (evolves Pev Prec) (h e)) ->
  stable (evolves Pev Prec) (catch m h).
Proof.
  intros Hm Hh w. unfold catch. specialize (Hm w).
  destruct (m w) as [[a|e] w']; simpl in *; [assumption|].
  eapply evolves_trans; [eassumption | apply Hh].
Qed.

Lemma stable_await {A} (e : event) (answer : world -> A) :
  Pev e -> stable (evolves Pev Prec) (await e answer).
Proof.
  intros He w. unfold await.
  destruct (fault (env w) (trace w) e); now apply evolves_logged.
Qed.

Lemma stable_emit (e : event) : Pev e -> stable (evolves Pev Prec) (emit e).
Proof. intros He w. now apply evolves_logged. Qed.

Lemma stable_Date_now : stable (evolves Pev Prec) Date_now.
Proof. intros w. apply evolves_refl. Qed.

Lemma stable_dbConnect :
  Pev MongoConnect -> stable (evolves Pev Prec) dbConnect.
Proof.
  intros He w. unfold dbConnect.
  destruct (cachedClient w) eqn:Hc; [apply evolves_refl|].
  unfold catch, bind, await, rethrow, throw.
  destruct (fault (env w) (trace w) MongoConnect); simpl.
  - now apply evolves_logged.
  - repeat split; simpl; auto.
    + exists [MongoConnect]. split; [reflexivity | now constructor].
    + exists []. now rewrite app_nil_r.
Qed.

Lemma stable_insertOne (r : Simulation.t) :
  Pev (SimulationsInsertOne r) -> Prec r ->
  stable (evolves Pev Prec) (insertOne r).
Proof.
  intros He Hr w. unfold insertOne, bind, await.
  destruct (fault (env w) (trace w) (SimulationsInsertOne r)); simpl.
  - now apply evolves_logged.
  - repeat split; simpl; auto.
    + exists [SimulationsInsertOne r]. split; [reflexivity | now constructor].
    + exists [r]. split; [reflexivity | now constructor].
Qed.

(** The same on an event loop that runs [loop] during the waits. *)

Lemma stable_await_on {A} (loop : M unit) (e : event) (answer : world -> A) :
  stable (evolves Pev Prec) loop -> Pev e ->
  stable (evolves Pev Prec) (await_on loop e answer).
Proof.
  intros Hl He w. unfold await_on. cbv zeta.
  assert (H0 : evolves Pev Prec w (logged e w)) by now apply evolves_logged.
  assert (H : evolves Pev Prec w (snd (loop (logged e w))))
    by (eapply evolves_trans; [exact H0 | apply Hl]).
  now destruct (fault (env w) (trace w) e).
Qed.

Lemma stable_dbConnect_on (loop : M unit) :
  stable (evolves Pev Prec) loop -> Pev MongoConnect ->
  stable (evolves Pev Prec) (dbConnect_on loop).
Proof.
  intros Hl He w. unfold dbConnect_on.
  destruct (cachedClient w) eqn:Hc; [apply evolves_refl|].
  pose proof (stable_await_on (fun _ => tt) Hl He w) as H.
  unfold catch, bind, rethrow, throw.
  destruct (await_on loop MongoConnect (fun _ => tt) w) as [[[]|e] w1];
    cbn [snd] in *; [|assumption].
  destruct H as (H1 & H2 & H3 & H4). now repeat split.
Qed.

Lemma stable_insertOne_on (loop : M unit) (r : Simulation.t) :
  stable (evolves Pev Prec) loop ->
  Pev (SimulationsInsertOne r) -> Prec r ->
  stable (evolves Pev Prec) (insertOne_on loop r).
Proof.
  intros Hl He Hr w. unfold insertOne_on, bind.
  pose proof (stable_await_on (fun _ => tt) Hl He w) as H.
  destruct (await_on loop (SimulationsInsertOne r) (fun _ => tt) w)
    as [[[]|e] w1]; cbn [snd] in *; [|assumption].
  destruct H as (H1 & H2 & (recs & H3 & H3') & H4).
  repeat split; auto. exists (recs ++ [r]). cbn.
  rewrite H3, <- app_assoc. split; [reflexivity|].
  apply Forall_app. split; [assumption | now constructor].
Qed.

Lemma stable_fires (n : nat) (callback : M unit) :
  stable (evolves Pev Prec) callback ->
  stable (evolves Pev Prec) (fires n callback).
Proof.
  intros H. induction n as [|n IH]; cbn [fires].
  - apply stable_ret.
  - now apply stable_bind.
Qed.

End Evolution.

Ltac stable_step :=
  match goal with
  | |- stable _ (bind _ _) => apply stable_bind; [|intros ?]
  | |- stable _ (catch _ _) => apply stable_catch; [|intros ?]
  | |- stable _ (ret _) => apply stable_ret
  | |- stable _ (throw _) => apply stable_throw
  | |- stable _ (rethrow _) => apply stable_throw
  | |- stable _ (await _ _) => apply stable_await
  | |- stable _ (emit _) => apply stable_emit
  | |- stable _ Date_now => apply stable_Date_now
  | |- stable _ dbConnect => apply stable_dbConnect
  | |- stable _ (insertOne _) => apply stable_insertOne
  | |- stable _ (await_on _ _ _) => apply stable_await_on
  | |- stable _ (dbConnect_on _) => apply stable_dbConnect_on
  | |- stable _ (insertOne_on _ _) => apply stable_insertOne_on
  | |- stable _ (match ?x with _ => _ end) => destruct x
  | |- stable _ (let _ := _ in _) => cbv zeta
  end.

Section ServiceEvolution.

Variable Pev : event -> Prop.
Variable Prec : Simulation.t -> Prop.

Hypothesis workflow_allowed : forall e, workflow_call e = true -> Pev e.

Lemma stable_findChatIdByUsername (username : str) :
  stable (evolves Pev Prec) (findChatIdByUsername username).
Proof. unfold findChatIdByUsername. repeat stable_step; auto. Qed.

Lemma stable_fetchUserData (telegramUsername : option str) :
  stable (evolves Pev Prec) (fetchUserData telegramUsername).
Proof. unfold fetchUserData. repeat stable_step; auto. Qed.

Lemma stable_simulateTrade (sd : signalData) (username safeAddress : str) :
  stable (evolves Pev Prec) (simulateTrade sd username safeAddress).
Proof. unfold simulateTrade. repeat stable_step; auto. Qed.

Hypothesis initiated_allowed :
  forall r, Simulation.status r = INITIATED -> Prec r.

Lemma stable_handleSimulateTradeRequest (userData : Event.t) :
  stable (evolves Pev Prec) (handleSimulateTradeRequest userData).
Proof.
  unfold handleSimulateTradeRequest.
  repeat (stable_step
          || apply stable_fetchUserData || apply stable_simulateTrade); auto.
Qed.

Lemma stable_fetchUserData_on (loop : M unit) (telegramUsername : option str) :
  stable (evolves Pev Prec) loop ->
  stable (evolves Pev Prec) (fetchUserData_on loop telegramUsername).
Proof. intros Hl. unfold fetchUserData_on. repeat stable_step; auto. Qed.

Lemma stable_simulateTrade_on (loop : M unit) (sd : signalData)
      (username safeAddress : str) :
  stable (evolves Pev Prec) loop ->
  stable (evolves Pev Prec) (simulateTrade_on loop sd username safeAddress).
Proof. intros Hl. unfold simulateTrade_on. repeat stable_step; auto. Qed.

Lemma stable_handleSimulateTradeRequest_on (loop : M unit) (userData : Event.t) :
  stable (evolves Pev Prec) loop ->
  stable (evolves Pev Prec) (handleSimulateTradeRequest_on loop userData).
Proof.
  intros Hl. unfold handleSimulateTradeRequest_on.
  repeat (stable_step
          || apply stable_fetchUserData_on || apply stable_simulateTrade_on);
    auto.
Qed.

Hypothesis transport_allowed : forall e, transport_call e = true -> Pev e.

Lemma stable_sendMessage (username message : str) :
  stable (evolves Pev Prec) (sendMessage username message).
Proof.
  unfold sendMessage.
  repeat (stable_step || apply stable_findChatIdByUsername); auto.
Qed.

Lemma stable_progressInterval (ctx : Tg.context) (processingMessage : Z) :
  stable (evolves Pev Prec) (progressInterval ctx processingMessage).
Proof.
  intros w. unfold progressInterval. apply stable_fires.
  unfold progressCallback, chat_id_of, Math_random.
  repeat stable_step; auto. intros w'. apply evolves_refl.
Qed.

Hypothesis timer_allowed : Pev SetInterval /\ Pev ClearInterval.

Lemma stable_simulateTradeAction (ctx : Tg.context) (callbackData : str) :
  stable (evolves Pev Prec) (simulateTradeAction ctx callbackData).
Proof.
  destruct timer_allowed.
  unfold simulateTradeAction, captureUserData, answerError, chat_id_of.
  repeat (stable_step || apply stable_handleSimulateTradeRequest_on
          || apply stable_progressInterval); auto.
Qed.

Lemma stable_setupBotHandlers (ctx : Tg.context) :
  stable (evolves Pev Prec) (setupBotHandlers ctx).
Proof.
  unfold setupBotHandlers.
  repeat (stable_step || apply stable_simulateTradeAction); auto.
Qed.

End ServiceEvolution.

(** ** Runs: what the operations compute *)

Section Runs.

Local Open Scope js_scope.

Lemma skipn_app_length {A} (a b : list A) : skipn (length a) (a ++ b) = b.
Proof. induction a; simpl; auto. Qed.

Lemma events_of_evolves {A} (m : M A) (w : world) Pev Prec :
  evolves Pev Prec w (snd (m w)) ->
  trace (snd (m w)) = trace w ++ events_of m w /\
  Forall Pev (events_of m w).
Proof.
  intros (_ & (evs & Ht & Hp) & _). unfold events_of.
  now rewrite Ht, skipn_app_length.
Qed.

Lemma events_of_eq {A} (m : M A) (w : world) (evs : list event) :
  trace (snd (m w)) = trace w ++ evs -> events_of m w = evs.
Proof. intros H. unfold events_of. now rewrite H, skipn_app_length. Qed.

Lemma evolves_weaken (Pev Pev' : event -> Prop) (Prec Prec' : Simulation.t -> Prop)
      (w w' : world) :
  (forall e, Pev e -> Pev' e) -> (forall r, Prec r -> Prec' r) ->
  evolves Pev Prec w w' -> evolves Pev' Prec' w w'.
Proof.
  intros He Hr (H1 & (evs & Ht & Hp) & (recs & Hs & Hq) & Hc).
  repeat split; auto.
  - exists evs. split; [assumption|]. eapply Forall_impl; eauto.
  - exists recs. split; [assumption|]. eapply Forall_impl; eauto.
Qed.

Lemma evolves_same_store (Pev : event -> Prop) (w w' : world) :
  evolves Pev (fun _ => False) w w' ->
  trade_simulations w' = trade_simulations w.
Proof.
  intros (_ & _ & (recs & Hs & Hq) & _).
  destruct recs as [|r recs]; [now rewrite app_nil_r in Hs|].
  now inversion Hq.
Qed.

Lemma dbConnect_run (w : world) :
  lookups_reliable (env w) ->
  exists w1, dbConnect w = (Return tt, w1) /\
             evolves lookup_event (fun _ => False) w w1.
Proof.
  intros Hrel. unfold dbConnect.
  destruct (cachedClient w) eqn:Hc.
  - exists w. split; [reflexivity | apply evolves_refl].
  - unfold catch, bind, await.
    destruct (Hrel (trace w)) as (-> & _). simpl.
    eexists. split; [reflexivity|].
    repeat split; simpl; auto.
    + exists [MongoConnect]. split; [reflexivity|].
      constructor; [now repeat split | constructor].
    + exists []. split; [now rewrite app_nil_r | constructor].
Qed.

Lemma fetchUserData_run (w : world) (username : option str)
      (twitterId safeAddress : str) :
  lookups_reliable (env w) ->
  resolves (env w) username twitterId safeAddress ->
  exists w1, fetchUserData username w = (Return (twitterId, safeAddress), w1) /\
             evolves lookup_event (fun _ => False) w w1.
Proof.
  intros Hrel (u & sf & Hu & Htw & Hne & Hsf & Haddr & Hne').
  destruct (dbConnect_run w Hrel) as (w1 & Hrun & Hev).
  pose proof Hev as (Henv & _).
  unfold fetchUserData, catch, bind at 1. rewrite Hrun.
  unfold bind, await. rewrite Henv.
  destruct (Hrel (trace w1)) as (_ & Hf1 & _). rewrite Hf1, Hu. simpl.
  rewrite Htw. destruct twitterId as [|c tw]; [contradiction|]. simpl.
  destruct (Hrel (trace w1 ++ [UsersFindOne username])) as (_ & _ & Hf2 & _).
  rewrite Henv, Hf2, Hsf, Haddr.
  destruct safeAddress as [|d addr]; [contradiction|]. simpl.
  eexists. split; [reflexivity|].
  eapply evolves_trans; [exact Hev|].
  eapply evolves_trans; apply evolves_logged; now repeat split.
Qed.

Lemma simulateTrade_run (w : world) (sd : signalData) (username safeAddress : str) :
  lookups_reliable (env w) ->
  let body := apiBody_of sd (clock (env w) (trace w)) username safeAddress in
  simulateTrade sd username safeAddress w =
  (Return (signalApi (env w) (trace w) body), logged (SignalApiPost body) w).
Proof.
  intros Hrel body. unfold simulateTrade, catch, bind, Date_now, await.
  fold body. destruct (Hrel (trace w)) as (_ & _ & _ & Hf). now rewrite Hf.
Qed.

Lemma lookups_reliable_evolves Pev Prec (w w' : world) :
  evolves Pev Prec w w' -> lookups_reliable (env w) -> lookups_reliable (env w').
Proof. intros (-> & _). auto. Qed.

Lemma resolves_evolves Pev Prec (w w' : world) u tw addr :
  evolves Pev Prec w w' -> resolves (env w) u tw addr -> resolves (env w') u tw addr.
Proof. intros (-> & _). auto. Qed.

(** The run of the workflow when the lookups and the API call go through:
    the history grows by lookups, the API call and one insertion; the
    collection by the inserted record, unless the insertion is rejected. *)
Lemma handleSimulateTradeRequest_run (w : world) (userData : Event.t)
      (text twitterId safeAddress : str) :
  Event.messageText userData = Some text ->
  lookups_reliable (env w) ->
  resolves (env w) (Event.username userData) twitterId safeAddress ->
  exists pre body r,
    let resp := signalApi (env w) (trace w ++ pre) body in
    let w' := snd (handleSimulateTradeRequest userData w) in
    trace w' = trace w ++ pre ++ [SignalApiPost body; SimulationsInsertOne r] /\
    Forall lookup_event pre /\
    env w' = env w /\
    Simulation.status r = INITIATED /\
    carries_event r userData /\
    Simulation.signalData_of r = parseSignalMessage text /\
    Simulation.twitterId r = twitterId /\
    Simulation.safeAddress r = safeAddress /\
    Simulation.apiResponse r = resp /\
    match fault (env w) (trace w ++ pre ++ [SignalApiPost body])
            (SimulationsInsertOne r) with
    | None =>
      fst (handleSimulateTradeRequest userData w) = Return resp /\
      trade_simulations w' = trade_simulations w ++ [r]
    | Some err =>
      fst (handleSimulateTradeRequest userData w) = Throw err /\
      trade_simulations w' = trade_simulations w
    end.
Proof.
  intros Htext Hrel Hres.
  destruct (dbConnect_run w Hrel) as (w1 & Hrun1 & Hev1).
  assert (Hrel1 := lookups_reliable_evolves Hev1 Hrel).
  assert (Hres1 := resolves_evolves Hev1 Hres).
  destruct (fetchUserData_run w1 Hrel1 Hres1) as (w2 & Hrun2 & Hev2).
  assert (Hrel2 := lookups_reliable_evolves Hev2 Hrel1).
  pose proof (evolves_trans Hev1 Hev2) as Hev.
  pose proof (evolves_same_store Hev) as Hstore.
  destruct Hev as (Henv & (pre & Htr & Hpre) & _ & _).
  pose proof (simulateTrade_run w2 (parseSignalMessage text)
                twitterId safeAddress Hrel2) as Hrun3.
  cbv zeta in Hrun3.
  set (body := apiBody_of (parseSignalMessage text) (clock (env w2) (trace w2))
                 twitterId safeAddress) in *.
  remember (handleSimulateTradeRequest userData w) as run eqn:Hrun.
  unfold handleSimulateTradeRequest, catch, bind at 1 in Hrun.
  rewrite Hrun1 in Hrun.
  unfold bind at 1, Date_now in Hrun. rewrite Htext in Hrun.
  unfold bind at 1 in Hrun. rewrite Hrun2 in Hrun. cbn [fst snd] in Hrun.
  unfold bind at 1 in Hrun. rewrite Hrun3 in Hrun. cbn [fst snd] in Hrun.
  match type of Hrun with
  | context [insertOne ?r] => set (rec := r) in *
  end.
  exists pre, body, rec.
  unfold insertOne, bind, await, rethrow, throw, ret in Hrun.
  cbn [logged env trace] in Hrun.
  rewrite Henv, Htr, <- app_assoc in Hrun.
  destruct (fault (env w) (trace w ++ pre ++ [SignalApiPost body])
              (SimulationsInsertOne rec)) eqn:Hf; subst run; cbn;
    rewrite <- ?app_assoc; cbn; rewrite ?Hstore, ?Henv, ?Htr;
    (split; [now rewrite <- app_assoc|]);
    repeat (split; [reflexivity || assumption|]);
    (split; [unfold carries_event; cbn; repeat split; congruence|]);
    repeat split; reflexivity.
Qed.

Lemma filter_none {A} (p : A -> bool) (l : list A) :
  Forall (fun x => p x = false) l -> filter p l = [].
Proof. induction 1 as [|x l Hx _ IH]; simpl; [|rewrite Hx]; auto. Qed.

Lemma catch_bind_return {A B} (m : M A) (f : A -> M B) (h : error -> M B)
      (w w1 : world) (a : A) :
  m w = (Return a, w1) -> catch (bind m f) h w = catch (f a) h w1.
Proof. intros H. unfold catch, bind. now rewrite H. Qed.

Lemma catch_bind_throw {A B} (m : M A) (f : A -> M B) (h : error -> M B)
      (w w1 : world) (e : error) :
  m w = (Throw e, w1) -> catch (bind m f) h w = h e w1.
Proof. intros H. unfold catch, bind. now rewrite H. Qed.

Lemma catch_inner {A} (m m' : M A) (h : error -> M A) (w w' : world) :
  m w = m' w' -> catch m h w = catch m' h w'.
Proof. intros H. unfold catch. now rewrite H. Qed.

Lemma await_ok {A} (e : event) (answer : world -> A) (w : world) :
  fault (env w) (trace w) e = None ->
  await e answer w = (Return (answer w), logged e w).
Proof. intros H. unfold await. now rewrite H. Qed.

Lemma await_fail {A} (e : event) (answer : world -> A) (w : world) err :
  fault (env w) (trace w) e = Some err ->
  await e answer w = (Throw err, logged e w).
Proof. intros H. unfold await. now rewrite H. Qed.

Lemma dbConnect_cases (w : world) :
  (exists w1, dbConnect w = (Return tt, w1) /\ env w1 = env w) \/
  (exists e, dbConnect w = (Throw e, logged MongoConnect w) /\
             fault (env w) (trace w) MongoConnect = Some e).
Proof.
  unfold dbConnect. destruct (cachedClient w).
  - left. now exists w.
  - unfold catch, bind, await.
    destruct (fault (env w) (trace w) MongoConnect) as [e|].
    + right. now exists e.
    + left. eexists. split; reflexivity.
Qed.

Lemma bind_return {A B} (m : M A) (f : A -> M B) (w w1 : world) (a : A) :
  m w = (Return a, w1) -> bind m f w = f a w1.
Proof. intros H. unfold bind. now rewrite H. Qed.

Lemma stable_lookup_dbConnect :
  stable (evolves lookup_event (fun _ => False)) dbConnect.
Proof. apply stable_dbConnect. now repeat split. Qed.

Lemma stable_lookup_fetchUserData (username : option str) :
  stable (evolves lookup_event (fun _ => False)) (fetchUserData username).
Proof.
  unfold fetchUserData. repeat stable_step; now repeat split.
Qed.

Lemma simulateTrade_cases (w : world) (sd : signalData)
      (username safeAddress : str) :
  let body := apiBody_of sd (clock (env w) (trace w)) username safeAddress in
  simulateTrade sd username safeAddress w
  = (match fault (env w) (trace w) (SignalApiPost body) with
     | Some err => Throw err
     | None => Return (signalApi (env w) (trace w) body)
     end, logged (SignalApiPost body) w).
Proof.
  intros body. subst body.
  unfold simulateTrade, catch, bind, Date_now, await, apiBody_of. cbv zeta.
  match goal with
  | |- context [fault ?a ?b ?c] => destruct (fault a b c)
  end; reflexivity.
Qed.

Lemma Date_now_run (w : world) :
  Date_now w = (Return (clock (env w) (trace w)), w).
Proof. reflexivity. Qed.

End Runs.

(** ** The workflow while a timer is registered *)

Section TimerRuns.

Local Open Scope js_scope.

Lemma extended_nil (w : world) : extended [] w = w.
Proof. destruct w. unfold extended. cbn. now rewrite app_nil_r. Qed.

Lemma extended_app (a b : list event) (w : world) :
  extended b (extended a w) = extended (a ++ b) w.
Proof. unfold extended. cbn. now rewrite app_assoc. Qed.

Lemma background_idle (L : event -> Prop) : background L idle.
Proof. intros w. exists []. now rewrite extended_nil. Qed.

(** On the idle loop the functions of the workflow are the plain ones. *)
Lemma await_on_idle {A} (e : event) (answer : world -> A) :
  await_on idle e answer = await e answer.
Proof. reflexivity. Qed.

Lemma dbConnect_on_idle : dbConnect_on idle = dbConnect.
Proof. reflexivity. Qed.

Lemma fetchUserData_on_idle (telegramUsername : option str) :
  fetchUserData_on idle telegramUsername = fetchUserData telegramUsername.
Proof. reflexivity. Qed.

Lemma simulateTrade_on_idle (sd : signalData) (username safeAddress : str) :
  simulateTrade_on idle sd username safeAddress
  = simulateTrade sd username safeAddress.
Proof. reflexivity. Qed.

Lemma insertOne_on_idle (r : Simulation.t) : insertOne_on idle r = insertOne r.
Proof. reflexivity. Qed.

Lemma handleSimulateTradeRequest_on_idle (userData : Event.t) :
  handleSimulateTradeRequest_on idle userData
  = handleSimulateTradeRequest userData.
Proof. reflexivity. Qed.

Lemma background_stable (L Pev : event -> Prop) (Prec : Simulation.t -> Prop)
      (loop : M unit) :
  (forall e, L e -> Pev e) -> background L loop ->
  stable (evolves Pev Prec) loop.
Proof.
  intros HL H w. destruct (H w) as (evs & -> & Hevs).
  repeat split; cbn; auto.
  - exists evs. split; [reflexivity|]. eapply Forall_impl; eauto.
  - exists []. now rewrite app_nil_r.
Qed.

Lemma background_fires (L : event -> Prop) (n : nat) (callback : M unit) :
  background L callback -> background L (fires n callback).
Proof.
  intros H. induction n as [|n IH]; cbn [fires].
  - apply background_idle.
  - intros w. unfold bind. destruct (H w) as (evs & Hw & Hevs).
    destruct (callback w) as [[[]|e] w1]; cbn [snd] in Hw; subst w1.
    + destruct (IH (extended evs w)) as (evs' & -> & Hevs').
      exists (evs ++ evs'). rewrite extended_app.
      split; [reflexivity | now apply Forall_app].
    + now exists evs.
Qed.

Lemma background_progressInterval (ctx : Tg.context) (processingMessage : Z) :
  background (progress_edit processingMessage)
    (progressInterval ctx processingMessage).
Proof.
  intros w. unfold progressInterval. apply background_fires. clear w.
  intros w. unfold progressCallback, catch, bind, Math_random, chat_id_of.
  destruct (Tg.chat_of ctx) as [c|]; unfold ret, throw, await.
  - exists [EditMessageText (Tg.chat_id c) processingMessage
              (progressMessage (randomDot (random (env w) (trace w))))].
    split; [|constructor; [now eexists _, _ | constructor]].
    now destruct (fault (env w) (trace w) _).
  - exists []. now rewrite extended_nil.
Qed.

Section OnLoop.

Variable L : event -> Prop.
Variable loop : M unit.
Hypothesis Hloop : background L loop.

Lemma loop_env (w : world) : env (snd (loop w)) = env w.
Proof. now destruct (Hloop w) as (evs & -> & _). Qed.

Lemma await_on_run {A} (e : event) (answer : world -> A) (w : world) :
  exists ticks,
    Forall L ticks /\
    await_on loop e answer w
    = (match fault (env w) (trace w) e with
       | Some err => Throw err
       | None => Return (answer w)
       end, extended ticks (logged e w)).
Proof.
  unfold await_on. cbv zeta.
  destruct (Hloop (logged e w)) as (ticks & -> & Ht).
  exists ticks. split; [assumption|].
  now destruct (fault (env w) (trace w) e).
Qed.

Lemma await_on_ok {A} (e : event) (answer : world -> A) (w : world) :
  fault (env w) (trace w) e = None ->
  await_on loop e answer w = (Return (answer w), snd (loop (logged e w))).
Proof. intros H. unfold await_on. cbv zeta. now rewrite H. Qed.

Lemma loop_lookup_stable :
  stable (evolves (lookup_or L) (fun _ => False)) loop.
Proof. eapply background_stable; [|exact Hloop]. now right. Qed.

Lemma stable_lookup_dbConnect_on :
  stable (evolves (lookup_or L) (fun _ => False)) (dbConnect_on loop).
Proof.
  apply stable_dbConnect_on; [apply loop_lookup_stable|].
  left. now repeat split.
Qed.

Lemma stable_lookup_fetchUserData_on (username : option str) :
  stable (evolves (lookup_or L) (fun _ => False)) (fetchUserData_on loop username).
Proof.
  pose proof loop_lookup_stable.
  unfold fetchUserData_on. repeat stable_step; auto; left; now repeat split.
Qed.

Lemma dbConnect_on_returns (w : world) :
  lookups_reliable (env w) -> fst (dbConnect_on loop w) = Return tt.
Proof.
  intros Hrel. unfold dbConnect_on. destruct (cachedClient w); [reflexivity|].
  unfold catch, bind. rewrite await_on_ok by apply Hrel. reflexivity.
Qed.

Lemma dbConnect_on_env (w : world) : env (snd (dbConnect_on loop w)) = env w.
Proof. apply stable_lookup_dbConnect_on. Qed.

Lemma fetchUserData_on_returns (w : world) (username : option str)
      (twitterId safeAddress : str) :
  lookups_reliable (env w) ->
  resolves (env w) username twitterId safeAddress ->
  fst (fetchUserData_on loop username w) = Return (twitterId, safeAddress).
Proof.
  intros Hrel (u & sf & Hu & Htw & Hne & Hsf & Haddr & Hne').
  pose proof (dbConnect_on_returns w Hrel) as Hret.
  pose proof (dbConnect_on_env w) as Henv.
  unfold fetchUserData_on.
  destruct (dbConnect_on loop w) as [o w1] eqn:Hrun. cbn [fst snd] in *. subst o.
  erewrite catch_bind_return by exact Hrun.
  erewrite catch_bind_return
    by (apply await_on_ok; rewrite Henv; apply Hrel).
  rewrite Henv, Hu. cbv zeta. rewrite Htw.
  destruct twitterId as [|c tw]; [contradiction|]. cbn [nonempty negb interpolate].
  erewrite catch_bind_return
    by (apply await_on_ok; rewrite loop_env; cbn [logged env]; rewrite Henv;
        apply Hrel).
  rewrite loop_env. cbn [logged env]. rewrite Henv, Hsf, Haddr.
  destruct safeAddress as [|d addr]; [contradiction|]. reflexivity.
Qed.

Lemma fetchUserData_on_returns_resolved (w : world) (username : option str)
      (twitterId safeAddress : str) :
  fst (fetchUserData_on loop username w) = Return (twitterId, safeAddress) ->
  resolves (env w) username twitterId safeAddress.
Proof.
  pose proof (dbConnect_on_env w) as Henv.
  unfold fetchUserData_on.
  destruct (dbConnect_on loop w) as [[[]|e] w1] eqn:Hrun; cbn [snd] in Henv.
  2:{ erewrite catch_bind_throw by exact Hrun. discriminate. }
  erewrite catch_bind_return by exact Hrun.
  destruct (await_on_run (UsersFindOne username)
              (fun w => users (env w) username) w1) as (t1 & _ & Hrun1).
  rewrite Henv in Hrun1.
  destruct (fault (env w) (trace w1) (UsersFindOne username)).
  { erewrite catch_bind_throw by exact Hrun1. discriminate. }
  erewrite catch_bind_return by exact Hrun1. cbv zeta.
  destruct (users (env w) username) as [u|] eqn:Hu; [|discriminate].
  destruct (User.twitterId u) as [[|c tw]|] eqn:Htw;
    cbn [nonempty negb interpolate]; try discriminate.
  set (w2 := extended t1 (logged (UsersFindOne username) w1)).
  destruct (await_on_run (SafesFindOne (c :: tw))
              (fun w => safes (env w) (c :: tw)) w2) as (t2 & _ & Hrun2).
  change (env w2) with (env w1) in Hrun2. rewrite Henv in Hrun2.
  destruct (fault (env w) (trace w2) (SafesFindOne (c :: tw))).
  { erewrite catch_bind_throw by exact Hrun2. discriminate. }
  erewrite catch_bind_return by exact Hrun2.
  destruct (safes (env w) (c :: tw)) as [sf|] eqn:Hsf; [|discriminate].
  destruct (Safe.arbitrum_address sf) as [[|d addr]|] eqn:Ha;
    cbn [nonempty negb interpolate]; try discriminate.
  intros [= <- <-]. exists u, sf. repeat split; auto; discriminate.
Qed.

Lemma simulateTrade_on_cases (w : world) (sd : signalData)
      (username safeAddress : str) :
  let body := apiBody_of sd (clock (env w) (trace w)) username safeAddress in
  exists ticks,
    Forall L ticks /\
    simulateTrade_on loop sd username safeAddress w
    = (match fault (env w) (trace w) (SignalApiPost body) with
       | Some err => Throw err
       | None => Return (signalApi (env w) (trace w) body)
       end, extended ticks (logged (SignalApiPost body) w)).
Proof.
  intros body.
  destruct (await_on_run (SignalApiPost body)
              (fun w => signalApi (env w) (trace w) body) w)
    as (ticks & Ht & Hrun).
  exists ticks. split; [assumption|].
  unfold simulateTrade_on. cbv zeta.
  erewrite catch_bind_return by apply Date_now_run.
  fold (apiBody_of sd (clock (env w) (trace w)) username safeAddress).
  fold body.
  destruct (fault (env w) (trace w) (SignalApiPost body)).
  - now erewrite catch_bind_throw by exact Hrun.
  - now erewrite catch_bind_return by exact Hrun.
Qed.

Lemma insertOne_on_run (r : Simulation.t) (w : world) :
  exists ticks,
    Forall L ticks /\
    insertOne_on loop r w
    = match fault (env w) (trace w) (SimulationsInsertOne r) with
      | Some err =>
        (Throw err, extended ticks (logged (SimulationsInsertOne r) w))
      | None =>
        (Return tt,
         {| env := env w;
            cachedClient := cachedClient w;
            trade_simulations := trade_simulations w ++ [r];
            trace := (trace w ++ [SimulationsInsertOne r]) ++ ticks |})
      end.
Proof.
  destruct (await_on_run (SimulationsInsertOne r) (fun _ => tt) w)
    as (ticks & Ht & Hrun).
  exists ticks. split; [assumption|].
  unfold insertOne_on, bind. rewrite Hrun.
  now destruct (fault (env w) (trace w) (SimulationsInsertOne r)).
Qed.

(** The run of the workflow on the loop when the lookups and the API call
    go through: lookups, the API call and one insertion, with calls of the
    loop in between. *)
Lemma handleSimulateTradeRequest_on_run (w : world) (userData : Event.t)
      (text twitterId safeAddress : str) :
  Event.messageText userData = Some text ->
  lookups_reliable (env w) ->
  resolves (env w) (Event.username userData) twitterId safeAddress ->
  exists before body r mid after,
    let resp := signalApi (env w) (trace w ++ before) body in
    let run := handleSimulateTradeRequest_on loop userData w in
    trace (snd run)
    = trace w ++ before ++ SignalApiPost body :: mid
      ++ SimulationsInsertOne r :: after /\
    Forall (lookup_or L) before /\ Forall L mid /\ Forall L after /\
    env (snd run) = env w /\
    Simulation.status r = INITIATED /\
    carries_event r userData /\
    Simulation.signalData_of r = parseSignalMessage text /\
    Simulation.twitterId r = twitterId /\
    Simulation.safeAddress r = safeAddress /\
    Simulation.apiResponse r = resp /\
    match fault (env w) (trace w ++ before ++ SignalApiPost body :: mid)
            (SimulationsInsertOne r) with
    | None =>
      fst run = Return resp /\
      trade_simulations (snd run) = trade_simulations w ++ [r]
    | Some err =>
      fst run = Throw err /\
      trade_simulations (snd run) = trade_simulations w
    end.
Proof.
  intros Htext Hrel Hres.
  pose proof (dbConnect_on_returns w Hrel) as Hret1.
  pose proof (stable_lookup_dbConnect_on w) as Hev1.
  destruct (dbConnect_on loop w) as [o1 w1] eqn:Hrun1.
  cbn [fst snd] in *. subst o1.
  assert (Hrel1 := lookups_reliable_evolves Hev1 Hrel).
  assert (Hres1 := resolves_evolves Hev1 Hres).
  pose proof (fetchUserData_on_returns w1 Hrel1 Hres1) as Hret2.
  pose proof (stable_lookup_fetchUserData_on (Event.username userData) w1) as Hev2.
  destruct (fetchUserData_on loop (Event.username userData) w1)
    as [o2 w2] eqn:Hrun2.
  cbn [fst snd] in *. subst o2.
  pose proof (evolves_trans Hev1 Hev2) as Hev.
  pose proof (evolves_same_store Hev) as Hstore.
  destruct Hev as (Henv & (before & Htr & Hbefore) & _ & _).
  destruct (simulateTrade_on_cases w2 (parseSignalMessage text)
              twitterId safeAddress) as (mid & Hmid & Hrun3).
  rewrite Henv in Hrun3.
  destruct (Hrel (trace w2)) as (_ & _ & _ & Hf). rewrite Hf in Hrun3.
  set (body := apiBody_of (parseSignalMessage text) (clock (env w) (trace w2))
                 twitterId safeAddress) in *.
  set (w3 := extended mid (logged (SignalApiPost body) w2)) in *.
  unfold handleSimulateTradeRequest_on.
  erewrite catch_bind_return by exact Hrun1.
  erewrite catch_bind_return by apply Date_now_run.
  rewrite Htext. cbv zeta.
  erewrite catch_bind_return by exact Hrun2. cbn [fst snd].
  erewrite catch_bind_return by exact Hrun3.
  match goal with
  | |- context [insertOne_on loop ?r] => set (rec := r)
  end.
  destruct (insertOne_on_run rec w3) as (after & Hafter & Hrun4).
  change (env w3) with (env w2) in Hrun4. rewrite Henv in Hrun4.
  assert (Htr3 : trace w3 = trace w ++ before ++ SignalApiPost body :: mid).
  { cbn [w3 extended logged trace]. rewrite Htr, <- !app_assoc. reflexivity. }
  rewrite Htr3 in Hrun4.
  assert (Hrec : Simulation.status rec = INITIATED /\
                 carries_event rec userData /\
                 Simulation.signalData_of rec = parseSignalMessage text /\
                 Simulation.twitterId rec = twitterId /\
                 Simulation.safeAddress rec = safeAddress /\
                 Simulation.apiResponse rec
                 = signalApi (env w) (trace w ++ before) body).
  { subst rec. cbn. rewrite Htr.
    split; [reflexivity|].
    split; [unfold carries_event; cbn; repeat split; congruence|].
    repeat split. }
  destruct Hrec as (R1 & R2 & R3 & R4 & R5 & R6).
  exists before, body, rec, mid, after. cbv zeta.
  destruct (fault (env w) (trace w ++ before ++ SignalApiPost body :: mid)
              (SimulationsInsertOne rec)) as [err|].
  - erewrite catch_bind_throw by exact Hrun4.
    cbn [rethrow throw fst snd extended logged env trace trade_simulations].
    rewrite Htr3.
    refine (conj _ (conj Hbefore (conj Hmid (conj Hafter (conj _
             (conj R1 (conj R2 (conj R3 (conj R4 (conj R5 (conj R6 _))))))))))).
    + now rewrite <- !app_assoc.
    + exact Henv.
    + split; [reflexivity | exact Hstore].
  - erewrite catch_bind_return by exact Hrun4.
    unfold catch, ret.
    cbn [fst snd extended logged env trace trade_simulations].
    rewrite Htr.
    refine (conj _ (conj Hbefore (conj Hmid (conj Hafter (conj _
             (conj R1 (conj R2 (conj R3 (conj R4 (conj R5 (conj R6 _))))))))))).
    + now rewrite <- !app_assoc.
    + reflexivity.
    + split; [reflexivity|].
      change (trade_simulations w3) with (trade_simulations w2).
      now rewrite Hstore.
Qed.

(** The workflow on the loop, on an event whose user has no trading
    identity: it throws after lookups and calls of the loop only. *)
Lemma handleSimulateTradeRequest_on_unresolved (w : world) (userData : Event.t) :
  (forall twitterId safeAddress,
     ~ resolves (env w) (Event.username userData) twitterId safeAddress) ->
  exists e w4,
    handleSimulateTradeRequest_on loop userData w = (Throw e, w4) /\
    evolves (lookup_or L) (fun _ => False) w w4.
Proof.
  intros Hno. unfold handleSimulateTradeRequest_on.
  pose proof (stable_lookup_dbConnect_on w) as Hev1.
  destruct (dbConnect_on loop w) as [[[]|e] w1] eqn:Hrun1; cbn [snd] in Hev1.
  2:{ erewrite catch_bind_throw by exact Hrun1. now exists e, w1. }
  erewrite catch_bind_return by exact Hrun1.
  erewrite catch_bind_return by apply Date_now_run.
  destruct (Event.messageText userData) as [text|].
  2:{ eexists _, w1. split; [reflexivity | assumption]. }
  pose proof (stable_lookup_fetchUserData_on (Event.username userData) w1) as Hev2.
  pose proof (@fetchUserData_on_returns_resolved w1 (Event.username userData))
    as Hsound.
  destruct (fetchUserData_on loop (Event.username userData) w1)
    as [[[tw addr]|e] w2] eqn:Hrun2; cbn [fst snd] in *.
  - exfalso. specialize (Hsound tw addr eq_refl).
    destruct Hev1 as (Henv1 & _). rewrite Henv1 in Hsound.
    now apply Hno in Hsound.
  - cbv zeta. erewrite catch_bind_throw by exact Hrun2.
    exists e, w2. split; [reflexivity|]. eapply evolves_trans; eassumption.
Qed.

(** A stage that throws ends the run: what the workflow throws is the error
    of that stage, and the run has made lookups, calls of the loop and at
    most the API call. *)
Lemma stage_throws_run (w : world) (userData : Event.t) (text : str)
      (err : error) :
  Event.messageText userData = Some text ->
  stage_throws loop w userData text err ->
  exists w' evs,
    handleSimulateTradeRequest_on loop userData w = (Throw err, w') /\
    trace w' = trace w ++ evs /\
    Forall (fun e => lookup_or L e \/ is_api_post e = true) evs /\
    trade_simulations w' = trade_simulations w.
Proof.
  intros Htext Hstage. unfold handleSimulateTradeRequest_on.
  pose proof (stable_lookup_dbConnect_on w) as Hev1.
  destruct Hstage as [Hc Hf | Hd Hr | twitterId safeAddress Hd Hr Hf].
  - destruct (await_on_run MongoConnect (fun _ => tt) w) as (ticks & Ht & Hrun0).
    rewrite Hf in Hrun0.
    assert (Hrun : dbConnect_on loop w
                   = (Throw err, extended ticks (logged MongoConnect w))).
    { unfold dbConnect_on. rewrite Hc. unfold catch, bind. now rewrite Hrun0. }
    erewrite catch_bind_throw by exact Hrun.
    exists (extended ticks (logged MongoConnect w)), (MongoConnect :: ticks).
    cbn [extended logged trace trade_simulations]. rewrite <- app_assoc.
    repeat split; auto. constructor.
    + left. left. now repeat split.
    + eapply Forall_impl; [|exact Ht]. intros e He. left. now right.
  - destruct (dbConnect_on loop w) as [o1 w1] eqn:Hrun1.
    cbn [fst snd] in *. subst o1.
    pose proof (stable_lookup_fetchUserData_on (Event.username userData) w1)
      as Hev2.
    destruct (fetchUserData_on loop (Event.username userData) w1)
      as [o2 w2] eqn:Hrun2.
    cbn [fst snd] in *. subst o2.
    erewrite catch_bind_return by exact Hrun1.
    erewrite catch_bind_return by apply Date_now_run.
    rewrite Htext. cbv zeta.
    erewrite catch_bind_throw by exact Hrun2.
    pose proof (evolves_trans Hev1 Hev2) as Hev.
    pose proof (evolves_same_store Hev) as Hstore.
    destruct Hev as (_ & (pre & Htr & Hpre) & _).
    exists w2, pre. repeat split; auto.
    eapply Forall_impl; [|exact Hpre]. now left.
  - destruct (dbConnect_on loop w) as [o1 w1] eqn:Hrun1.
    cbn [fst snd] in *. subst o1.
    pose proof (stable_lookup_fetchUserData_on (Event.username userData) w1)
      as Hev2.
    destruct (fetchUserData_on loop (Event.username userData) w1)
      as [o2 w2] eqn:Hrun2.
    cbn [fst snd] in *. subst o2.
    erewrite catch_bind_return by exact Hrun1.
    erewrite catch_bind_return by apply Date_now_run.
    rewrite Htext. cbv zeta.
    erewrite catch_bind_return by exact Hrun2. cbn [fst snd].
    pose proof (evolves_trans Hev1 Hev2) as Hev.
    pose proof (evolves_same_store Hev) as Hstore.
    destruct Hev as (Henv & (pre & Htr & Hpre) & _).
    destruct (simulateTrade_on_cases w2 (parseSignalMessage text)
                twitterId safeAddress) as (ticks & Ht & Hrun3).
    rewrite Henv, Hf in Hrun3.
    erewrite catch_bind_throw by exact Hrun3.
    eexists _, (pre ++ SignalApiPost _ :: ticks).
    split; [reflexivity|]. cbn [extended logged trace trade_simulations].
    split; [now rewrite Htr, <- !app_assoc|].
    split; [|exact Hstore].
    apply Forall_app. split.
    + eapply Forall_impl; [|exact Hpre]. now left.
    + constructor; [now right|].
      eapply Forall_impl; [|exact Ht]. intros e He. left. now right.
Qed.

End OnLoop.

Lemma progress_edit_not_workflow (messageId : Z) (e : event) :
  progress_edit messageId e -> workflow_call e = false.
Proof. now intros (c & r & ->). Qed.

Lemma lookup_or_progress_not_api_post (messageId : Z) (evs : list event) :
  Forall (lookup_or (progress_edit messageId)) evs ->
  filter is_api_post evs = [].
Proof.
  intros H. apply filter_none. eapply Forall_impl; [|exact H].
  intros e [(_ & _ & He) | (c & r & ->)]; [exact He | reflexivity].
Qed.

Lemma progress_not_api_post (messageId : Z) (evs : list event) :
  Forall (progress_edit messageId) evs -> filter is_api_post evs = [].
Proof.
  intros H. apply filter_none. eapply Forall_impl; [|exact H].
  now intros e (c & r & ->).
Qed.

(** A progress text begins with a dot or with "undefined"; the texts that
    the handler puts into the processing message at the end begin with a
    check mark or a cross. *)
Lemma randomDot_cases (r : Q) : In (randomDot r) (None :: map Some DOTS).
Proof.
  unfold randomDot. cbv zeta.
  destruct (Qfloor (r * inject_Z (Z.of_nat (length DOTS))) <? 0)%Z;
    [now left|].
  destruct (nth_error DOTS (Z.to_nat (Qfloor (r * inject_Z (Z.of_nat (length DOTS))))))
    as [d|] eqn:E; [|now left].
  right. apply in_map. eapply nth_error_In. exact E.
Qed.

Lemma progressMessage_head (r : Q) :
  hd 0%N (progressMessage (randomDot r)) <> 9989%N /\
  hd 0%N (progressMessage (randomDot r)) <> 10060%N.
Proof.
  pose proof (randomDot_cases r) as H.
  assert (Hall : Forall (fun d => hd 0%N (progressMessage d) <> 9989%N /\
                                  hd 0%N (progressMessage d) <> 10060%N)
                   (None :: map Some DOTS)).
  { repeat constructor; vm_compute; discriminate. }
  rewrite Forall_forall in Hall. now apply Hall.
Qed.

Lemma replyMessage_head (apiResponse : option Api.response) :
  hd 0%N (replyMessage apiResponse) = 9989%N \/
  hd 0%N (replyMessage apiResponse) = 10060%N.
Proof.
  unfold replyMessage. destruct apiResponse as [r|]; [|left; vm_compute; reflexivity].
  destruct (status_is r (js "success")); [left; vm_compute; reflexivity|].
  destruct (status_is r (js "failed")); [right | left]; vm_compute; reflexivity.
Qed.

Lemma result_not_progress (messageId chatId : Z) (apiResponse : option Api.response) :
  ~ progress_edit messageId
      (EditMessageText chatId messageId (replyMessage apiResponse)).
Proof.
  intros (c & r & [= _ H]).
  destruct (progressMessage_head r) as [H1 H2]. rewrite <- H in H1, H2.
  destruct (replyMessage_head apiResponse); contradiction.
Qed.

Lemma sorry_not_progress (messageId chatId : Z) :
  ~ progress_edit messageId (EditMessageText chatId messageId SORRY).
Proof.
  intros (c & r & [= _ H]).
  destruct (progressMessage_head r) as [_ H2]. rewrite <- H in H2.
  apply H2. vm_compute. reflexivity.
Qed.

End TimerRuns.

(** ** The simulation workflow *)

Section WorkflowClaims.

Local Open Scope js_scope.

(** C2, as the spec states it, fails: an invocation on an interaction event
    whose user the directory does not know persists nothing, whatever the
    API would have answered. *)
Lemma unresolved_identity_persists_nothing :
  let w := start (sample_env (Some failed_response)) in
  let run := handleSimulateTradeRequest (click_event (js "mallory")) w in
  (exists e, fst run = Throw e) /\
  trade_simulations (snd run) = [] /\
  filter is_insert (trace (snd run)) = [].
Proof.
  repeat split; try (vm_compute; reflexivity).
  eexists. vm_compute. reflexivity.
Qed.

Lemma lookup_not_insert (evs : list event) :
  Forall lookup_event evs -> filter is_insert evs = [].
Proof.
  induction 1 as [|e evs (_ & He & _) _ IH]; simpl; [reflexivity|].
  now rewrite He.
Qed.

Lemma lookup_not_api_post (evs : list event) :
  Forall lookup_event evs -> filter is_api_post evs = [].
Proof.
  induction 1 as [|e evs (_ & _ & He) _ IH]; simpl; [reflexivity|].
  now rewrite He.
Qed.

(** C2 (amended): for every invocation, on its own or by the callback
    handler while the progress timer fires, in which the store connection
    and the identity resolution go through and the API call returns a
    response, whatever the shape of that response, exactly one record is
    inserted, in one insertion, after the API call; the record combines the
    interaction event, the parsed signal, the resolved identity and address
    and the raw response; if the insertion is rejected, that error is what
    the workflow throws.  When the connection, the identity resolution or
    the API call itself throws, the workflow throws that error and inserts no
    record.  The invocation runs on an event loop whose other activity
    [loop] makes no call of the workflow and leaves the collection alone: the
    idle loop for an invocation on its own, the progress timer in the
    handler. *)
Theorem simulation_persisted_once (L : event -> Prop) (loop : M unit)
        (w : world) (userData : Event.t) (text : str) :
  background L loop ->
  (forall e, L e -> workflow_call e = false) ->
  Event.messageText userData = Some text ->
  let run := handleSimulateTradeRequest_on loop userData w in
  let evs := events_of (handleSimulateTradeRequest_on loop userData) w in
  (forall twitterId safeAddress,
     lookups_reliable (env w) ->
     resolves (env w) (Event.username userData) twitterId safeAddress ->
     exists before body r mid after,
       let resp := signalApi (env w) (trace w ++ before) body in
       evs = before ++ SignalApiPost body :: mid
             ++ SimulationsInsertOne r :: after /\
       Forall (lookup_or L) before /\ Forall L mid /\ Forall L after /\
       filter is_insert evs = [SimulationsInsertOne r] /\
       carries_event r userData /\
       Simulation.signalData_of r = parseSignalMessage text /\
       Simulation.twitterId r = twitterId /\
       Simulation.safeAddress r = safeAddress /\
       Simulation.apiResponse r = resp /\
       match fault (env w) (trace w ++ before ++ SignalApiPost body :: mid)
               (SimulationsInsertOne r) with
       | None =>
         fst run = Return resp /\
         trade_simulations (snd run) = trade_simulations w ++ [r]
       | Some err => fst run = Throw err
       end) /\
  (forall err,
     stage_throws loop w userData text err ->
     fst run = Throw err /\
     filter is_insert evs = [] /\
     trade_simulations (snd run) = trade_simulations w).
Proof.
  intros Hloop HL Htext run evs.
  assert (HnoL : forall l, Forall L l -> filter is_insert l = []).
  { intros l Hl. apply filter_none. eapply Forall_impl; [|exact Hl].
    intros e He. apply HL in He. now destruct e. }
  assert (Hno : forall l, Forall (lookup_or L) l -> filter is_insert l = []).
  { intros l Hl. apply filter_none. eapply Forall_impl; [|exact Hl].
    intros e [(_ & He & _) | He]; [exact He|].
    apply HL in He. now destruct e. }
  split.
  - intros twitterId safeAddress Hrel Hres.
    destruct (handleSimulateTradeRequest_on_run Hloop w userData Htext Hrel Hres)
      as (before & body & r & mid & after
          & Htr & Hbefore & Hmid & Hafter & _ & _
          & Hev & Hsd & Htw & Hsa & Hresp & Hins).
    exists before, body, r, mid, after. cbv zeta. subst evs run.
    cbv zeta in Htr, Hins.
    rewrite (events_of_eq _ _ _ Htr).
    split; [reflexivity|].
    split; [assumption|]. split; [assumption|]. split; [assumption|].
    split.
    { rewrite filter_app, (Hno _ Hbefore). cbn [filter is_insert app].
      rewrite filter_app, (HnoL _ Hmid). cbn [filter is_insert app].
      now rewrite (HnoL _ Hafter). }
    repeat (split; [assumption|]).
    destruct (fault (env w) (trace w ++ before ++ SignalApiPost body :: mid)
                (SimulationsInsertOne r)); [exact (proj1 Hins) | exact Hins].
  - intros err Hstage.
    destruct (stage_throws_run Hloop Htext Hstage)
      as (w' & calls & Hrun & Htr & Hcalls & Hst).
    subst evs run. unfold events_of. rewrite Hrun. cbn [fst snd].
    rewrite Htr, skipn_app_length.
    split; [reflexivity|]. split; [|exact Hst].
    apply filter_none. eapply Forall_impl; [|exact Hcalls].
    intros e [[(_ & He & _) | He] | He].
    + exact He.
    + apply HL in He. now destruct e.
    + now destruct e.
Qed.

Lemma sample_lookups_reliable answer : lookups_reliable (sample_env answer).
Proof. intros h. repeat split. Qed.

Lemma sample_resolves answer :
  resolves (sample_env answer) (Some (js "alice")) (js "alice_tw") (js "0xA11CE").
Proof.
  eexists _, _. repeat split; try (vm_compute; reflexivity); discriminate.
Qed.

Lemma slow_resolves answer :
  resolves (slow_env answer) (Some (js "alice")) (js "alice_tw") (js "0xA11CE").
Proof.
  eexists _, _. repeat split; try (vm_compute; reflexivity); discriminate.
Qed.

Lemma simulation_persisted_once_witness :
  (exists pre body r,
     events_of (handleSimulateTradeRequest (click_event (js "alice")))
       (start (sample_env (Some failed_response)))
     = pre ++ [SignalApiPost body; SimulationsInsertOne r] /\
     Simulation.apiResponse r = Some failed_response /\
     trade_simulations
       (snd (handleSimulateTradeRequest (click_event (js "alice"))
               (start (sample_env (Some failed_response))))) = [r]) /\
  (exists before body r mid after,
     events_of (handleSimulateTradeRequest_on
                  (progressInterval (click (js "alice")) 1)
                  (click_event (js "alice")))
       (start (slow_env (Some failed_response)))
     = before ++ SignalApiPost body :: mid ++ SimulationsInsertOne r :: after /\
     Forall (progress_edit 1) mid /\
     Simulation.apiResponse r = Some failed_response /\
     trade_simulations
       (snd (handleSimulateTradeRequest_on
               (progressInterval (click (js "alice")) 1)
               (click_event (js "alice"))
               (start (slow_env (Some failed_response))))) = [r]).
Proof.
  split.
  - destruct (proj1 (@simulation_persisted_once (fun _ => False) idle
                       (start (sample_env (Some failed_response)))
                       (click_event (js "alice")) scenarioA
                       (background_idle _)
                       (fun e (H : False) => match H with end)
                       eq_refl)
                (js "alice_tw") (js "0xA11CE")
                (sample_lookups_reliable _) (sample_resolves _))
      as (before & body & r & mid & after
          & H1 & _ & Hmid & Hafter & _ & _ & _ & _ & _ & H2 & H3).
    destruct mid as [|e mid]; [|inversion Hmid; contradiction].
    destruct after as [|e after]; [|inversion Hafter; contradiction].
    exists before, body, r.
    split; [exact H1 | split; [exact H2 | exact (proj2 H3)]].
  - destruct (proj1 (@simulation_persisted_once (progress_edit 1)
                       (progressInterval (click (js "alice")) 1)
                       (start (slow_env (Some failed_response)))
                       (click_event (js "alice")) scenarioA
                       (background_progressInterval _ _)
                       (@progress_edit_not_workflow 1)
                       eq_refl)
                (js "alice_tw") (js "0xA11CE")
                (fun h => sample_lookups_reliable (Some failed_response) h)
                (slow_resolves _))
      as (before & body & r & mid & after
          & H1 & _ & H4 & _ & _ & _ & _ & _ & _ & H2 & H3).
    exists before, body, r, mid, after.
    split; [exact H1 | split; [exact H4 | split; [exact H2 | exact (proj2 H3)]]].
Defined.

Lemma reliable_lookups (e : environment) : reliable e -> lookups_reliable e.
Proof. intros H h. repeat split; intros; apply H. Qed.

(** Two invocations of the workflow on the same event, one after the
    other, when no collaborator rejects. *)
Lemma handleSimulateTradeRequest_twice (w : world) (userData : Event.t)
      (text twitterId safeAddress : str) :
  Event.messageText userData = Some text ->
  reliable (env w) ->
  resolves (env w) (Event.username userData) twitterId safeAddress ->
  let w1 := snd (handleSimulateTradeRequest userData w) in
  let w2 := snd (handleSimulateTradeRequest userData w1) in
  exists r1 r2,
    trade_simulations w2 = trade_simulations w ++ [r1; r2] /\
    carries_event r1 userData /\ carries_event r2 userData /\
    length (filter is_api_post (skipn (length (trace w)) (trace w2))) = 2%nat.
Proof.
  intros Htext Hrel Hres w1 w2.
  destruct (handleSimulateTradeRequest_run w userData Htext
              (reliable_lookups Hrel) Hres)
    as (pre1 & b1 & r1 & Htr1 & Hpre1 & Henv1 & _ & Hev1 & _ & _ & _ & _ & Hins1).
  rewrite Hrel in Hins1. destruct Hins1 as [_ Hst1].
  fold w1 in Htr1, Henv1, Hst1.
  assert (Hrel1 : reliable (env w1)) by now rewrite Henv1.
  assert (Hres1 : resolves (env w1) (Event.username userData)
                    twitterId safeAddress) by now rewrite Henv1.
  destruct (handleSimulateTradeRequest_run w1 userData Htext
              (reliable_lookups Hrel1) Hres1)
    as (pre2 & b2 & r2 & Htr2 & Hpre2 & _ & _ & Hev2 & _ & _ & _ & _ & Hins2).
  rewrite Hrel1 in Hins2. destruct Hins2 as [_ Hst2].
  fold w2 in Htr2, Hst2.
  exists r1, r2. split; [|split; [assumption | split; [assumption|]]].
  - rewrite Hst2, Hst1, <- app_assoc. reflexivity.
  - rewrite Htr2, Htr1, <- app_assoc, skipn_app_length.
    rewrite !filter_app, (lookup_not_api_post Hpre1),
      (lookup_not_api_post Hpre2). reflexivity.
Qed.

(** C10: every record in the collection has the status 'initiated', in
    every world the service can reach from an empty collection by sends,
    callback queries and invocations of the workflow, whatever the API
    answered; no record has the status 'success' or 'failed'. *)
Theorem records_stay_initiated (w : world) (r : Simulation.t) :
  reachable w -> In r (trade_simulations w) ->
  Simulation.status r = js "initiated" /\
  Simulation.status r <> js "success" /\
  Simulation.status r <> js "failed".
Proof.
  intros Hreach Hin.
  assert (Hinit : Simulation.status r = INITIATED).
  { revert r Hin. apply Forall_forall.
    induction Hreach as [e | w req _ IH]; [constructor|].
    assert (Hev : evolves (fun _ => True)
                    (fun r => Simulation.status r = INITIATED) w (serve req w)).
    { destruct req; simpl.
      - apply stable_sendMessage; auto.
      - apply stable_setupBotHandlers; auto.
      - apply stable_handleSimulateTradeRequest; auto. }
    destruct Hev as (_ & _ & (recs & -> & Hrecs) & _).
    now apply Forall_app. }
  rewrite Hinit. repeat split; vm_compute; discriminate.
Qed.

Lemma records_stay_initiated_witness :
  exists r,
    In r (trade_simulations
            (serve (Callback (click (js "alice")))
               (start (sample_env (Some success_response))))) /\
    Simulation.apiResponse r = Some success_response /\
    Simulation.status r = js "initiated".
Proof.
  eexists. split; [left; vm_compute; reflexivity|].
  split; [reflexivity|].
  refine (proj1 (@records_stay_initiated
            (serve (Callback (click (js "alice")))
               (start (sample_env (Some success_response)))) _
            (reachable_serve _ (reachable_start _)) _)).
  left. vm_compute. reflexivity.
Defined.

End WorkflowClaims.

(** ** The dispatcher *)

Section DispatcherClaims.

Local Open Scope js_scope.

(** The lookup of a user without a chat id throws, and throws the
    not-found error when the store itself answers. *)
Lemma findChatIdByUsername_absent (w : world) (username : str) :
  no_chat_id (env w) username ->
  exists e w1,
    findChatIdByUsername username w = (Throw e, w1) /\
    ((forall h, fault (env w) h MongoConnect = None /\
                fault (env w) h (UsersFindOne (Some username)) = None) ->
     e = NOT_FOUND).
Proof.
  intros Habs.
  assert (Hnf : forall (w0 : world), env w0 = env w ->
            exists e w1,
              (user <- await (UsersFindOne (Some username))
                         (fun w => users (env w) (Some username)) ;;
               match user with
               | Some u =>
                 match User.chatId u with
                 | Some chatId =>
                   if nonzero (Some chatId) then ret chatId else throw NOT_FOUND
                 | None => throw NOT_FOUND
                 end
               | None => throw NOT_FOUND
               end) w0 = (Throw e, w1) /\
              (fault (env w) (trace w0) (UsersFindOne (Some username)) = None ->
               e = NOT_FOUND)).
  { intros w0 Henv. unfold bind, await. rewrite Henv.
    destruct (fault (env w) (trace w0) (UsersFindOne (Some username))) eqn:F.
    - eexists _, _. split; [reflexivity | discriminate].
    - destruct Habs as [-> | (u & -> & ->)];
        eexists _, _; (split; [reflexivity | auto]). }
  unfold findChatIdByUsername.
  destruct (dbConnect_cases w) as [(w0 & Hrun & Henv) | (e & Hrun & Hf)].
  - erewrite catch_bind_return by exact Hrun.
    destruct (Hnf w0 Henv) as (e & w1 & Hrest & He).
    exists e, w1. unfold catch. rewrite Hrest.
    split; [reflexivity|]. intros Hf. apply He, Hf.
  - erewrite catch_bind_throw by exact Hrun.
    eexists _, _. split; [reflexivity|].
    intros Hno. destruct (Hno (trace w)) as [Hno1 _]. congruence.
Qed.

Lemma sendMessage_lookup_throw (w w1 : world) (username message : str) e :
  findChatIdByUsername (cleanUsername username) w = (Throw e, w1) ->
  snd (sendMessage username message w) = w1 /\
  exists e', fst (sendMessage username message w) = Throw e' /\
             (response e = None -> e' = e).
Proof.
  intros H. unfold sendMessage. cbv zeta.
  erewrite catch_bind_throw by exact H.
  destruct (response e) as [[d|]|]; simpl; split; try reflexivity;
    eexists; (split; [reflexivity|]); congruence.
Qed.

Lemma sendMessage_bullish_run (w w1 : world) (username message : str) chatId :
  isBullishSignal message = true ->
  findChatIdByUsername (cleanUsername username) w = (Return chatId, w1) ->
  snd (sendMessage username message w)
  = logged (TelegrafSendMessage chatId message
              [[simulateButton (clock (env w1) (trace w1))
                  (cleanUsername username)]]) w1.
Proof.
  intros Hb H. unfold sendMessage. cbv zeta.
  erewrite catch_bind_return by exact H. rewrite Hb.
  unfold catch, bind, Date_now, await, simulateButton.
  match goal with
  | |- context [fault ?a ?b ?c] => destruct (fault a b c) as [err|]
  end; simpl; [destruct (response err) as [[d|]|]|]; reflexivity.
Qed.

Lemma workflow_not_transport (e : event) :
  workflow_call e = true -> transport_call e = false.
Proof. now destruct e. Qed.

Lemma findChatIdByUsername_events (w : world) (username : str) :
  trace (snd (findChatIdByUsername username w))
  = trace w ++ events_of (findChatIdByUsername username) w /\
  Forall (fun e => transport_call e = false)
    (events_of (findChatIdByUsername username) w).
Proof.
  eapply events_of_evolves with (Prec := fun _ => True).
  apply stable_findChatIdByUsername. exact workflow_not_transport.
Qed.

Lemma toString_digits (n : N) :
  toString n <> [] /\ forallb digit (toString n) = true.
Proof.
  unfold toString.
  assert (H : forall d,
             forallb digit
               (map N_of_ascii
                  (list_ascii_of_string (NilEmpty.string_of_uint d))) = true).
  { induction d; simpl; auto. }
  destruct (N.to_uint n) as [|d|d|d|d|d|d|d|d|d|d] eqn:E;
    (split; [discriminate|]); try reflexivity;
    apply (H (Decimal.D0 d)) || apply (H (Decimal.D1 d))
    || apply (H (Decimal.D2 d)) || apply (H (Decimal.D3 d))
    || apply (H (Decimal.D4 d)) || apply (H (Decimal.D5 d))
    || apply (H (Decimal.D6 d)) || apply (H (Decimal.D7 d))
    || apply (H (Decimal.D8 d)) || apply (H (Decimal.D9 d)).
Qed.

(** C7: when the directory has no record for the normalized username, or a
    record without a chat id, [sendMessage] throws, and throws the not-found
    error of the lookup when the store itself answers; no call to the chat
    transport is made in that run, so no message goes out. *)
Theorem sendMessage_fails_closed (w : world) (username message : str) :
  no_chat_id (env w) (cleanUsername username) ->
  (exists e, fst (sendMessage username message w) = Throw e) /\
  filter transport_call (events_of (sendMessage username message) w) = [] /\
  filter outbound_message (events_of (sendMessage username message) w) = [] /\
  ((forall h, fault (env w) h MongoConnect = None /\
              fault (env w) h (UsersFindOne (Some (cleanUsername username))) = None) ->
   fst (sendMessage username message w) = Throw NOT_FOUND).
Proof.
  intros Habs.
  destruct (findChatIdByUsername_absent w Habs) as (e & w1 & Hrun & He).
  destruct (sendMessage_lookup_throw w username message Hrun)
    as (Hw & e' & He' & Hsame).
  destruct (findChatIdByUsername_events w (cleanUsername username))
    as [Htr Hquiet].
  assert (Hev : events_of (sendMessage username message) w
                = events_of (findChatIdByUsername (cleanUsername username)) w).
  { unfold events_of. now rewrite Hw, Hrun. }
  split; [eauto|]. rewrite Hev.
  split; [now apply filter_none|].
  split.
  - apply filter_none. eapply Forall_impl; [|exact Hquiet].
    intros [] H; simpl in *; congruence.
  - intros Hf. rewrite He'. f_equal.
    rewrite Hsame; rewrite (He Hf); reflexivity.
Qed.

Lemma sendMessage_fails_closed_witness :
  fst (sendMessage (js "unknown_user") scenarioA
         (start (sample_env None))) = Throw NOT_FOUND /\
  filter transport_call
    (events_of (sendMessage (js "unknown_user") scenarioA)
       (start (sample_env None))) = [].
Proof.
  assert (Habs : no_chat_id (env (start (sample_env None)))
                   (cleanUsername (js "unknown_user")))
    by (left; vm_compute; reflexivity).
  destruct (sendMessage_fails_closed (start (sample_env None))
              (js "unknown_user") scenarioA Habs) as (_ & H1 & _ & H2).
  split; [apply H2; intros h; split; reflexivity | exact H1].
Defined.

(** C4: when the message is classified actionable, the one call the
    dispatcher makes to the chat transport sends the message with a keyboard
    of exactly one button, whose callback payload is the correlation token
    simulate_trade_, the decimal digits of the current time in
    milliseconds, an underscore and the normalized username; nothing is sent
    when the lookup fails; and two tokens of the same millisecond for
    different normalized usernames differ. *)
Theorem action_control_sent (w : world) (username message : str) :
  isBullishSignal message = true ->
  let clean := cleanUsername username in
  let lookup := findChatIdByUsername clean w in
  let now := clock (env w) (trace (snd lookup)) in
  (forall chatId, fst lookup = Return chatId ->
     filter transport_call (events_of (sendMessage username message) w)
     = [TelegrafSendMessage chatId message
          [[ {| button_text := js "🚀 Simulate Trade";
                callback_data :=
                  js "simulate_trade_" ++ toString now ++ js "_" ++ clean |} ]]]) /\
  (forall e, fst lookup = Throw e ->
     filter transport_call (events_of (sendMessage username message) w) = []) /\
  (toString now <> [] /\ forallb digit (toString now) = true) /\
  (forall t u1 u2, u1 <> u2 -> correlationToken t u1 <> correlationToken t u2).
Proof.
  intros Hb clean lookup now.
  destruct (findChatIdByUsername_events w clean) as [Htr Hquiet].
  pose proof (@stable_findChatIdByUsername (fun _ => True)
                (fun _ => True) (fun _ _ => I) clean w) as (Henv & _).
  fold lookup in Htr, Henv.
  destruct lookup as [o w1] eqn:Hrun. cbn [fst snd] in *.
  repeat split.
  - intros chatId ->.
    pose proof (sendMessage_bullish_run w username message Hb Hrun) as Hw.
    rewrite Henv in Hw.
    set (btn := simulateButton _ _) in Hw.
    unfold events_of. rewrite Hw. cbn [logged trace].
    rewrite Htr, <- app_assoc, skipn_app_length, filter_app.
    rewrite (filter_none _ Hquiet). reflexivity.
  - intros e ->.
    destruct (sendMessage_lookup_throw w username message Hrun) as (Hw & _).
    unfold events_of. rewrite Hw, Htr, skipn_app_length.
    now apply filter_none.
  - apply toString_digits.
  - apply toString_digits.
  - intros t u1 u2 Hne Heq. apply Hne. unfold correlationToken in Heq.
    now repeat apply app_inv_head in Heq.
Qed.

Lemma action_control_sent_witness :
  filter transport_call
    (events_of (sendMessage (js "@alice") scenarioA) (start (sample_env None)))
  = [TelegrafSendMessage 42 scenarioA
       [[ {| button_text := js "🚀 Simulate Trade";
             callback_data := js "simulate_trade_1700000000002_alice" |} ]]].
Proof.
  exact (proj1 (@action_control_sent (start (sample_env None))
                  (js "@alice") scenarioA eq_refl) 42%Z eq_refl).
Defined.

End DispatcherClaims.

(** ** The callback handler *)

Section HandlerClaims.

Local Open Scope js_scope.

Lemma captureUserData_cases (ctx : Tg.context) (callbackData : str) (w : world) :
  (exists userData,
     captureUserData ctx callbackData w = (Return userData, w) /\
     Event.username userData
     = Tg.user_username (Tg.from (Tg.callbackQuery_of ctx)) /\
     Event.messageText userData = Tg.text (Tg.message_of (Tg.callbackQuery_of ctx)) /\
     Event.callbackData userData = callbackData /\
     Event.messageText userData <> None) \/
  (exists e, captureUserData ctx callbackData w = (Throw e, w) /\
             Tg.text (Tg.message_of (Tg.callbackQuery_of ctx)) = None).
Proof.
  unfold captureUserData, bind, Date_now. cbn.
  destruct (Tg.text (Tg.message_of (Tg.callbackQuery_of ctx))) eqn:E.
  - left. eexists. split; [reflexivity|]. cbn.
    repeat split; auto; discriminate.
  - right. eexists. split; reflexivity.
Qed.

(** The outer [catch] block only talks to the chat. *)
Lemma outer_handler_quiet (w : world) :
  evolves quiet (fun _ => False) w
    (snd ((answerError ;; await (Reply SORRY) (fun _ => tt)) w)).
Proof.
  assert (H : stable (evolves quiet (fun _ => False))
                (answerError ;; await (Reply SORRY) (fun _ => tt))).
  { unfold answerError. repeat stable_step; reflexivity. }
  apply H.
Qed.

(** Either the run never reaches the workflow, or it begins with the
    acknowledgment and the processing message, both accepted. *)
Lemma simulateTradeAction_order (ctx : Tg.context) (callbackData : str)
      (w : world) :
  exists evs,
    trace (snd (simulateTradeAction ctx callbackData w)) = trace w ++ evs /\
    (Forall quiet evs \/
     exists rest,
       evs = AnswerCbQuery PROCESSING_ACK :: Reply PROCESSING_MESSAGE :: rest /\
       fault (env w) (trace w) (AnswerCbQuery PROCESSING_ACK) = None /\
       fault (env w) (trace w ++ [AnswerCbQuery PROCESSING_ACK])
         (Reply PROCESSING_MESSAGE) = None).
Proof.
  unfold simulateTradeAction.
  destruct (captureUserData_cases ctx callbackData w)
    as [(userData & Hc & _) | (e & Hc & _)].
  - erewrite catch_bind_return by exact Hc.
    destruct (fault (env w) (trace w) (AnswerCbQuery PROCESSING_ACK)) eqn:F1.
    + erewrite catch_bind_throw by (apply await_fail; exact F1).
      destruct (outer_handler_quiet (logged (AnswerCbQuery PROCESSING_ACK) w))
        as (_ & (evs & Ht & Hq) & _).
      exists (AnswerCbQuery PROCESSING_ACK :: evs).
      rewrite Ht. cbn [logged trace]. rewrite <- app_assoc.
      split; [reflexivity|]. left. constructor; [reflexivity | assumption].
    + erewrite catch_bind_return by (apply await_ok; exact F1).
      set (w1 := logged (AnswerCbQuery PROCESSING_ACK) w).
      destruct (fault (env w1) (trace w1) (Reply PROCESSING_MESSAGE)) eqn:F2.
      * erewrite catch_bind_throw by (apply await_fail; exact F2).
        destruct (outer_handler_quiet (logged (Reply PROCESSING_MESSAGE) w1))
          as (_ & (evs & Ht & Hq) & _).
        exists (AnswerCbQuery PROCESSING_ACK :: Reply PROCESSING_MESSAGE :: evs).
        rewrite Ht. cbn [logged trace w1]. rewrite <- !app_assoc.
        split; [reflexivity|]. left.
        repeat (constructor; [reflexivity|]). assumption.
      * erewrite catch_bind_return by (apply await_ok; exact F2).
        set (w2 := logged (Reply PROCESSING_MESSAGE) w1).
        match goal with
        | |- context [catch ?m ?h w2] =>
          assert (Hst : stable (evolves (fun _ => True) (fun _ => True))
                          (catch m h))
        end.
        { unfold answerError, chat_id_of.
          repeat (stable_step || apply stable_handleSimulateTradeRequest_on
                  || apply stable_progressInterval);
            auto. }
        destruct (Hst w2) as (_ & (evs & Ht & _) & _).
        exists (AnswerCbQuery PROCESSING_ACK :: Reply PROCESSING_MESSAGE :: evs).
        rewrite Ht. cbn [logged trace w1 w2]. rewrite <- !app_assoc.
        split; [reflexivity|]. right. exists evs. auto.
  - erewrite catch_bind_throw by exact Hc.
    destruct (outer_handler_quiet w) as (_ & (evs & Ht & Hq) & _).
    exists evs. split; [exact Ht | now left].
Qed.

(** C9: in every run of the callback handlers, any call of the remote
    workflow (connection, identity lookup, API call, insertion) comes after
    the acknowledgment of the interaction and the posting of the processing
    message, in that order, both accepted by the transport. *)
Theorem acknowledged_before_workflow (ctx : Tg.context) (w : world)
        (before : list event) (e : event) (after : list event) :
  events_of (setupBotHandlers ctx) w = before ++ e :: after ->
  workflow_call e = true ->
  exists between,
    before = AnswerCbQuery (js "🔄 Processing trade simulation...")
             :: Reply PROCESSING_MESSAGE :: between /\
    fault (env w) (trace w) (AnswerCbQuery PROCESSING_ACK) = None /\
    fault (env w) (trace w ++ [AnswerCbQuery PROCESSING_ACK])
      (Reply PROCESSING_MESSAGE) = None.
Proof.
  intros Hev Hwf.
  assert (Hquiet : forall evs, Forall quiet evs -> evs = before ++ e :: after ->
                               False).
  { intros evs Hq ->. apply Forall_app in Hq as [_ Hq].
    inversion Hq as [|? ? He _]. unfold quiet in He. congruence. }
  unfold setupBotHandlers in Hev.
  destruct (match1 (Tg.data (Tg.callbackQuery_of ctx)) re_simulate_trade)
    as [callbackData|].
  - destruct (simulateTradeAction_order ctx callbackData w)
      as (evs & Ht & [Hq | (rest & -> & F1 & F2)]);
      rewrite (events_of_eq _ _ _ Ht) in Hev.
    + exfalso. eapply Hquiet; eauto.
    + destruct before as [|b1 [|b2 between]]; simpl in Hev.
      * injection Hev as <- _. discriminate.
      * injection Hev as <- <- _. discriminate.
      * injection Hev as <- <- _. exists between. auto.
  - exfalso. apply (Hquiet (events_of (await (AnswerCbQuery (js "Unknown action"))
                                        (fun _ => tt)) w)); [|exact Hev].
    eapply events_of_evolves with (Prec := fun _ => True).
    apply stable_await. reflexivity.
Qed.

Lemma acknowledged_before_workflow_witness :
  exists between,
    [AnswerCbQuery PROCESSING_ACK; Reply PROCESSING_MESSAGE; SetInterval]
    = AnswerCbQuery (js "🔄 Processing trade simulation...")
      :: Reply PROCESSING_MESSAGE :: between.
Proof.
  destruct (@acknowledged_before_workflow (click (js "alice"))
              (start (sample_env (Some success_response)))
              [AnswerCbQuery PROCESSING_ACK; Reply PROCESSING_MESSAGE; SetInterval]
              MongoConnect
              (skipn 4 (events_of (setupBotHandlers (click (js "alice")))
                          (start (sample_env (Some success_response))))))
    as (between & H & _).
  - vm_compute. reflexivity.
  - reflexivity.
  - exists between. exact H.
Defined.

Lemma filter_api_post_none (evs : list event) :
  Forall after_workflow evs -> filter is_api_post evs = [].
Proof.
  intros H. apply filter_none. eapply Forall_impl; [|exact H].
  now intros e [_ He].
Qed.

(** One run of the handler when no collaborator rejects: one API call, one
    record, which carries the payload of the button. *)
Lemma simulateTradeAction_run (ctx : Tg.context) (callbackData : str)
      (w : world) (text twitterId safeAddress : str) :
  Tg.text (Tg.message_of (Tg.callbackQuery_of ctx)) = Some text ->
  reliable (env w) ->
  resolves (env w) (Tg.user_username (Tg.from (Tg.callbackQuery_of ctx)))
    twitterId safeAddress ->
  exists r evs,
    let w' := snd (simulateTradeAction ctx callbackData w) in
    env w' = env w /\
    trade_simulations w' = trade_simulations w ++ [r] /\
    Simulation.callbackData r = callbackData /\
    trace w' = trace w ++ evs /\
    length (filter is_api_post evs) = 1%nat.
Proof.
  intros Htext Hrel Hres. unfold simulateTradeAction.
  destruct (captureUserData_cases ctx callbackData w)
    as [(userData & Hc & Hname & Hmsg & Hdata & _) | (e & _ & Hnone)];
    [|congruence].
  rewrite Htext in Hmsg. rewrite <- Hname in Hres.
  erewrite catch_bind_return by exact Hc.
  erewrite catch_bind_return by (apply await_ok; apply Hrel).
  set (w1 := logged (AnswerCbQuery PROCESSING_ACK) w).
  erewrite catch_bind_return by (apply await_ok; apply Hrel).
  set (w2 := logged (Reply PROCESSING_MESSAGE) w1).
  erewrite catch_bind_return by reflexivity.
  set (w3 := logged SetInterval w2).
  set (pm := created_message (env w1) (trace w1)).
  destruct (@handleSimulateTradeRequest_on_run _ _
              (background_progressInterval ctx pm) w3 userData
              text twitterId safeAddress Hmsg (reliable_lookups Hrel) Hres)
    as (before & body & r & mid & after
        & Htr & Hbefore & Hmid & Hafter & Henv & _ & Hev & _ & _ & _ & _ & Hins).
  cbv zeta in Htr, Henv.
  change (env w3) with (env w) in Hins. rewrite Hrel in Hins.
  destruct Hins as [Hret Hstore].
  destruct (handleSimulateTradeRequest_on (progressInterval ctx pm) userData w3)
    as [o w4] eqn:Hrun.
  cbn [fst snd] in *. subst o.
  erewrite catch_inner by (apply catch_bind_return; exact Hrun).
  match goal with
  | |- context [catch ?m ?h w4] =>
    assert (Hst : stable (evolves after_workflow (fun _ => False)) (catch m h))
  end.
  { unfold answerError, chat_id_of.
    repeat stable_step; split; reflexivity. }
  pose proof (Hst w4) as Hfin.
  pose proof (evolves_same_store Hfin) as Hsame.
  destruct Hfin as (Henv' & (evs & Ht & Hq) & _ & _).
  exists r, ([AnswerCbQuery PROCESSING_ACK; Reply PROCESSING_MESSAGE; SetInterval]
             ++ before ++ SignalApiPost body :: mid
             ++ SimulationsInsertOne r :: after ++ evs).
  cbv zeta. repeat split.
  - now rewrite Henv', Henv.
  - now rewrite Hsame, Hstore.
  - destruct Hev as (_ & _ & _ & _ & _ & _ & _ & _ & -> & _). exact Hdata.
  - rewrite Ht, Htr. cbn [w3 w2 w1 logged trace].
    rewrite <- !app_assoc. cbn [app]. rewrite <- !app_assoc. reflexivity.
  - cbn [app filter is_api_post].
    rewrite filter_app, (lookup_or_progress_not_api_post Hbefore).
    cbn [app filter is_api_post].
    rewrite filter_app, (progress_not_api_post Hmid).
    cbn [app filter is_api_post].
    rewrite filter_app, (progress_not_api_post Hafter),
      (filter_api_post_none Hq).
    reflexivity.
Qed.

(** C8: the workflow is not idempotent.  When no collaborator rejects,
    invoking it twice on the same interaction event makes two API calls and
    leaves two records, both carrying that event; and a callback query
    delivered twice (a replay of the same correlation token) is handled
    twice: two API calls, two records with the same payload.  Nothing the
    first run stores or sends changes the second. *)
Theorem workflow_not_idempotent (w : world) :
  reliable (env w) ->
  (forall userData text twitterId safeAddress,
     Event.messageText userData = Some text ->
     resolves (env w) (Event.username userData) twitterId safeAddress ->
     let w2 := serve (Simulate userData) (serve (Simulate userData) w) in
     exists r1 r2,
       trade_simulations w2 = trade_simulations w ++ [r1; r2] /\
       carries_event r1 userData /\ carries_event r2 userData /\
       length (filter is_api_post (skipn (length (trace w)) (trace w2)))
       = 2%nat) /\
  (forall ctx callbackData text twitterId safeAddress,
     match1 (Tg.data (Tg.callbackQuery_of ctx)) re_simulate_trade
     = Some callbackData ->
     Tg.text (Tg.message_of (Tg.callbackQuery_of ctx)) = Some text ->
     resolves (env w) (Tg.user_username (Tg.from (Tg.callbackQuery_of ctx)))
       twitterId safeAddress ->
     let w2 := serve (Callback ctx) (serve (Callback ctx) w) in
     exists r1 r2,
       trade_simulations w2 = trade_simulations w ++ [r1; r2] /\
       Simulation.callbackData r1 = callbackData /\
       Simulation.callbackData r2 = callbackData /\
       length (filter is_api_post (skipn (length (trace w)) (trace w2)))
       = 2%nat).
Proof.
  intros Hrel. split.
  - intros userData text twitterId safeAddress Htext Hres.
    exact (handleSimulateTradeRequest_twice w userData Htext Hrel Hres).
  - intros ctx callbackData text twitterId safeAddress Hm Htext Hres.
    cbn [serve]. unfold setupBotHandlers. rewrite Hm.
    destruct (simulateTradeAction_run ctx callbackData w Htext Hrel Hres)
      as (r1 & evs1 & Henv1 & Hst1 & Hd1 & Htr1 & Hn1).
    cbv zeta in *.
    set (w1 := snd (simulateTradeAction ctx callbackData w)) in *.
    assert (Hrel1 : reliable (env w1)) by now rewrite Henv1.
    assert (Hres1 : resolves (env w1)
                      (Tg.user_username (Tg.from (Tg.callbackQuery_of ctx)))
                      twitterId safeAddress) by now rewrite Henv1.
    destruct (simulateTradeAction_run ctx callbackData w1 Htext Hrel1 Hres1)
      as (r2 & evs2 & _ & Hst2 & Hd2 & Htr2 & Hn2).
    cbv zeta in *. exists r1, r2.
    split; [now rewrite Hst2, Hst1, <- app_assoc|].
    split; [assumption|]. split; [assumption|].
    rewrite Htr2, Htr1, <- app_assoc, skipn_app_length, filter_app, length_app.
    now rewrite Hn1, Hn2.
Qed.

Lemma workflow_not_idempotent_witness :
  exists r1 r2,
    trade_simulations
      (serve (Callback (click (js "alice")))
         (serve (Callback (click (js "alice")))
            (start (sample_env (Some success_response)))))
    = trade_simulations (start (sample_env (Some success_response)))
      ++ [r1; r2] /\
    Simulation.callbackData r1 = js "1700000000000_alice" /\
    Simulation.callbackData r2 = js "1700000000000_alice" /\
    length
      (filter is_api_post
         (skipn (length (trace (start (sample_env (Some success_response)))))
            (trace
               (serve (Callback (click (js "alice")))
                  (serve (Callback (click (js "alice")))
                     (start (sample_env (Some success_response))))))))
    = 2%nat.
Proof.
  assert (Hm : match1 (Tg.data (Tg.callbackQuery_of (click (js "alice"))))
                 re_simulate_trade = Some (js "1700000000000_alice"))
    by (vm_compute; reflexivity).
  assert (Ht : Tg.text (Tg.message_of (Tg.callbackQuery_of (click (js "alice"))))
               = Some scenarioA) by reflexivity.
  exact (proj2 (@workflow_not_idempotent
                  (start (sample_env (Some success_response)))
                  (fun _ _ => eq_refl))
           (click (js "alice")) (js "1700000000000_alice") scenarioA
           (js "alice_tw") (js "0xA11CE") Hm Ht (sample_resolves _)).
Defined.

End HandlerClaims.

(* ===================================================================== *)
(** * Further properties of the service *)
(* ===================================================================== *)

(** ** What the patterns can match *)

Section RegexSoundness.

Local Open Scope N_scope.

Lemma star_sound (p : N -> bool) (s : str) caps (k : cont) res :
  bt (Star p) s caps k = Some res ->
  exists xs rest,
    s = xs ++ rest /\ forallb p xs = true /\ k rest caps = Some res.
Proof.
  simpl bt. induction s as [|c s IH]; simpl.
  - intros H. now exists [], [].
  - destruct (p c) eqn:Hc.
    + destruct (star p s caps k) as [r|] eqn:E.
      * intros [= <-]. destruct (IH eq_refl) as (xs & rest & -> & Hxs & Hk).
        exists (c :: xs), rest. simpl. now rewrite Hc, Hxs.
      * intros H. now exists [], (c :: s).
    + intros H. now exists [], (c :: s).
Qed.

Lemma lit_sound (l s : str) caps (k : cont) res :
  bt (Lit l) s caps k = Some res ->
  exists rest, s = l ++ rest /\ k rest caps = Some res.
Proof.
  simpl. destruct (startsWith l s) eqn:E; [|discriminate].
  apply startsWith_inv in E as [t ->]. rewrite skipn_length_app. eauto.
Qed.

Lemma cls_sound (p : N -> bool) (s : str) caps (k : cont) res :
  bt (Cls p) s caps k = Some res ->
  exists c rest, s = c :: rest /\ p c = true /\ k rest caps = Some res.
Proof.
  simpl. destruct s as [|c s]; [discriminate|].
  destruct (p c) eqn:E; [|discriminate]. eauto.
Qed.

Lemma plus_sound (p : N -> bool) (s : str) caps (k : cont) res :
  bt (Plus p) s caps k = Some res ->
  exists c xs rest,
    s = (c :: xs) ++ rest /\ p c = true /\ forallb p xs = true /\
    k rest caps = Some res.
Proof.
  unfold Plus. rewrite bt_seq_eq. intros H.
  apply cls_sound in H as (c & s1 & -> & Hc & H).
  apply star_sound in H as (xs & rest & -> & Hxs & H).
  now exists c, xs, rest.
Qed.

Lemma opt_lit_sound (l s : str) caps (k : cont) res :
  bt (Opt (Lit l)) s caps k = Some res ->
  exists o rest, (o = [] \/ o = l) /\ s = o ++ rest /\ k rest caps = Some res.
Proof.
  change (bt (Opt (Lit l)) s caps k)
    with (match bt (Lit l) s caps k with
          | Some r => Some r | None => k s caps end).
  destruct (bt (Lit l) s caps k) as [r|] eqn:E.
  - intros [= <-]. apply lit_sound in E as (rest & -> & H).
    exists l, rest. auto.
  - intros H. exists [], s. auto.
Qed.

Lemma group_sound (r : regex) (s : str) caps (k : cont) res
      (P : str -> Prop) :
  (forall kg, bt r s caps kg = Some res ->
              exists g rest, s = g ++ rest /\ P g /\ kg rest caps = Some res) ->
  bt (Group r) s caps k = Some res ->
  exists g rest, s = g ++ rest /\ P g /\ k rest (caps ++ [g]) = Some res.
Proof.
  intros Hr H. rewrite bt_group_eq in H.
  destruct (Hr _ H) as (g & rest & -> & Hg & Hk).
  cbv beta in Hk. rewrite firstn_length_app in Hk. eauto.
Qed.

Lemma span_app (p : N -> bool) (a b : str) :
  forallb p a = true -> stops p b = true -> span p (a ++ b) = (a, b).
Proof.
  intros Ha Hb. induction a as [|c a IH]; simpl in *.
  - destruct b as [|c b]; simpl in *; [reflexivity|].
    apply negb_true_iff in Hb. now rewrite Hb.
  - apply andb_true_iff in Ha as [Hc Ha]. now rewrite Hc, (IH Ha).
Qed.

Lemma span_all (p : N -> bool) (a : str) :
  forallb p a = true -> span p a = (a, []).
Proof.
  intros Ha. rewrite <- (app_nil_r a) at 1. now apply span_app.
Qed.

(** What the numeral group takes is a numeral. *)
Lemma numeral_group_sound (s : str) caps (k : cont) res :
  bt (Group (Seq (Plus digit) (Seq (Opt (Lit (js "."))) (Star digit))))
    s caps k = Some res ->
  exists n rest,
    s = n ++ rest /\ numeral n = true /\ k rest (caps ++ [n]) = Some res.
Proof.
  apply group_sound. intros kg H.
  rewrite bt_seq_eq in H.
  apply plus_sound in H as (d & ip & s1 & -> & Hd & Hip & H).
  rewrite bt_seq_eq in H.
  apply opt_lit_sound in H as (o & s2 & Ho & -> & H).
  apply star_sound in H as (fp & rest & -> & Hfp & H).
  exists ((d :: ip) ++ o ++ fp), rest.
  split; [now rewrite <- !app_assoc|]. split; [|assumption].
  unfold numeral. destruct Ho as [-> | ->].
  - rewrite span_all; [reflexivity|].
    simpl. rewrite Hd. simpl. rewrite forallb_app. now rewrite Hip, Hfp.
  - rewrite span_app; [| simpl; now rewrite Hd | reflexivity].
    simpl. now rewrite Hfp.
Qed.

Lemma price_tail_sound (s : str) (caps : list str) :
  bt price_tail s [] accept = Some caps ->
  exists ws dollar n rest,
    s = ws ++ dollar ++ n ++ rest /\ forallb space ws = true /\
    (dollar = [] \/ dollar = js "$") /\ numeral n = true /\ caps = [n].
Proof.
  unfold price_tail. rewrite bt_seq_eq. intros H.
  apply star_sound in H as (ws & s1 & -> & Hws & H).
  rewrite bt_seq_eq in H.
  apply opt_lit_sound in H as (dollar & s2 & Hd & -> & H).
  apply numeral_group_sound in H as (n & rest & -> & Hn & H).
  injection H as <-. now exists ws, dollar, n, rest.
Qed.

Lemma exec_sound (r : regex) (s : str) (caps : list str) :
  exec r s = Some caps ->
  exists pre s', s = pre ++ s' /\ bt r s' [] accept = Some caps.
Proof.
  induction s as [|c s IH]; rewrite exec_eq.
  - destruct (bt r [] [] accept) eqn:E; [|discriminate].
    intros [= <-]. now exists [], [].
  - destruct (bt r (c :: s) [] accept) eqn:E.
    + intros [= <-]. now exists [], (c :: s).
    + intros H. destruct (IH H) as (pre & s' & -> & Hm).
      now exists (c :: pre), s'.
Qed.

(** A price is only read from a numeral that directly follows an
    occurrence of its label. *)
Lemma match1_price_sound (label msg n : str) :
  match1 msg (re_price label) = Some n ->
  exists pre ws dollar rest,
    msg = pre ++ label ++ ws ++ dollar ++ n ++ rest /\
    forallb space ws = true /\ (dollar = [] \/ dollar = js "$") /\
    numeral n = true.
Proof.
  unfold match1. destruct (exec (re_price label) msg) as [caps|] eqn:E;
    [|discriminate].
  apply exec_sound in E as (pre & s' & -> & Hm).
  unfold re_price in Hm. rewrite bt_seq_eq in Hm.
  apply lit_sound in Hm as (s1 & -> & Hm).
  apply price_tail_sound in Hm as (ws & dollar & n' & rest & -> & Hws & Hd & Hn & ->).
  intros [= <-]. now exists pre, ws, dollar, rest.
Qed.

Lemma match1_token_sound (msg tok : str) :
  match1 msg re_token = Some tok ->
  exists pre ws1 ws2 rest,
    msg = pre ++ TOKEN_LABEL ++ ws1 ++ tok ++ ws2 ++ js "(" ++ rest /\
    forallb space ws1 = true /\ forallb space ws2 = true /\
    tok <> [] /\ forallb upper tok = true.
Proof.
  unfold match1. destruct (exec re_token msg) as [caps|] eqn:E;
    [|discriminate].
  apply exec_sound in E as (pre & s' & -> & Hm).
  unfold re_token in Hm. rewrite bt_seq_eq in Hm.
  apply lit_sound in Hm as (s1 & -> & Hm).
  rewrite bt_seq_eq in Hm.
  apply star_sound in Hm as (ws1 & s2 & -> & Hws1 & Hm).
  rewrite bt_seq_eq in Hm.
  apply (@group_sound _ _ _ _ _ (fun g => g <> [] /\ forallb upper g = true)) in Hm.
  - destruct Hm as (g & s3 & -> & [Hne Hup] & Hm).
    rewrite bt_seq_eq in Hm.
    apply star_sound in Hm as (ws2 & s4 & -> & Hws2 & Hm).
    apply lit_sound in Hm as (rest & -> & Hm).
    injection Hm as <-. intros [= <-].
    now exists pre, ws1, ws2, rest.
  - intros kg H. apply plus_sound in H as (c & xs & rest & -> & Hc & Hxs & H).
    exists (c :: xs), rest. repeat split; auto; [discriminate|].
    simpl. now rewrite Hc, Hxs.
Qed.

End RegexSoundness.

(** ** The parser, read backwards: what a found field tells *)

Section ParserSoundness.

Lemma parseFloat_numeral (n : str) :
  numeral n = true -> exists q, parseFloat n = Num q /\ (0 <= q)%Q.
Proof.
  unfold numeral, parseFloat.
  destruct (span digit n) as [[|d ip] r]; [discriminate|]. intros _.
  eexists. split; [reflexivity|].
  unfold Qle. cbn [Qnum Qden]. rewrite Z.mul_0_l, Z.mul_1_r.
  apply N2Z.is_nonneg.
Qed.

Lemma price_field_read (label msg : str) (v : number) :
  option_map parseFloat (match1 msg (re_price label)) = Some v ->
  price_read label msg v.
Proof.
  destruct (match1 msg (re_price label)) as [n|] eqn:E; [|discriminate].
  intros [= <-].
  apply match1_price_sound in E as (pre & ws & dollar & rest & -> & Hws & Hd & Hn).
  destruct (parseFloat_numeral n Hn) as (q & Hq & Hpos).
  exists pre, ws, dollar, n, rest, q. auto 10.
Qed.

(** X3.  Whatever the text, a field the parser reports was read from the
    text at an occurrence of its label: a price is the value of an unsigned
    decimal numeral that follows the label (after optional white space and an
    optional dollar sign), so it is a number, never NaN, and not negative; a
    token is a non-empty run of upper-case letters between the token label
    and an opening parenthesis. *)
Theorem parsed_fields_sound (msg : str) :
  (forall tok, token (parseSignalMessage msg) = Some tok -> token_read tok msg) /\
  (forall v, tp1 (parseSignalMessage msg) = Some v -> price_read TP1_LABEL msg v) /\
  (forall v, tp2 (parseSignalMessage msg) = Some v -> price_read TP2_LABEL msg v) /\
  (forall v, sl (parseSignalMessage msg) = Some v -> price_read SL_LABEL msg v) /\
  (forall v, entryPrice (parseSignalMessage msg) = Some v ->
             price_read ENTRY_LABEL msg v).
Proof.
  repeat split; simpl; intros v H;
    try (now apply price_field_read).
  apply match1_token_sound in H as (pre & ws1 & ws2 & rest & H).
  now exists pre, ws1, ws2, rest.
Qed.

Lemma parsed_fields_sound_witness : price_read TP1_LABEL scenarioA (Num 11.37).
Proof.
  assert (H : tp1 (parseSignalMessage scenarioA) = Some (Num 11.37))
    by (vm_compute; reflexivity).
  exact (proj1 (proj2 (parsed_fields_sound scenarioA)) (Num 11.37) H).
Defined.

Lemma price_read_nonneg (label msg : str) (v : number) :
  price_read label msg v -> exists q, v = Num q /\ (0 <= q)%Q.
Proof. intros (pre & ws & dollar & n & rest & q & H). exists q. tauto. Qed.

Lemma truthy_positive (q : Q) :
  (0 <= q)%Q -> truthy (Some (Num q)) = true -> (0 < q)%Q.
Proof.
  simpl. intros Hq H. apply negb_true_iff in H.
  destruct (Qlt_le_dec 0 q) as [Hlt | Hle]; [assumption|].
  assert (Heq : (q == 0)%Q) by (apply Qle_antisym; assumption).
  apply Qeq_bool_iff in Heq. congruence.
Qed.

(** X4.  The price estimate that goes to the API for a parsed message is
    either null or a positive number: it is never zero, negative or NaN. *)
Theorem estimate_of_parsed_positive (msg : str) :
  currentPrice (parseSignalMessage msg) = None \/
  exists q, currentPrice (parseSignalMessage msg) = Some (Num q) /\ (0 < q)%Q.
Proof.
  assert (H1 : forall v, tp1 (parseSignalMessage msg) = Some v ->
                         price_read TP1_LABEL msg v)
    by (intros v; apply price_field_read).
  assert (Hs : forall v, sl (parseSignalMessage msg) = Some v ->
                         price_read SL_LABEL msg v)
    by (intros v; apply price_field_read).
  assert (He : forall v, entryPrice (parseSignalMessage msg) = Some v ->
                         price_read ENTRY_LABEL msg v)
    by (intros v; apply price_field_read).
  unfold currentPrice.
  destruct (truthy (entryPrice (parseSignalMessage msg))) eqn:Te.
  - destruct (entryPrice (parseSignalMessage msg)) as [v|]; [|discriminate].
    destruct (price_read_nonneg (He v eq_refl)) as (q & -> & Hq).
    right. exists q. split; [reflexivity | now apply truthy_positive].
  - destruct (truthy (tp1 (parseSignalMessage msg))) eqn:T1; [|now left].
    destruct (truthy (sl (parseSignalMessage msg))) eqn:Ts; [|now left].
    destruct (tp1 (parseSignalMessage msg)) as [a|]; [|discriminate].
    destruct (sl (parseSignalMessage msg)) as [b|]; [|discriminate].
    destruct (price_read_nonneg (H1 a eq_refl)) as (qa & -> & Ha).
    destruct (price_read_nonneg (Hs b eq_refl)) as (qb & -> & Hb).
    apply truthy_positive in T1; [|assumption].
    apply truthy_positive in Ts; [|assumption].
    right. exists ((qa + qb) / 2)%Q. split; [reflexivity|].
    apply Qlt_shift_div_l; [reflexivity|].
    rewrite Qmult_0_l. rewrite <- (Qplus_0_l 0).
    apply Qplus_lt_le_compat; [assumption | now apply Qlt_le_weak].
Qed.

End ParserSoundness.

(** ** Correlation tokens and the routing of callback queries *)

Section Routing.

Local Open Scope N_scope.

Lemma digit_dot (c : N) : digit c = true -> dot c = true.
Proof.
  intros H%digit_bounds. unfold dot. apply negb_true_iff.
  rewrite !orb_false_iff, !N.eqb_neq. lia.
Qed.

Lemma forallb_digit_dot (s : str) :
  forallb digit s = true -> forallb dot s = true.
Proof.
  induction s as [|c s IH]; simpl; [reflexivity|].
  intros [Hc Hs]%andb_true_iff. now rewrite (digit_dot c Hc), IH.
Qed.

(** X1.  The token the dispatcher puts on the button is matched by the
    pattern of the simulate-trade action, and the handler receives what
    follows the prefix, the milliseconds, an underscore and the username, up
    to the first line terminator of the username if it has one; so a callback
    query that carries such a token is handled by the simulate-trade
    handler, not by the catch-all. *)
Theorem token_routed (now : N) (username : str) :
  match1 (correlationToken now username) re_simulate_trade
  = Some (toString now ++ js "_" ++ fst (span dot username)) /\
  (forallb dot username = true ->
   match1 (correlationToken now username) re_simulate_trade
   = Some (toString now ++ js "_" ++ username)) /\
  (forall ctx,
     Tg.data (Tg.callbackQuery_of ctx) = correlationToken now username ->
     setupBotHandlers ctx
     = simulateTradeAction ctx
         (toString now ++ js "_" ++ fst (span dot username))).
Proof.
  assert (H : match1 (correlationToken now username) re_simulate_trade
              = Some (toString now ++ js "_" ++ fst (span dot username))).
  { destruct (span dot username) as [a b] eqn:E.
    apply span_spec in E as (-> & Ha & Hb). cbn [fst].
    destruct (toString_digits now) as [Hne Hdig].
    destruct (toString now) as [|c ds] eqn:Et; [contradiction|].
    simpl in Hdig. apply andb_true_iff in Hdig as [Hc Hds].
    unfold match1, correlationToken, re_simulate_trade. rewrite Et.
    rewrite exec_eq, bt_seq_eq, bt_lit.
    replace ((c :: ds) ++ js "_" ++ a ++ b)
      with (((c :: ds) ++ js "_" ++ a) ++ b) by now rewrite <- !app_assoc.
    assert (Hbt : bt (Group (Plus dot)) (((c :: ds) ++ js "_" ++ a) ++ b)
                    [] accept = Some [(c :: ds) ++ js "_" ++ a]).
    { apply bt_group_take; [|reflexivity].
      intros kg Hkg.
      change ((c :: ds) ++ js "_" ++ a) with ((c :: ds ++ js "_" ++ a)).
      apply (bt_plus_greedy dot c (ds ++ js "_" ++ a) b); auto.
      - now apply digit_dot.
      - rewrite !forallb_app, (forallb_digit_dot ds Hds), Ha. reflexivity. }
    now rewrite Hbt. }
  split; [exact H|]. split.
  - intros Hu. rewrite H. now rewrite (span_all dot username Hu).
  - intros ctx Hd. unfold setupBotHandlers. now rewrite Hd, H.
Qed.

(** X2.  A callback query whose payload does not contain the prefix of
    the simulate-trade action is only acknowledged as an unknown action:
    that is the single call, and nothing is stored. *)
Theorem unknown_payload_acknowledged (ctx : Tg.context) (w : world) :
  includes (Tg.data (Tg.callbackQuery_of ctx)) (js "simulate_trade_") = false ->
  events_of (setupBotHandlers ctx) w = [AnswerCbQuery (js "Unknown action")] /\
  trade_simulations (snd (setupBotHandlers ctx w)) = trade_simulations w.
Proof.
  intros H. unfold setupBotHandlers, re_simulate_trade.
  rewrite match1_absent by exact H.
  unfold events_of, await.
  destruct (fault (env w) (trace w) (AnswerCbQuery (js "Unknown action")));
    cbn [snd logged trace trade_simulations];
    now rewrite skipn_app_length.
Qed.

Lemma unknown_payload_acknowledged_witness :
  events_of
    (setupBotHandlers
       {| Tg.chat_of := None;
          Tg.callbackQuery_of :=
            {| Tg.id := js "cq_2";
               Tg.from := {| Tg.user_id := 7%Z; Tg.user_username := None |};
               Tg.message_of :=
                 {| Tg.message_id := 1%Z; Tg.text := None; Tg.date := None |};
               Tg.chat_instance := None;
               Tg.data := js "other_action" |} |})
    (start (sample_env None))
  = [AnswerCbQuery (js "Unknown action")].
Proof.
  refine (proj1 (@unknown_payload_acknowledged _ (start (sample_env None)) _)).
  vm_compute. reflexivity.
Defined.

End Routing.

(** ** The dispatcher: plain messages, results and errors *)

Section DispatcherRuns.

Local Open Scope js_scope.

Lemma sendMessage_handler (err : error) (w : world) :
  (match response err with
   | Some (Some d) => throw (Error (js "Telegram API Error: " ++ interpolate (Some d)))
   | Some None =>
     throw (TypeError (js "Cannot read properties of undefined (reading 'description')"))
   | None => throw err
   end : M delivery) w = (Throw (surfaced err), w).
Proof. unfold surfaced. now destruct (response err) as [[d|]|]. Qed.

Lemma sendMessage_bullish_outcome (w w1 : world) (username message : str) chatId :
  isBullishSignal message = true ->
  findChatIdByUsername (cleanUsername username) w = (Return chatId, w1) ->
  fst (sendMessage username message w)
  = match fault (env w1) (trace w1)
            (TelegrafSendMessage chatId message
               [[simulateButton (clock (env w1) (trace w1))
                   (cleanUsername username)]]) with
    | Some err => Throw (surfaced err)
    | None =>
      Return {| ok := true;
                result_message := Some (created_message (env w1) (trace w1));
                description :=
                  Some (js "Message sent successfully with inline keyboard") |}
    end.
Proof.
  intros Hb H. unfold sendMessage. cbv zeta.
  erewrite catch_bind_return by exact H. rewrite Hb.
  unfold catch, bind, Date_now, await, simulateButton.
  match goal with
  | |- context [fault ?a ?b ?c] => destruct (fault a b c) as [err|]
  end; [|reflexivity].
  cbn [fst]. now rewrite sendMessage_handler.
Qed.

Lemma sendMessage_plain_run (w w1 : world) (username message : str) chatId :
  isBullishSignal message = false ->
  findChatIdByUsername (cleanUsername username) w = (Return chatId, w1) ->
  sendMessage username message w
  = (match fault (env w1) (trace w1) (AxiosSendMessage chatId message) with
     | Some err => Throw (surfaced err)
     | None =>
       if axios_ok (env w1) (trace w1) then
         Return {| ok := true;
                   result_message := Some (created_message (env w1) (trace w1));
                   description := axios_description (env w1) (trace w1) |}
       else
         Throw (Error (js "Telegram API Error: "
                       ++ interpolate (axios_description (env w1) (trace w1))))
     end,
     logged (AxiosSendMessage chatId message) w1).
Proof.
  intros Hb H. unfold sendMessage. cbv zeta.
  erewrite catch_bind_return by exact H. rewrite Hb.
  unfold catch, bind, await.
  destruct (fault (env w1) (trace w1) (AxiosSendMessage chatId message))
    as [err|].
  - now rewrite sendMessage_handler.
  - cbn [ok negb]. destruct (axios_ok (env w1) (trace w1)); reflexivity.
Qed.

Lemma findChatIdByUsername_env (w : world) (username : str) :
  env (snd (findChatIdByUsername username w)) = env w /\
  trade_simulations (snd (findChatIdByUsername username w)) = trade_simulations w.
Proof.
  assert (H : stable (evolves (fun _ => True) (fun _ => False))
                (findChatIdByUsername username)).
  { unfold findChatIdByUsername. repeat stable_step; auto. }
  split; [apply H | apply (evolves_same_store (H w))].
Qed.

(** The chat lookup talks to the store only: the connection and the query
    for the user. *)
Lemma findChatIdByUsername_calls (w : world) (username : str) :
  Forall (chat_lookup_event username)
    (events_of (findChatIdByUsername username) w).
Proof.
  eapply events_of_evolves with (Prec := fun _ => True).
  assert (H : stable (evolves (chat_lookup_event username) (fun _ => True))
                (findChatIdByUsername username)).
  { unfold findChatIdByUsername, chat_lookup_event.
    repeat stable_step; auto. }
  apply H.
Qed.

(** X5.  A message that is not classified bullish goes out, once the chat
    id is found, by one call to the sendMessage endpoint of the Bot API with
    the chat id and the text, and no keyboard; the result is the answer of
    the API when it reports ok, an error 'Telegram API Error: ' with the
    description of the answer when it does not, and the surfaced form of the
    error when the request itself fails. *)
Theorem plain_message_sent (w : world) (username message : str) (chatId : Z) :
  isBullishSignal message = false ->
  fst (findChatIdByUsername (cleanUsername username) w) = Return chatId ->
  let history := trace (snd (findChatIdByUsername (cleanUsername username) w)) in
  filter transport_call (events_of (sendMessage username message) w)
  = [AxiosSendMessage chatId message] /\
  fst (sendMessage username message w)
  = match fault (env w) history (AxiosSendMessage chatId message) with
    | Some err => Throw (surfaced err)
    | None =>
      if axios_ok (env w) history then
        Return {| ok := true;
                  result_message := Some (created_message (env w) history);
                  description := axios_description (env w) history |}
      else
        Throw (Error (js "Telegram API Error: "
                      ++ interpolate (axios_description (env w) history)))
    end.
Proof.
  intros Hb Hfst history.
  destruct (findChatIdByUsername_events w (cleanUsername username))
    as [Htr Hquiet].
  destruct (findChatIdByUsername_env w (cleanUsername username)) as [Henv _].
  subst history.
  destruct (findChatIdByUsername (cleanUsername username) w) as [o w1] eqn:Hrun.
  cbn [fst snd] in *. subst o.
  unfold events_of.
  rewrite (sendMessage_plain_run w username message Hb Hrun).
  cbn [fst snd logged trace]. rewrite Henv. split; [|reflexivity].
  rewrite Htr, <- app_assoc, skipn_app_length, filter_app.
  now rewrite (filter_none _ Hquiet).
Qed.

Lemma plain_message_sent_witness :
  filter transport_call
    (events_of (sendMessage (js "alice") (js "plain update, no signal"))
       (start (sample_env None)))
  = [AxiosSendMessage 42 (js "plain update, no signal")].
Proof.
  exact (proj1 (@plain_message_sent (start (sample_env None)) (js "alice")
                  (js "plain update, no signal") 42%Z eq_refl eq_refl)).
Defined.

(** X6.  The result of sending a bullish message, once the chat id is
    found: the success envelope with the created message when the transport
    accepts the send, and the surfaced form of its error when it rejects. *)
Theorem bullish_message_result (w : world) (username message : str) (chatId : Z) :
  isBullishSignal message = true ->
  fst (findChatIdByUsername (cleanUsername username) w) = Return chatId ->
  let history := trace (snd (findChatIdByUsername (cleanUsername username) w)) in
  fst (sendMessage username message w)
  = match fault (env w) history
            (TelegrafSendMessage chatId message
               [[simulateButton (clock (env w) history)
                   (cleanUsername username)]]) with
    | Some err => Throw (surfaced err)
    | None =>
      Return {| ok := true;
                result_message := Some (created_message (env w) history);
                description :=
                  Some (js "Message sent successfully with inline keyboard") |}
    end.
Proof.
  intros Hb Hfst history.
  destruct (findChatIdByUsername_env w (cleanUsername username)) as [Henv _].
  subst history.
  destruct (findChatIdByUsername (cleanUsername username) w) as [o w1] eqn:Hrun.
  cbn [fst snd] in *. subst o.
  rewrite (sendMessage_bullish_outcome w username message Hb Hrun).
  now rewrite Henv.
Qed.

Lemma bullish_message_result_witness :
  fst (sendMessage (js "@alice") scenarioA (start (sample_env None)))
  = Return {| ok := true;
              result_message := Some 2%Z;
              description :=
                Some (js "Message sent successfully with inline keyboard") |}.
Proof.
  exact (@bullish_message_result (start (sample_env None)) (js "@alice")
           scenarioA 42%Z eq_refl eq_refl).
Defined.

(** X7.  Whatever happens, a call of [sendMessage] makes at most one call
    to the chat transport (no retry), every other call it makes is the
    connection to the store or the query for the normalized username, and it
    leaves the collection of simulations as it was. *)
Theorem sendMessage_single_attempt (w : world) (username message : str) :
  (length (filter transport_call (events_of (sendMessage username message) w))
   <= 1)%nat /\
  Forall (fun e => chat_lookup_event (cleanUsername username) e \/
                   transport_call e = true)
    (events_of (sendMessage username message) w) /\
  trade_simulations (snd (sendMessage username message w)) = trade_simulations w.
Proof.
  destruct (findChatIdByUsername_events w (cleanUsername username))
    as [Htr Hquiet].
  pose proof (findChatIdByUsername_calls w (cleanUsername username)) as Hcalls.
  destruct (findChatIdByUsername_env w (cleanUsername username)) as [_ Hst].
  assert (Hleft : Forall (fun e => chat_lookup_event (cleanUsername username) e \/
                                   transport_call e = true)
                    (events_of (findChatIdByUsername (cleanUsername username)) w))
    by (eapply Forall_impl; [|exact Hcalls]; auto).
  destruct (findChatIdByUsername (cleanUsername username) w)
    as [[chatId|e] w1] eqn:Hrun; cbn [snd] in *.
  - destruct (isBullishSignal message) eqn:Hb.
    + pose proof (sendMessage_bullish_run w username message Hb Hrun) as Hw.
      unfold events_of. rewrite Hw. cbn [logged trace trade_simulations].
      rewrite Htr, <- app_assoc, skipn_app_length, filter_app.
      rewrite (filter_none _ Hquiet). repeat split; auto.
      apply Forall_app. split; [assumption|]. constructor; auto.
    + unfold events_of.
      rewrite (sendMessage_plain_run w username message Hb Hrun).
      cbn [snd logged trace trade_simulations].
      rewrite Htr, <- app_assoc, skipn_app_length, filter_app.
      rewrite (filter_none _ Hquiet). repeat split; auto.
      apply Forall_app. split; [assumption|]. constructor; auto.
  - destruct (sendMessage_lookup_throw w username message Hrun) as (Hw & _).
    unfold events_of. rewrite Hw, Htr, skipn_app_length.
    rewrite (filter_none _ Hquiet). repeat split; auto.
Qed.

End DispatcherRuns.

(** ** Identity resolution and the shape of a workflow run *)

Section WorkflowRuns.

Local Open Scope js_scope.

Lemma fetchUserData_returns_resolved (w : world) (username : option str)
      (twitterId safeAddress : str) :
  fst (fetchUserData username w) = Return (twitterId, safeAddress) ->
  resolves (env w) username twitterId safeAddress.
Proof.
  unfold fetchUserData.
  destruct (dbConnect_cases w) as [(w0 & Hrun & Henv) | (e & Hrun & Hf)].
  - erewrite catch_bind_return by exact Hrun.
    unfold catch, bind, await, rethrow, throw, ret. rewrite Henv.
    destruct (fault (env w) (trace w0) (UsersFindOne username));
      [discriminate|].
    destruct (users (env w) username) as [u|] eqn:Hu; [|discriminate].
    destruct (User.twitterId u) as [[|c tw]|] eqn:Htw; cbn; try discriminate.
    match goal with
    | |- context [fault ?a ?b ?c] => destruct (fault a b c)
    end; cbn; [discriminate|]. rewrite Henv.
    destruct (safes (env w) (c :: tw)) as [sf|] eqn:Hsf; cbn; [|discriminate].
    destruct (Safe.arbitrum_address sf) as [[|d addr]|] eqn:Ha; cbn;
      try discriminate.
    intros [= <- <-]. exists u, sf. repeat split; auto; discriminate.
  - erewrite catch_bind_throw by exact Hrun. discriminate.
Qed.

(** X8.  [fetchUserData] resolves only what the directory holds: when it
    returns an identity and an address, the users collection links the chat
    user to that non-empty identity and the safes collection links the
    identity to that non-empty arbitrum address. *)
Theorem fetchUserData_sound (w : world) (username : option str)
        (twitterId safeAddress : str) :
  fst (fetchUserData username w) = Return (twitterId, safeAddress) ->
  resolves (env w) username twitterId safeAddress.
Proof. apply fetchUserData_returns_resolved. Qed.

Lemma fetchUserData_sound_witness :
  resolves (env (start (sample_env None))) (Some (js "alice"))
    (js "alice_tw") (js "0xA11CE").
Proof.
  apply (@fetchUserData_sound (start (sample_env None)) (Some (js "alice"))).
  vm_compute. reflexivity.
Defined.

(** X9.  The two stages of identity resolution fail apart, when the store
    answers: a chat user without a record or without a trading identity
    gives the error that names the Telegram username, and the safes
    collection is not queried; an identity without a safe or without an
    arbitrum address gives the error that names the identity. *)
Theorem identity_resolution_stages (w : world) (username : option str) :
  lookups_reliable (env w) ->
  (no_identity (env w) username ->
   fst (fetchUserData username w)
   = Throw (Error (js "User not found or twitterId not available for telegram username: "
                   ++ interpolate username)) /\
   filter is_safes_query (events_of (fetchUserData username) w) = []) /\
  (forall u twitterId,
     users (env w) username = Some u ->
     User.twitterId u = Some twitterId -> twitterId <> [] ->
     no_address (env w) twitterId ->
     fst (fetchUserData username w)
     = Throw (Error (js "Safe not found or arbitrum address not available for twitterId: "
                     ++ twitterId))).
Proof.
  intros Hrel.
  destruct (dbConnect_run w Hrel) as (w0 & Hrun & _).
  pose proof (@stable_dbConnect (fun e => e = MongoConnect) (fun _ => True)
                eq_refl w) as Hev.
  rewrite Hrun in Hev. cbn [snd] in Hev.
  destruct Hev as (Henv & (pre & Htr & Hpre) & _).
  assert (Hq : filter is_safes_query pre = []).
  { apply filter_none. eapply Forall_impl; [|exact Hpre].
    now intros e ->. }
  assert (Hf1 : fault (env w) (trace w0) (UsersFindOne username) = None)
    by apply Hrel.
  split.
  - intros Hno. unfold events_of, fetchUserData.
    erewrite catch_bind_return by exact Hrun.
    unfold catch, bind, await, rethrow, throw. rewrite Henv, Hf1.
    destruct Hno as [-> | (u & -> & Hn)]; [|rewrite Hn]; cbn;
      (split; [reflexivity|]);
      rewrite Htr, <- app_assoc, skipn_app_length, filter_app, Hq; reflexivity.
  - intros u twitterId Hu Htw Hne Hno. unfold fetchUserData.
    erewrite catch_bind_return by exact Hrun.
    unfold catch, bind, await, rethrow, throw. rewrite Henv, Hf1, Hu, Htw.
    destruct twitterId as [|c tw]; [contradiction|]. cbn.
    rewrite Henv.
    destruct (Hrel (trace w0 ++ [UsersFindOne username])) as (_ & _ & Hf2 & _).
    rewrite Hf2.
    destruct Hno as [-> | (sf & -> & Hn)]; [|rewrite Hn]; reflexivity.
Qed.

Lemma identity_resolution_stages_witness :
  fst (fetchUserData (Some (js "mallory")) (start (sample_env None)))
  = Throw (Error (js "User not found or twitterId not available for telegram username: "
                  ++ js "mallory")).
Proof.
  refine (proj1 (proj1 (@identity_resolution_stages (start (sample_env None))
                          (Some (js "mallory")) (sample_lookups_reliable None)) _)).
  left. vm_compute. reflexivity.
Defined.

Lemma insertOne_trace (r : Simulation.t) (w : world) :
  trace (snd (insertOne r w)) = trace w ++ [SimulationsInsertOne r].
Proof.
  unfold insertOne, bind, await.
  now destruct (fault (env w) (trace w) (SimulationsInsertOne r)).
Qed.

Lemma workflow_shape_of_run (w : world) (userData : Event.t) :
  exists pre,
    Forall lookup_event pre /\
    workflow_shape w userData pre
      (events_of (handleSimulateTradeRequest userData) w).
Proof.
  unfold events_of, handleSimulateTradeRequest.
  pose proof (stable_lookup_dbConnect w) as Hev1.
  destruct (dbConnect w) as [[[]|e] w1] eqn:Hrun1; cbn [snd] in Hev1.
  2:{ destruct Hev1 as (_ & (pre & Htr & Hpre) & _).
      exists pre. split; [assumption|].
      erewrite catch_bind_throw by exact Hrun1. cbn.
      rewrite Htr, skipn_app_length. constructor. }
  erewrite catch_bind_return by exact Hrun1.
  erewrite catch_bind_return by apply Date_now_run.
  destruct (Event.messageText userData) as [text|] eqn:Htext.
  2:{ destruct Hev1 as (_ & (pre & Htr & Hpre) & _).
      exists pre. split; [assumption|].
      cbn. rewrite Htr, skipn_app_length. constructor. }
  pose proof (stable_lookup_fetchUserData (Event.username userData) w1) as Hev2.
  pose proof (@fetchUserData_returns_resolved w1 (Event.username userData)) as Hsound.
  destruct (fetchUserData (Event.username userData) w1)
    as [[[tw addr]|e] w2] eqn:Hrun2; cbn [fst snd] in *.
  2:{ destruct (evolves_trans Hev1 Hev2) as (_ & (pre & Htr & Hpre) & _).
      exists pre. split; [assumption|].
      erewrite catch_bind_throw by exact Hrun2. cbn.
      rewrite Htr, skipn_app_length. constructor. }
  specialize (Hsound tw addr eq_refl).
  assert (Hres : resolves (env w) (Event.username userData) tw addr)
    by (destruct Hev1 as [<- _]; exact Hsound).
  destruct (evolves_trans Hev1 Hev2) as (Henv & (pre & Htr & Hpre) & _).
  exists pre. split; [assumption|].
  erewrite catch_bind_return by exact Hrun2. cbn [fst snd].
  pose proof (simulateTrade_cases w2 (parseSignalMessage text) tw addr) as Hrun3.
  cbv zeta in Hrun3. rewrite Henv, Htr in Hrun3.
  set (body := apiBody_of (parseSignalMessage text) (clock (env w) (trace w ++ pre))
                 tw addr) in *.
  destruct (fault (env w) (trace w ++ pre) (SignalApiPost body)) as [err|] eqn:Hf.
  - erewrite catch_bind_throw by exact Hrun3. cbn.
    rewrite Htr, <- app_assoc, skipn_app_length.
    now apply shape_api_rejected with (err := err).
  - erewrite catch_bind_return by exact Hrun3.
    match goal with
    | |- context [insertOne ?r] => set (rec := r)
    end.
    assert (Hfin : trace (snd (catch (insertOne rec ;;
                                       ret (signalApi (env w) (trace w ++ pre) body))
                                 rethrow (logged (SignalApiPost body) w2)))
                   = trace w ++ pre ++ [SignalApiPost body; SimulationsInsertOne rec]).
    { unfold catch, bind at 1.
      pose proof (insertOne_trace rec (logged (SignalApiPost body) w2)) as Hi.
      destruct (insertOne rec (logged (SignalApiPost body) w2)) as [[[]|e] w4];
        unfold ret, rethrow, throw; cbn [snd] in *; rewrite Hi;
        cbn [logged trace]; now rewrite Htr, <- !app_assoc. }
    rewrite Hfin, skipn_app_length.
    apply shape_inserted; auto.
    + unfold carries_event. cbn. repeat split; congruence.
    + repeat split.
Qed.

(** X10.  Every run of the workflow, whatever the collaborators do, has
    one of three shapes: lookups only (the run stopped before the API call);
    lookups and an API call that was rejected; lookups, an accepted API call
    and, directly after it, one insertion.  The API is called only for an
    event whose user resolves in the directory, with the body built from the
    parsed text and the resolved identity and address; the inserted record
    has the status 'initiated', carries the event and agrees with the body
    that was posted. *)
Theorem workflow_run_shape (w : world) (userData : Event.t) :
  exists pre,
    Forall lookup_event pre /\
    workflow_shape w userData pre
      (events_of (handleSimulateTradeRequest userData) w).
Proof. apply workflow_shape_of_run. Qed.

Lemma workflow_shape_counts (w : world) (userData : Event.t)
      (pre evs : list event) :
  Forall lookup_event pre -> workflow_shape w userData pre evs ->
  (length (filter is_api_post evs) <= 1)%nat /\
  (length (filter is_insert evs) <= 1)%nat.
Proof.
  intros Hpre H. inversion H; subst;
    rewrite ?filter_app, (lookup_not_api_post Hpre), (lookup_not_insert Hpre);
    cbn; auto.
Qed.

Lemma lookup_event_not_post (pre : list event) (b : Api.body) :
  Forall lookup_event pre -> ~ In (SignalApiPost b) pre.
Proof.
  intros H Hin. rewrite Forall_forall in H.
  destruct (H _ Hin) as (_ & _ & Hc). discriminate.
Qed.

Lemma lookup_event_not_insert (pre : list event) (r : Simulation.t) :
  Forall lookup_event pre -> ~ In (SimulationsInsertOne r) pre.
Proof.
  intros H Hin. rewrite Forall_forall in H.
  destruct (H _ Hin) as (_ & Hc & _). discriminate.
Qed.

(** X11.  The workflow fails closed and acts once: in every run there is
    at most one API call and at most one insertion; an API call is made only
    for an event whose user resolves, and it carries "buy", the resolved
    identity and the resolved address; an insertion happens only after an
    accepted API call, and what it stores agrees with what was posted. *)
Theorem workflow_fails_closed (w : world) (userData : Event.t) :
  let evs := events_of (handleSimulateTradeRequest userData) w in
  (length (filter is_api_post evs) <= 1)%nat /\
  (length (filter is_insert evs) <= 1)%nat /\
  (forall body, In (SignalApiPost body) evs ->
     Api.Signal_Message body = js "buy" /\
     resolves (env w) (Event.username userData)
       (Api.username body) (Api.safeAddress body)) /\
  (forall r, In (SimulationsInsertOne r) evs ->
     exists before body,
       evs = before ++ [SignalApiPost body; SimulationsInsertOne r] /\
       fault (env w) (trace w ++ before) (SignalApiPost body) = None /\
       record_matches_body r body).
Proof.
  intros evs. destruct (workflow_shape_of_run w userData) as (pre & Hpre & Hshape).
  fold evs in Hshape. clearbody evs.
  destruct (workflow_shape_counts Hpre Hshape) as [Hc1 Hc2].
  split; [assumption|]. split; [assumption|].
  destruct Hshape as [| text tw addr now err Ht Hr body Hf
                      | text tw addr now r Ht Hr body Hf Hs Hc Hm Ha]; split.
  - intros b Hin. now apply lookup_event_not_post in Hin.
  - intros r Hin. now apply lookup_event_not_insert in Hin.
  - intros b Hin. apply in_app_or in Hin as [Hin | [Hin | []]];
      [now apply lookup_event_not_post in Hin|].
    injection Hin as <-. now split.
  - intros r Hin. apply in_app_or in Hin as [Hin | [Hin | []]];
      [now apply lookup_event_not_insert in Hin | discriminate].
  - intros b Hin. apply in_app_or in Hin as [Hin | [Hin | [Hin | []]]];
      [now apply lookup_event_not_post in Hin | | discriminate].
    injection Hin as <-. now split.
  - intros r0 Hin. apply in_app_or in Hin as [Hin | [Hin | [Hin | []]]];
      [now apply lookup_event_not_insert in Hin | discriminate |].
    injection Hin as <-. exists pre, body. auto.
Qed.

End WorkflowRuns.

(** ** The cached connection *)

Section Connection.

Local Open Scope js_scope.

Lemma reuse_ret {A} (a : A) : reuses_connection (ret a).
Proof. intros w _. apply evolves_refl. Qed.

Lemma reuse_throw {A} (e : error) : reuses_connection (@throw A e).
Proof. intros w _. apply evolves_refl. Qed.

Lemma reuse_bind {A B} (m : M A) (f : A -> M B) :
  reuses_connection m -> (forall a, reuses_connection (f a)) ->
  reuses_connection (bind m f).
Proof.
  intros Hm Hf w Hc. unfold bind. specialize (Hm w Hc).
  destruct (m w) as [[a|e] w']; cbn [snd] in *; [|assumption].
  eapply evolves_trans; [eassumption|]. apply Hf. now apply Hm.
Qed.

Lemma reuse_catch {A} (m : M A) (h : error -> M A) :
  reuses_connection m -> (forall e, reuses_connection (h e)) ->
  reuses_connection (catch m h).
Proof.
  intros Hm Hh w Hc. unfold catch. specialize (Hm w Hc).
  destruct (m w) as [[a|e] w']; cbn [snd] in *; [assumption|].
  eapply evolves_trans; [eassumption|]. apply Hh. now apply Hm.
Qed.

Lemma reuse_await {A} (e : event) (answer : world -> A) :
  is_connect e = false -> reuses_connection (await e answer).
Proof. intros He w _. now apply stable_await. Qed.

Lemma reuse_emit (e : event) : is_connect e = false -> reuses_connection (emit e).
Proof. intros He w _. now apply stable_emit. Qed.

Lemma reuse_Date_now : reuses_connection Date_now.
Proof. intros w _. apply evolves_refl. Qed.

Lemma reuse_dbConnect : reuses_connection dbConnect.
Proof. intros w Hc. unfold dbConnect. rewrite Hc. apply evolves_refl. Qed.

Lemma reuse_insertOne (r : Simulation.t) : reuses_connection (insertOne r).
Proof. intros w _. now apply stable_insertOne. Qed.

Lemma reuse_stable {A} (m : M A) :
  stable (evolves (fun e => is_connect e = false) (fun _ => True)) m ->
  reuses_connection m.
Proof. intros H w _. apply H. Qed.

Lemma reuse_progressInterval (ctx : Tg.context) (processingMessage : Z) :
  stable (evolves (fun e => is_connect e = false) (fun _ => True))
    (progressInterval ctx processingMessage).
Proof. apply stable_progressInterval. now intros []. Qed.

Lemma reuse_await_on {A} (loop : M unit) (e : event) (answer : world -> A) :
  stable (evolves (fun e => is_connect e = false) (fun _ => True)) loop ->
  is_connect e = false -> reuses_connection (await_on loop e answer).
Proof. intros Hl He. now apply reuse_stable, stable_await_on. Qed.

Lemma reuse_dbConnect_on (loop : M unit) : reuses_connection (dbConnect_on loop).
Proof. intros w Hc. unfold dbConnect_on. rewrite Hc. apply evolves_refl. Qed.

Lemma reuse_insertOne_on (loop : M unit) (r : Simulation.t) :
  stable (evolves (fun e => is_connect e = false) (fun _ => True)) loop ->
  reuses_connection (insertOne_on loop r).
Proof. intros Hl. now apply reuse_stable, stable_insertOne_on. Qed.

Ltac reuse_step :=
  match goal with
  | |- reuses_connection (bind _ _) => apply reuse_bind; [|intros ?]
  | |- reuses_connection (catch _ _) => apply reuse_catch; [|intros ?]
  | |- reuses_connection (ret _) => apply reuse_ret
  | |- reuses_connection (throw _) => apply reuse_throw
  | |- reuses_connection (rethrow _) => apply reuse_throw
  | |- reuses_connection (await _ _) => apply reuse_await; reflexivity
  | |- reuses_connection (emit _) => apply reuse_emit; reflexivity
  | |- reuses_connection Date_now => apply reuse_Date_now
  | |- reuses_connection dbConnect => apply reuse_dbConnect
  | |- reuses_connection (insertOne _) => apply reuse_insertOne
  | |- reuses_connection (await_on _ _ _) =>
    apply reuse_await_on; [assumption | reflexivity]
  | |- reuses_connection (dbConnect_on _) => apply reuse_dbConnect_on
  | |- reuses_connection (insertOne_on _ _) =>
    apply reuse_insertOne_on; assumption
  | |- reuses_connection (match ?x with _ => _ end) => destruct x
  | |- reuses_connection (let _ := _ in _) => cbv zeta
  end.

Lemma reuse_sendMessage (username message : str) :
  reuses_connection (sendMessage username message).
Proof. unfold sendMessage, findChatIdByUsername. repeat reuse_step. Qed.

Lemma reuse_handleSimulateTradeRequest (userData : Event.t) :
  reuses_connection (handleSimulateTradeRequest userData).
Proof.
  unfold handleSimulateTradeRequest, fetchUserData, simulateTrade.
  repeat reuse_step.
Qed.

Lemma reuse_handleSimulateTradeRequest_on (loop : M unit) (userData : Event.t) :
  stable (evolves (fun e => is_connect e = false) (fun _ => True)) loop ->
  reuses_connection (handleSimulateTradeRequest_on loop userData).
Proof.
  intros Hl.
  unfold handleSimulateTradeRequest_on, fetchUserData_on, simulateTrade_on.
  repeat reuse_step.
Qed.

Lemma reuse_setupBotHandlers (ctx : Tg.context) :
  reuses_connection (setupBotHandlers ctx).
Proof.
  unfold setupBotHandlers, simulateTradeAction, captureUserData, answerError,
    chat_id_of.
  repeat (reuse_step
          || (apply reuse_handleSimulateTradeRequest_on,
              reuse_progressInterval)).
Qed.

(** X12.  The connection to the store is made once and reused: a
    successful [dbConnect] leaves the connection cached; a failed one makes
    one attempt and leaves nothing cached, so that the next call tries again;
    and from a world with a cached connection no request (send, callback
    query or workflow) ever connects again, and the connection stays cached. *)
Theorem connection_reused :
  (forall w, fst (dbConnect w) = Return tt ->
             cachedClient (snd (dbConnect w)) = true) /\
  (forall w e, fst (dbConnect w) = Throw e ->
               cachedClient (snd (dbConnect w)) = false /\
               events_of dbConnect w = [MongoConnect]) /\
  (forall w r, cachedClient w = true ->
               cachedClient (serve r w) = true /\
               filter is_connect (skipn (length (trace w)) (trace (serve r w)))
               = []).
Proof.
  repeat split.
  - intros w. unfold dbConnect. destruct (cachedClient w) eqn:Hc; [auto|].
    unfold catch, bind, await.
    now destruct (fault (env w) (trace w) MongoConnect).
  - revert H. unfold dbConnect. destruct (cachedClient w) eqn:Hc; [discriminate|].
    unfold catch, bind, await.
    now destruct (fault (env w) (trace w) MongoConnect).
  - revert H. unfold events_of, dbConnect.
    destruct (cachedClient w) eqn:Hc; [discriminate|].
    unfold catch, bind, await.
    destruct (fault (env w) (trace w) MongoConnect); [|discriminate].
    intros _. cbn. now rewrite skipn_app_length.
  - assert (Hev : evolves (fun e => is_connect e = false) (fun _ => True)
                    w (serve r w)).
    { destruct r; cbn [serve];
        [apply reuse_sendMessage | apply reuse_setupBotHandlers
         | apply reuse_handleSimulateTradeRequest]; assumption. }
    now apply Hev.
  - assert (Hev : evolves (fun e => is_connect e = false) (fun _ => True)
                    w (serve r w)).
    { destruct r; cbn [serve];
        [apply reuse_sendMessage | apply reuse_setupBotHandlers
         | apply reuse_handleSimulateTradeRequest]; assumption. }
    destruct Hev as (_ & (evs & -> & Hq) & _).
    rewrite skipn_app_length. now apply filter_none.
Qed.

Lemma connection_reused_witness :
  filter is_connect
    (skipn (length (trace (serve (Send (js "alice") scenarioA)
                             (start (sample_env None)))))
       (trace (serve (Callback (click (js "alice")))
                 (serve (Send (js "alice") scenarioA)
                    (start (sample_env None))))))
  = [].
Proof.
  refine (proj2 (proj2 (proj2 connection_reused)
                   (serve (Send (js "alice") scenarioA) (start (sample_env None)))
                   (Callback (click (js "alice"))) _)).
  vm_compute. reflexivity.
Defined.

End Connection.

(** ** The callback handler: how a run ends *)

Section HandlerRuns.

Local Open Scope js_scope.

Lemma stable_extends {A} (m : M A) :
  stable (evolves (fun _ => True) (fun _ => True)) m -> extends m.
Proof. intros H w. destruct (H w) as (_ & (evs & Ht & _) & _). eauto. Qed.

Lemma rt_await {A} (e : event) (answer : world -> A) :
  terminal_message e = true -> returns_terminal (await e answer).
Proof.
  intros He w a w'. unfold await.
  destruct (fault (env w) (trace w) e); [discriminate|].
  intros [= _ <-]. exists [], e. now split.
Qed.

Lemma rt_bind {A B} (m : M A) (f : A -> M B) :
  extends m -> (forall a, returns_terminal (f a)) ->
  returns_terminal (bind m f).
Proof.
  intros Hm Hf w b w'. unfold bind. destruct (Hm w) as (evs & Ht).
  destruct (m w) as [[a|e] w1]; [|discriminate]. cbn [snd] in Ht.
  intros H. destruct (Hf a w1 b w' H) as (h & t & Ht' & Hterm).
  exists (evs ++ h), t. rewrite Ht', Ht, <- !app_assoc. now split.
Qed.

Lemma rt_catch {A} (m : M A) (h : error -> M A) :
  returns_terminal m -> extends m -> (forall e, returns_terminal (h e)) ->
  returns_terminal (catch m h).
Proof.
  intros Hm Hext Hh w a w'. unfold catch. destruct (Hext w) as (evs & Ht).
  specialize (Hm w).
  destruct (m w) as [[a0|e] w1]; cbn [snd] in Ht.
  - intros [= <- <-]. now apply (Hm a0).
  - intros H. destruct (Hh e w1 a w' H) as (h0 & t & Ht' & Hterm).
    exists (evs ++ h0), t. rewrite Ht', Ht, <- !app_assoc. now split.
Qed.

Ltac extends_tac :=
  apply stable_extends;
  unfold answerError, chat_id_of, captureUserData;
  repeat (stable_step || apply stable_handleSimulateTradeRequest_on
          || apply stable_progressInterval); auto.

(** The outer [catch] block: the error acknowledgment, whatever becomes of
    it, then the apology as a reply. *)
Lemma outer_handler_run (w : world) :
  trace (snd ((answerError ;; await (Reply SORRY) (fun _ => tt)) w))
  = trace w ++ [AnswerCbQuery ERROR_ACK; Reply SORRY] /\
  env (snd ((answerError ;; await (Reply SORRY) (fun _ => tt)) w)) = env w /\
  (fault (env w) (trace w ++ [AnswerCbQuery ERROR_ACK]) (Reply SORRY) = None ->
   fst ((answerError ;; await (Reply SORRY) (fun _ => tt)) w) = Return tt).
Proof.
  unfold answerError, bind, catch, await, ret.
  destruct (fault (env w) (trace w) (AnswerCbQuery ERROR_ACK));
    cbn [logged env trace fst snd];
    destruct (fault (env w) (trace w ++ [AnswerCbQuery ERROR_ACK]) (Reply SORRY));
    cbn [logged env trace fst snd]; rewrite <- app_assoc;
    repeat split; auto; discriminate.
Qed.

(** X13.  As long as the chat accepts replies, the simulate-trade handler
    never throws: every failure of the workflow, of the store, of the API or
    of an edit ends inside the handler. *)
Theorem handler_contains_errors (ctx : Tg.context) (callbackData : str)
        (w : world) :
  replies_accepted (env w) ->
  fst (simulateTradeAction ctx callbackData w) = Return tt.
Proof.
  intros Hrep. unfold simulateTradeAction.
  match goal with
  | |- fst (catch ?m ?h w) = _ =>
    set (body := m);
    assert (Hst : stable (evolves (fun _ => True) (fun _ => True)) body)
      by (subst body; unfold answerError, chat_id_of, captureUserData;
          repeat (stable_step || apply stable_handleSimulateTradeRequest_on
                  || apply stable_progressInterval); auto)
  end.
  pose proof (Hst w) as (Henv & _). clearbody body. unfold catch at 1.
  destruct (body w) as [[[]|e] w1]; cbn [snd] in Henv; [reflexivity|].
  apply outer_handler_run. rewrite Henv. apply Hrep.
Qed.

Lemma handler_contains_errors_witness :
  fst (simulateTradeAction (click (js "mallory")) (js "1700000000000_alice")
         (start (sample_env None))) = Return tt.
Proof.
  apply handler_contains_errors. intros h t. reflexivity.
Defined.

(** X14.  Every run of the simulate-trade handler ends with a message for
    the user: the last call it makes is an edit of the processing message or
    a reply. *)
Theorem handler_ends_with_message (ctx : Tg.context) (callbackData : str)
        (w : world) :
  exists before last,
    events_of (simulateTradeAction ctx callbackData) w = before ++ [last] /\
    terminal_message last = true.
Proof.
  unfold events_of, simulateTradeAction.
  match goal with
  | |- context [catch ?m ?h w] =>
    set (body := m);
    assert (Hext : extends body) by (subst body; extends_tac);
    assert (Hrt : returns_terminal body); [subst body|]
  end.
  { repeat (apply rt_bind; [extends_tac | intros ?]).
    apply rt_catch; [| extends_tac | intros e].
    - repeat (apply rt_bind; [extends_tac | intros ?]).
      now apply rt_await.
    - repeat (apply rt_bind; [extends_tac | intros ?]).
      apply rt_catch; [| extends_tac | intros e'; now apply rt_await].
      apply rt_bind; [extends_tac | intros ?]. now apply rt_await. }
  clearbody body. unfold catch at 1.
  destruct (Hext w) as (evs & Ht). specialize (Hrt w).
  destruct (body w) as [[a|e] w1] eqn:Hrun; cbn [snd] in Ht.
  - destruct (Hrt a w1 eq_refl) as (h & t & Ht' & Hterm).
    exists h, t. cbn [snd]. now rewrite Ht', skipn_app_length.
  - destruct (outer_handler_run w1) as (Ht' & _).
    exists (evs ++ [AnswerCbQuery ERROR_ACK]), (Reply SORRY).
    rewrite Ht', Ht, <- !app_assoc, skipn_app_length. now split.
Qed.

(** X20.  One firing of the progress timer never throws, whatever the
    transport does with the edit: it makes one call, an edit of the
    processing message into a progress text in the chat of the context, or no
    call at all when the context has no chat; it leaves the collection and
    the cached connection as they are; and its text is none of the texts that
    the handler puts into the processing message at the end. *)
Theorem progress_callback_contained (ctx : Tg.context) (processingMessage : Z)
        (w : world) :
  let run := progressCallback ctx processingMessage w in
  fst run = Return tt /\
  events_of (progressCallback ctx processingMessage) w
  = match Tg.chat_of ctx with
    | Some chat =>
      [EditMessageText (Tg.chat_id chat) processingMessage
         (progressMessage (randomDot (random (env w) (trace w))))]
    | None => []
    end /\
  trade_simulations (snd run) = trade_simulations w /\
  cachedClient (snd run) = cachedClient w /\
  (forall r apiResponse,
     progressMessage (randomDot r) <> replyMessage apiResponse /\
     progressMessage (randomDot r) <> SORRY).
Proof.
  cbv zeta. unfold events_of, progressCallback, catch, bind, Math_random,
    chat_id_of.
  assert (Htexts : forall r apiResponse,
             progressMessage (randomDot r) <> replyMessage apiResponse /\
             progressMessage (randomDot r) <> SORRY).
  { intros r resp. destruct (progressMessage_head r) as [H1 H2]. split; intros H.
    - rewrite H in H1, H2. destruct (replyMessage_head resp); contradiction.
    - rewrite H in H2. apply H2. vm_compute. reflexivity. }
  destruct (Tg.chat_of ctx) as [c|]; unfold ret, throw, await.
  - destruct (fault (env w) (trace w) _);
      cbn [fst snd logged trace trade_simulations cachedClient];
      rewrite skipn_app_length; auto.
  - cbn [fst snd]. rewrite skipn_all. auto.
Qed.

Lemma stable_workflow_or_progress (ctx : Tg.context) (processingMessage : Z)
      (userData : Event.t) :
  stable (evolves (fun e => workflow_call e = true \/
                            progress_edit processingMessage e)
            (fun _ => True))
    (handleSimulateTradeRequest_on (progressInterval ctx processingMessage)
       userData).
Proof.
  apply stable_handleSimulateTradeRequest_on; auto.
  eapply background_stable; [|apply background_progressInterval]. now right.
Qed.

(** X15.  A run of the simulate-trade handler that starts the progress
    timer has acknowledged the interaction and posted the processing message
    before.  While the timer is registered the only calls are those of the
    workflow and the progress edits of the processing message.  The timer is
    cleared directly after the workflow, before the final edit or reply;
    after that no progress edit is made, and the timer is not started
    again. *)
Theorem timer_cleared (ctx : Tg.context) (callbackData : str) (w : world) :
  In SetInterval (events_of (simulateTradeAction ctx callbackData) w) ->
  let processingMessage :=
    created_message (env w) (trace w ++ [AnswerCbQuery PROCESSING_ACK]) in
  exists calls rest,
    events_of (simulateTradeAction ctx callbackData) w
    = AnswerCbQuery PROCESSING_ACK :: Reply PROCESSING_MESSAGE :: SetInterval
      :: calls ++ ClearInterval :: rest /\
    Forall (fun e => workflow_call e = true \/
                     progress_edit processingMessage e) calls /\
    Forall (fun e => e <> SetInterval /\ ~ progress_edit processingMessage e)
      rest.
Proof.
  intros Hin pm. revert Hin.
  unfold events_of, simulateTradeAction.
  assert (Hout : forall w0 (pre : list event),
             trace w0 = trace w ++ pre -> ~ In SetInterval pre ->
             ~ In SetInterval
                 (skipn (length (trace w))
                    (trace (snd ((answerError ;;
                                  await (Reply SORRY) (fun _ => tt)) w0))))).
  { intros w0 pre Ht Hpre. destruct (outer_handler_run w0) as (-> & _).
    rewrite Ht, <- app_assoc, skipn_app_length. intros Hin.
    apply in_app_or in Hin as [Hin | [Hin | [Hin | []]]];
      [contradiction | discriminate | discriminate]. }
  destruct (captureUserData_cases ctx callbackData w)
    as [(userData & Hc & _) | (e & Hc & _)].
  2:{ erewrite catch_bind_throw by exact Hc. intros Hin. exfalso.
      apply (Hout w []); [now rewrite app_nil_r | auto | exact Hin]. }
  erewrite catch_bind_return by exact Hc.
  destruct (fault (env w) (trace w) (AnswerCbQuery PROCESSING_ACK)) eqn:F1.
  { erewrite catch_bind_throw by (apply await_fail; exact F1).
    intros Hin. exfalso.
    apply (Hout (logged (AnswerCbQuery PROCESSING_ACK) w)
             [AnswerCbQuery PROCESSING_ACK]); [reflexivity | | exact Hin].
    intros [H | []]. discriminate. }
  erewrite catch_bind_return by (apply await_ok; exact F1).
  set (w1 := logged (AnswerCbQuery PROCESSING_ACK) w).
  destruct (fault (env w1) (trace w1) (Reply PROCESSING_MESSAGE)) eqn:F2.
  { erewrite catch_bind_throw by (apply await_fail; exact F2).
    intros Hin. exfalso.
    apply (Hout (logged (Reply PROCESSING_MESSAGE) w1)
             [AnswerCbQuery PROCESSING_ACK; Reply PROCESSING_MESSAGE]);
      [cbn; now rewrite <- app_assoc | | exact Hin].
    intros [H | [H | []]]; discriminate. }
  erewrite catch_bind_return by (apply await_ok; exact F2).
  set (w2 := logged (Reply PROCESSING_MESSAGE) w1).
  erewrite catch_bind_return by reflexivity.
  set (w3 := logged SetInterval w2).
  change (created_message (env w1) (trace w1)) with pm.
  intros _.
  destruct (stable_workflow_or_progress ctx pm userData w3)
    as (_ & (calls & Htr4 & Hcalls) & _).
  assert (Hgoal : forall (m : M unit) (w5 : world),
             trace w5 = trace w3 ++ calls ++ [ClearInterval] ->
             stable (evolves (fun e => e <> SetInterval /\ ~ progress_edit pm e)
                       (fun _ => True)) m ->
             exists rest,
               skipn (length (trace w)) (trace (snd (m w5)))
               = AnswerCbQuery PROCESSING_ACK :: Reply PROCESSING_MESSAGE
                 :: SetInterval :: calls ++ ClearInterval :: rest /\
               Forall (fun e => e <> SetInterval /\ ~ progress_edit pm e) rest).
  { intros m w5 Ht5 Hst. destruct (Hst w5) as (_ & (rest & Ht & Hrest) & _).
    exists rest. rewrite Ht, Ht5. cbn [w3 w2 w1 logged trace].
    rewrite <- !app_assoc, skipn_app_length. now split. }
  assert (Hfinal : forall e, e <> SetInterval ->
             (forall chatId text, e = EditMessageText chatId pm text ->
                exists resp, text = replyMessage resp \/ text = SORRY) ->
             e <> SetInterval /\ ~ progress_edit pm e).
  { intros e Ht Hedit. split; [assumption|].
    intros Hp. pose proof Hp as (c & r & ->).
    destruct (Hedit _ _ eq_refl) as (resp & [Hr | Hr]); rewrite Hr in Hp.
    - now apply result_not_progress in Hp.
    - now apply sorry_not_progress in Hp. }
  destruct (handleSimulateTradeRequest_on (progressInterval ctx pm) userData w3)
    as [[resp|e] w4] eqn:Hrun; cbn [snd] in Htr4.
  - erewrite catch_inner.
    2:{ erewrite catch_bind_return by exact Hrun.
        apply catch_bind_return.
        instantiate (1 := logged ClearInterval w4). reflexivity. }
    match goal with
    | |- context [snd (?m (logged ClearInterval w4))] =>
      destruct (Hgoal m (logged ClearInterval w4)) as (rest & Heq & Hno)
    end.
    + cbn [logged trace]. now rewrite Htr4, <- app_assoc.
    + unfold answerError, chat_id_of.
      repeat stable_step;
        (apply Hfinal;
         [discriminate
         | first [discriminate
                 | intros ? ? H; inversion H; subst;
                   first [eexists; left; reflexivity | exists None; now right]]]).
    + exists calls, rest. auto.
  - erewrite catch_inner.
    2:{ erewrite catch_bind_throw by exact Hrun.
        apply bind_return.
        instantiate (1 := logged ClearInterval w4). reflexivity. }
    match goal with
    | |- context [snd (?m (logged ClearInterval w4))] =>
      destruct (Hgoal m (logged ClearInterval w4)) as (rest & Heq & Hno)
    end.
    + cbn [logged trace]. now rewrite Htr4, <- app_assoc.
    + unfold answerError, chat_id_of.
      repeat stable_step;
        (apply Hfinal;
         [discriminate
         | first [discriminate
                 | intros ? ? H; inversion H; subst;
                   first [eexists; left; reflexivity | exists None; now right]]]).
    + exists calls, rest. auto.
Qed.

Lemma timer_cleared_witness :
  exists calls rest,
    events_of (simulateTradeAction (click (js "alice")) (js "1700000000000_alice"))
      (start (slow_env None))
    = AnswerCbQuery PROCESSING_ACK :: Reply PROCESSING_MESSAGE :: SetInterval
      :: calls ++ ClearInterval :: rest /\
    Forall (fun e => workflow_call e = true \/ progress_edit 1 e) calls.
Proof.
  destruct (@timer_cleared (click (js "alice")) (js "1700000000000_alice")
              (start (slow_env None))) as (calls & rest & H1 & H2 & _).
  - vm_compute. auto.
  - exists calls, rest. split; [exact H1 | exact H2].
Defined.

End HandlerRuns.

(** ** Escaping, and the HTTP route *)

Section Surface.

Local Open Scope js_scope.

Lemma escapeUnderscores_cons (c : N) (s : str) :
  escapeUnderscores (c :: s)
  = (if (c =? 95)%N then [92%N; 95%N] else [c]) ++ escapeUnderscores s.
Proof. reflexivity. Qed.

(** X16.  In a text escaped for Markdown every underscore stands directly
    after a backslash, and a text without underscores is left as it is. *)
Theorem underscores_are_escaped (s : str) :
  underscores_escaped (escapeUnderscores s) /\
  (includes s (js "_") = false -> escapeUnderscores s = s).
Proof.
  split.
  - induction s as [|c s IH]; intros a b H.
    + destruct a; discriminate.
    + rewrite escapeUnderscores_cons in H.
      destruct (N.eqb_spec c 95) as [-> | Hc].
      * destruct a as [|x [|y a]]; cbn in H.
        -- discriminate.
        -- injection H as <- _. now exists [].
        -- injection H as <- <- H. destruct (IH _ _ H) as (a' & ->).
           now exists (92%N :: 95%N :: a').
      * destruct a as [|x a]; cbn in H.
        -- injection H as H _. congruence.
        -- injection H as <- H. destruct (IH _ _ H) as (a' & ->).
           now exists (c :: a').
  - intros H%includes_false. induction s as [|c s IH]; [reflexivity|].
    rewrite indexOf_eq in H. rewrite escapeUnderscores_cons.
    change (startsWith (js "_") (c :: s)) with ((95 =? c)%N && true) in H.
    rewrite andb_true_r in H. rewrite N.eqb_sym in H.
    destruct (c =? 95)%N; [discriminate|].
    destruct (indexOf s (js "_")); [discriminate|]. cbn. now rewrite IH.
Qed.

Lemma underscores_are_escaped_witness :
  escapeUnderscores (js "0xA11CE") = js "0xA11CE".
Proof.
  refine (proj2 (underscores_are_escaped (js "0xA11CE")) _).
  vm_compute. reflexivity.
Defined.

Lemma postTelegramSend_valid (username message : str) (w : world) :
  username <> [] -> message <> [] ->
  postTelegramSend (Some username) (Some message) w
  = match sendMessage username message w with
    | (Return _, w') =>
      (Return {| http_status := 200; success := true;
                 payload := js "Telegram message sent successfully" |}, w')
    | (Throw e, w') => (Throw e, w')
    end.
Proof.
  intros Hu Hm. destruct username as [|c u]; [contradiction|].
  destruct message as [|d m]; [contradiction|].
  unfold postTelegramSend, catch, bind, ret, rethrow, throw.
  now destruct (sendMessage (c :: u) (d :: m) w) as [[r|e] w'].
Qed.

Lemma sendMessage_not_found (w : world) (username message : str) :
  no_chat_id (env w) (cleanUsername username) ->
  (forall h, fault (env w) h MongoConnect = None /\
             fault (env w) h (UsersFindOne (Some (cleanUsername username))) = None) ->
  fst (sendMessage username message w) = Throw NOT_FOUND.
Proof.
  intros Habs Hf.
  destruct (findChatIdByUsername_absent w Habs) as (e & w1 & Hrun & He).
  destruct (sendMessage_lookup_throw w username message Hrun)
    as (_ & e' & He' & Hsame).
  rewrite He'. f_equal. rewrite Hsame; rewrite (He Hf); reflexivity.
Qed.

(** X17.  The route POST /api/telegram/send, for a body whose fields are
    strings or absent: without a non-empty username and a non-empty message
    it answers 400 and calls nothing; otherwise it runs [sendMessage] once
    and answers 200 when that returns and 500 with the message of the error
    when it throws; in particular an unknown user gives 500 with the
    not-found message of the lookup, when the store answers. *)
Theorem telegram_send_route (w : world) (username text : option str) :
  (nonempty username = false \/ nonempty text = false ->
   telegramSendRoute username text w
   = ({| http_status := 400; success := false;
         payload := js "Both username and message are required" |}, w)) /\
  (forall u m, username = Some u -> text = Some m -> u <> [] -> m <> [] ->
     snd (telegramSendRoute username text w) = snd (sendMessage u m w) /\
     (forall r, fst (sendMessage u m w) = Return r ->
        fst (telegramSendRoute username text w)
        = {| http_status := 200; success := true;
             payload := js "Telegram message sent successfully" |}) /\
     (forall e, fst (sendMessage u m w) = Throw e ->
        fst (telegramSendRoute username text w)
        = {| http_status := 500; success := false;
             payload := or_else (Some (message e)) (js "Internal Server Error") |}) /\
     (no_chat_id (env w) (cleanUsername u) ->
      (forall h, fault (env w) h MongoConnect = None /\
                 fault (env w) h (UsersFindOne (Some (cleanUsername u))) = None) ->
      fst (telegramSendRoute username text w)
      = {| http_status := 500; success := false;
           payload := js "User not found or chat ID not available in database." |})).
Proof.
  split.
  - unfold telegramSendRoute, postTelegramSend.
    destruct username as [[|c u]|], text as [[|d m]|]; cbn;
      intros [H | H]; try discriminate; reflexivity.
  - intros u m -> -> Hu Hm. unfold telegramSendRoute.
    rewrite (postTelegramSend_valid w Hu Hm).
    assert (Hcases : forall e, fst (sendMessage u m w) = Throw e ->
              fst (let (o, w') :=
                     let (o, w') := sendMessage u m w in
                     match o with
                     | Return _ =>
                       (Return {| http_status := 200; success := true;
                                  payload := js "Telegram message sent successfully" |},
                        w')
                     | Throw e => (Throw e, w')
                     end in
                   match o with
                   | Return res => (res, w')
                   | Throw err => (errorMiddleware err, w')
                   end) = errorMiddleware e).
    { intros e. destruct (sendMessage u m w) as [[r|e'] w']; cbn;
        [discriminate | now intros [= ->]]. }
    repeat split.
    + now destruct (sendMessage u m w) as [[r|e] w'].
    + intros r. now destruct (sendMessage u m w) as [[r'|e] w'].
    + intros e He. now rewrite (Hcases e He).
    + intros Habs Hf.
      pose proof (sendMessage_not_found w u m Habs Hf) as He.
      rewrite (Hcases _ He). vm_compute. reflexivity.
Qed.

Lemma telegram_send_route_witness :
  fst (telegramSendRoute (Some (js "unknown_user")) (Some scenarioA)
         (start (sample_env None)))
  = {| http_status := 500; success := false;
       payload := js "User not found or chat ID not available in database." |} /\
  telegramSendRoute None (Some scenarioA) (start (sample_env None))
  = ({| http_status := 400; success := false;
        payload := js "Both username and message are required" |},
     start (sample_env None)).
Proof.
  split.
  - refine (proj2 (proj2 (proj2 (proj2
              (@telegram_send_route (start (sample_env None))
                 (Some (js "unknown_user")) (Some scenarioA))
              (js "unknown_user") scenarioA eq_refl eq_refl _ _))) _ _).
    + discriminate.
    + vm_compute. discriminate.
    + left. vm_compute. reflexivity.
    + intros h. split; reflexivity.
  - refine (proj1 (@telegram_send_route (start (sample_env None))
                     None (Some scenarioA)) _).
    now left.
Defined.

End Surface.

(** ** The two ends of a click *)

Section ClickOutcomes.

Local Open Scope js_scope.

Lemma no_identity_not_resolved (e : environment) (username : option str)
      (twitterId safeAddress : str) :
  no_identity e username -> ~ resolves e username twitterId safeAddress.
Proof.
  intros [Hn | (u & Hu & Hn)] (u' & sf & Hu' & Htw & Hne & _).
  - congruence.
  - rewrite Hu in Hu'. injection Hu' as <-. rewrite Htw in Hn.
    destruct twitterId; [contradiction | discriminate].
Qed.

(** X18.  A click by a user whom the directory does not link to a trading
    identity, when the chat transport accepts every call: the handler
    acknowledges, posts the processing message, starts the timer, makes
    lookups only (with progress edits of the processing message as often as
    the timer fires meanwhile), clears the timer, answers the callback query
    with the error text and edits the processing message into the apology;
    it returns normally, stores nothing and never calls the API. *)
Theorem unresolved_click_apology (ctx : Tg.context) (callbackData text : str)
        (chat : Tg.chat) (w : world) :
  Tg.text (Tg.message_of (Tg.callbackQuery_of ctx)) = Some text ->
  Tg.chat_of ctx = Some chat ->
  no_identity (env w) (Tg.user_username (Tg.from (Tg.callbackQuery_of ctx))) ->
  transport_reliable (env w) ->
  let processingMessage :=
    created_message (env w) (trace w ++ [AnswerCbQuery PROCESSING_ACK]) in
  exists calls,
    events_of (simulateTradeAction ctx callbackData) w
    = [AnswerCbQuery PROCESSING_ACK; Reply PROCESSING_MESSAGE; SetInterval]
      ++ calls
      ++ [ClearInterval; AnswerCbQuery ERROR_ACK;
          EditMessageText (Tg.chat_id chat) processingMessage SORRY] /\
    Forall (lookup_or (progress_edit processingMessage)) calls /\
    fst (simulateTradeAction ctx callbackData w) = Return tt /\
    trade_simulations (snd (simulateTradeAction ctx callbackData w))
    = trade_simulations w.
Proof.
  intros Htext Hchat Hno Hrel pm.
  assert (Hrun : exists calls w4,
             simulateTradeAction ctx callbackData w
             = (Return tt,
                logged (EditMessageText (Tg.chat_id chat) pm SORRY)
                  (logged (AnswerCbQuery ERROR_ACK) (logged ClearInterval w4))) /\
             trace w4 = trace w ++ [AnswerCbQuery PROCESSING_ACK;
                                    Reply PROCESSING_MESSAGE; SetInterval] ++ calls /\
             Forall (lookup_or (progress_edit pm)) calls /\
             trade_simulations w4 = trade_simulations w).
  { unfold simulateTradeAction.
    destruct (captureUserData_cases ctx callbackData w)
      as [(userData & Hc & Hname & _) | (e & _ & Hnone)]; [|congruence].
    rewrite <- Hname in Hno.
    erewrite catch_bind_return by exact Hc.
    erewrite catch_bind_return by (apply await_ok; now apply Hrel).
    set (w1 := logged (AnswerCbQuery PROCESSING_ACK) w).
    erewrite catch_bind_return by (apply await_ok; now apply Hrel).
    set (w2 := logged (Reply PROCESSING_MESSAGE) w1).
    erewrite catch_bind_return by reflexivity.
    set (w3 := logged SetInterval w2).
    change (created_message (env w1) (trace w1)) with pm.
    destruct (@handleSimulateTradeRequest_on_unresolved _ _
                (background_progressInterval ctx pm) w3 userData)
      as (e & w4 & Hrun & Hev).
    { intros tw sa. now apply no_identity_not_resolved. }
    pose proof (evolves_same_store Hev) as Hstore.
    destruct Hev as (Henv & (calls & Htr & Hcalls) & _).
    exists calls, w4.
    split; [| split; [| split; [assumption | exact Hstore]]].
    - erewrite catch_inner by (apply catch_bind_throw; exact Hrun).
      unfold answerError, chat_id_of. rewrite Hchat.
      unfold catch, bind, emit, await, ret.
      repeat (cbn [logged env trace]; rewrite ?Henv;
              rewrite Hrel by reflexivity).
      reflexivity.
    - rewrite Htr. cbn [w3 w2 w1 logged trace]. now rewrite <- !app_assoc. }
  destruct Hrun as (calls & w4 & Hrun & Htr & Hcalls & Hstore).
  exists calls. unfold events_of. rewrite Hrun. cbn [fst snd logged trace trade_simulations].
  rewrite Htr, <- !app_assoc, skipn_app_length.
  repeat split; auto.
Qed.

Lemma unresolved_click_apology_witness :
  fst (simulateTradeAction (click (js "mallory")) (js "1700000000000_alice")
         (start (slow_env None))) = Return tt /\
  trade_simulations
    (snd (simulateTradeAction (click (js "mallory")) (js "1700000000000_alice")
            (start (slow_env None)))) = [].
Proof.
  destruct (@unresolved_click_apology (click (js "mallory"))
              (js "1700000000000_alice") scenarioA
              {| Tg.chat_id := 42%Z; Tg.chat_type := Some (js "private");
                 Tg.chat_username := Some (js "mallory") |}
              (start (slow_env None)) eq_refl eq_refl)
    as (calls & _ & _ & H1 & H2).
  - left. vm_compute. reflexivity.
  - intros h c _. reflexivity.
  - split; [exact H1 | exact H2].
Defined.

(** X19.  A click by a user who resolves, when no collaborator rejects:
    after the acknowledgment, the processing message and the start of the
    timer come lookups, the API call and the insertion of the record with the
    raw answer, with progress edits of the processing message in between as
    often as the timer fires; then the timer is cleared and the processing
    message is edited into the text formatted from that answer.  The record
    is stored before the user sees the result. *)
Theorem resolved_click_result (ctx : Tg.context) (callbackData text : str)
        (chat : Tg.chat) (twitterId safeAddress : str) (w : world) :
  Tg.text (Tg.message_of (Tg.callbackQuery_of ctx)) = Some text ->
  Tg.chat_of ctx = Some chat ->
  reliable (env w) ->
  resolves (env w) (Tg.user_username (Tg.from (Tg.callbackQuery_of ctx)))
    twitterId safeAddress ->
  let processingMessage :=
    created_message (env w) (trace w ++ [AnswerCbQuery PROCESSING_ACK]) in
  let started := [AnswerCbQuery PROCESSING_ACK; Reply PROCESSING_MESSAGE;
                  SetInterval] in
  exists before body r mid after,
    let resp := signalApi (env w) (trace w ++ started ++ before) body in
    events_of (simulateTradeAction ctx callbackData) w
    = started ++ before
      ++ SignalApiPost body :: mid
      ++ SimulationsInsertOne r :: after
      ++ [ClearInterval;
          EditMessageText (Tg.chat_id chat) processingMessage
            (replyMessage resp)] /\
    Forall (lookup_or (progress_edit processingMessage)) before /\
    Forall (progress_edit processingMessage) mid /\
    Forall (progress_edit processingMessage) after /\
    Simulation.apiResponse r = resp /\
    fst (simulateTradeAction ctx callbackData w) = Return tt /\
    trade_simulations (snd (simulateTradeAction ctx callbackData w))
    = trade_simulations w ++ [r].
Proof.
  intros Htext Hchat Hrel Hres pm started.
  assert (Hrun : exists before body r mid after w4,
             simulateTradeAction ctx callbackData w
             = (Return tt,
                logged (EditMessageText (Tg.chat_id chat) pm
                          (replyMessage
                             (signalApi (env w)
                                (trace w ++ started ++ before) body)))
                  (logged ClearInterval w4)) /\
             trace w4 = trace w ++ started ++ before
                        ++ SignalApiPost body :: mid
                        ++ SimulationsInsertOne r :: after /\
             Forall (lookup_or (progress_edit pm)) before /\
             Forall (progress_edit pm) mid /\
             Forall (progress_edit pm) after /\
             Simulation.apiResponse r
             = signalApi (env w) (trace w ++ started ++ before) body /\
             trade_simulations w4 = trade_simulations w ++ [r]).
  { unfold simulateTradeAction.
    destruct (captureUserData_cases ctx callbackData w)
      as [(userData & Hc & Hname & Hmsg & _) | (e & _ & Hnone)]; [|congruence].
    rewrite Htext in Hmsg. rewrite <- Hname in Hres.
    erewrite catch_bind_return by exact Hc.
    erewrite catch_bind_return by (apply await_ok; apply Hrel).
    set (w1 := logged (AnswerCbQuery PROCESSING_ACK) w).
    erewrite catch_bind_return by (apply await_ok; apply Hrel).
    set (w2 := logged (Reply PROCESSING_MESSAGE) w1).
    erewrite catch_bind_return by reflexivity.
    set (w3 := logged SetInterval w2).
    change (created_message (env w1) (trace w1)) with pm.
    destruct (@handleSimulateTradeRequest_on_run _ _
                (background_progressInterval ctx pm) w3 userData
                text twitterId safeAddress Hmsg (reliable_lookups Hrel) Hres)
      as (before & body & r & mid & after
          & Htr & Hbefore & Hmid & Hafter & Henv
          & _ & _ & _ & _ & _ & Hresp & Hins).
    cbv zeta in Htr, Henv, Hresp, Hins.
    change (env w3) with (env w) in Henv, Hresp, Hins.
    rewrite Hrel in Hins. destruct Hins as [Hret Hstore].
    destruct (handleSimulateTradeRequest_on (progressInterval ctx pm) userData w3)
      as [o w4] eqn:Hrun.
    cbn [fst snd] in Htr, Henv, Hret, Hstore. subst o.
    assert (Hpre : trace w3 ++ before = trace w ++ started ++ before).
    { cbn [w3 w2 w1 logged trace]. subst started. now rewrite <- !app_assoc. }
    rewrite Hpre in Hresp, Hrun.
    exists before, body, r, mid, after, w4.
    split; [| split; [| split; [assumption | split; [assumption |
      split; [assumption | split; [exact Hresp | exact Hstore]]]]]].
    - erewrite catch_inner by (apply catch_bind_return; exact Hrun).
      unfold chat_id_of. rewrite Hchat.
      unfold catch, bind, emit, await, ret.
      repeat (cbn [logged env trace]; rewrite ?Henv;
              rewrite Hrel).
      reflexivity.
    - rewrite Htr. cbn [w3 w2 w1 logged trace]. subst started.
      rewrite <- !app_assoc. reflexivity. }
  destruct Hrun as (before & body & r & mid & after & w4
                    & Hrun & Htr & Hbefore & Hmid & Hafter & Hresp & Hstore).
  exists before, body, r, mid, after. cbv zeta. unfold events_of. rewrite Hrun.
  cbn [fst snd logged trace trade_simulations].
  rewrite Htr, <- !app_assoc, skipn_app_length.
  split; [| split; [assumption | split; [assumption | split; [assumption |
    split; [exact Hresp | split; [reflexivity | exact Hstore]]]]]].
  cbn [app]. rewrite <- ?app_assoc. cbn [app]. rewrite <- ?app_assoc.
  reflexivity.
Qed.

Lemma resolved_click_result_witness :
  exists r,
    fst (simulateTradeAction (click (js "alice")) (js "1700000000000_alice")
           (start (slow_env (Some success_response)))) = Return tt /\
    trade_simulations
      (snd (simulateTradeAction (click (js "alice")) (js "1700000000000_alice")
              (start (slow_env (Some success_response))))) = [] ++ [r].
Proof.
  destruct (@resolved_click_result (click (js "alice"))
              (js "1700000000000_alice") scenarioA
              {| Tg.chat_id := 42%Z; Tg.chat_type := Some (js "private");
                 Tg.chat_username := Some (js "alice") |}
              (js "alice_tw") (js "0xA11CE")
              (start (slow_env (Some success_response))) eq_refl eq_refl)
    as (before & body & r & mid & after & _ & _ & _ & _ & _ & H1 & H2).
  - intros h c. reflexivity.
  - apply slow_resolves.
  - exists r. split; [exact H1 | exact H2].
Defined.

End ClickOutcomes.
